(** * pkg/imaging/tools.go: a shallow embedding

    The Go package [imaging] (file [tools.go]) is embedded function by
    function.  Go values are modelled as follows.

    - [int] is a 64-bit two's complement integer: a [Z] whose arithmetic
      wraps ([Int.add], [Int.sub], [Int.mul]).
    - [uint8] is [Byte.byte]; [[]uint8] is [list byte].
    - [float64] is the kernel's binary64 ([PrimFloat.float]); every
      operation rounds on its own, as the gc compiler does on amd64.
    - a run-time panic (index or slice bounds out of range, a negative
      [make]) is the outcome [Panic] of the [result] monad.
    - a float to integer conversion whose value the target type cannot
      represent is implementation-dependent in Go; its result is taken
      from a [Platform] record the model is parametric in. *)

From Stdlib Require Import ZArith Lia Bool Floats.
From Stdlib.Strings Require Import Byte.
From stdpp Require Import base tactics option list list_numbers.

Local Open Scope Z_scope.

(** ** Outcomes of Go code that may panic *)

Inductive result (A : Type) : Type :=
| Ok (a : A)
| Panic.
Arguments Ok {A} a.
Arguments Panic {A}.

Global Instance result_bind : MBind result := fun A B k r =>
  match r with
  | Ok a => k a
  | Panic => Panic
  end.

Definition is_Ok {A} (r : result A) : bool :=
  match r with Ok _ => true | Panic => false end.

(** [for _, k := range ks { body }] over a finite list of keys, threading
    the state the body mutates and stopping at the first panic. *)
Fixpoint for_each {S : Type} (ks : list Z) (body : Z -> S -> result S) (s : S)
  : result S :=
  match ks with
  | [] => Ok s
  | k :: ks' => s' ← body k s; for_each ks' body s'
  end.

(** [for x := lo; x < hi; x++ { body }]. *)
Definition for_range {S : Type} (lo hi : Z) (body : Z -> S -> result S) (s : S)
  : result S :=
  for_each (seqZ lo (hi - lo)) body s.

(** ** Go's [int] *)

Module Int.
Definition min_int : Z := - 2 ^ 63.
Definition max_int : Z := 2 ^ 63 - 1.
Definition wrap (z : Z) : Z := (z + 2 ^ 63) mod 2 ^ 64 - 2 ^ 63.
Definition add (a b : Z) : Z := wrap (a + b).
Definition sub (a b : Z) : Z := wrap (a - b).
Definition mul (a b : Z) : Z := wrap (a * b).
Definition in_range (z : Z) : Prop := min_int <= z <= max_int.
End Int.

Global Arguments Int.wrap : simpl never.
Global Arguments Int.add : simpl never.
Global Arguments Int.sub : simpl never.
Global Arguments Int.mul : simpl never.
Global Arguments Int.min_int : simpl never.
Global Arguments Int.max_int : simpl never.

Infix "[+]" := Int.add (at level 50, left associativity).
Infix "[-]" := Int.sub (at level 50, left associativity).
Infix "[*]" := Int.mul (at level 40, left associativity).

(** ** Go's [[]uint8] and [[]image.Point]: indexing, slicing, [make] *)

(** [s[i]] as an rvalue: panics unless [0 <= i < len(s)]. *)
Definition index {A} (s : list A) (i : Z) : result A :=
  if (0 <=? i) && (i <? Z.of_nat (length s))
  then match s !! Z.to_nat i with Some a => Ok a | None => Panic end
  else Panic.

(** [s[i] = a]: panics unless [0 <= i < len(s)]. *)
Definition store {A} (s : list A) (i : Z) (a : A) : result (list A) :=
  if (0 <=? i) && (i <? Z.of_nat (length s))
  then Ok (<[Z.to_nat i := a]> s)
  else Panic.

(** The bounds check of the slice expression [s[lo:hi]] on a slice whose
    capacity is its length (every slice [tools.go] slices comes from
    [make] or [image.NewNRGBA]). *)
Definition slice_ok {A} (s : list A) (lo hi : Z) : bool :=
  (0 <=? lo) && (lo <=? hi) && (hi <=? Z.of_nat (length s)).

(** [make([]T, n)] with zero value [zero]: panics on a negative length.
    Memory exhaustion is not modelled. *)
Definition make {A} (zero : A) (n : Z) : result (list A) :=
  if n <? 0 then Panic else Ok (replicate (Z.to_nat n) zero).

(** ** Go's [float64] and its conversions *)

(** What a platform answers where the Go specification leaves the result
    of a float to integer conversion implementation-dependent. *)
Record Platform : Type := {
  int_of_invalid : float -> Z;
  uint8_of_invalid : float -> byte
}.

Module Float64.
(** [float64(z)] for an integer [z]: rounded to nearest, ties to even. *)
Definition of_int (z : Z) : float :=
  SF2Prim (binary_normalize prec emax z 0 false).

(** [float64(b)] for a [uint8]. *)
Definition of_uint8 (b : byte) : float :=
  of_int (Z.of_N (Byte.to_N b)).

(** The integer part of a finite float (the fraction is discarded,
    truncation towards zero); [None] for NaN and the infinities. *)
Definition trunc (f : float) : option Z :=
  match Prim2SF f with
  | S754_zero _ => Some 0
  | S754_finite s m e =>
      let mag := if 0 <=? e then Z.pos m * 2 ^ e else Z.pos m / 2 ^ (- e) in
      Some (if s then - mag else mag)
  | S754_infinity _ | S754_nan => None
  end.

(** The largest integer below or equal to a finite float. *)
Definition floorZ (f : float) : option Z :=
  match Prim2SF f with
  | S754_zero _ => Some 0
  | S754_finite s m e =>
      let num := if s then - Z.pos m else Z.pos m in
      Some (if 0 <=? e then num * 2 ^ e else num / 2 ^ (- e))
  | S754_infinity _ | S754_nan => None
  end.

Definition byte_of_Z (z : Z) : byte :=
  match Byte.of_N (Z.to_N z) with Some b => b | None => x00 end.

(** [uint8(f)]. *)
Definition to_uint8 (P : Platform) (f : float) : byte :=
  match trunc f with
  | Some z => if (0 <=? z) && (z <=? 255) then byte_of_Z z
              else uint8_of_invalid P f
  | None => uint8_of_invalid P f
  end.

(** [int(f)]. *)
Definition to_int (P : Platform) (f : float) : Z :=
  match trunc f with
  | Some z => if (Int.min_int <=? z) && (z <=? Int.max_int) then z
              else int_of_invalid P f
  | None => int_of_invalid P f
  end.
End Float64.

(** ** Package [math] *)

Module math.
Local Open Scope float_scope.

Definition MaxFloat64 : float := 0x1.fffffffffffffp+1023.

Definition IsNaN (f : float) : bool := negb (f =? f).

(** [IsInf(f, sign)]: [f > MaxFloat64] for [sign >= 0], or
    [f < -MaxFloat64] for [sign <= 0]. *)
Definition IsInf (f : float) (sign : Z) : bool :=
  ((0 <=? sign)%Z && (MaxFloat64 <? f)) || ((sign <=? 0)%Z && (f <? - MaxFloat64)).

Definition Signbit (f : float) : bool :=
  match Prim2SF f with
  | S754_zero s | S754_infinity s | S754_finite s _ _ => s
  | S754_nan => false
  end.

Definition Max (x y : float) : float :=
  if IsInf x 1 || IsInf y 1 then infinity
  else if IsNaN x || IsNaN y then nan
  else if (x =? 0) && (x =? y) then (if Signbit x then y else x)
  else if y <? x then x
  else y.

Definition Min (x y : float) : float :=
  if IsInf x (-1) || IsInf y (-1) then neg_infinity
  else if IsNaN x || IsNaN y then nan
  else if (x =? 0) && (x =? y) then (if Signbit x then x else y)
  else if x <? y then x
  else y.

(** [Floor(x)]: the special cases [±0], [±Inf] and [NaN] return [x];
    otherwise the greatest integer value below or equal to [x]. *)
Definition Floor (x : float) : float :=
  if (x =? 0) || IsNaN x || IsInf x 0 then x
  else match Float64.floorZ x with
       | Some z => Float64.of_int z
       | None => x
       end.
End math.

(** ** Package [image/color] *)

Module color.
Record NRGBA : Type := { R : byte; G : byte; B : byte; A : byte }.

Definition zero : NRGBA := {| R := x00; G := x00; B := x00; A := x00 |}.

(** The four bytes of a pixel in buffer order. *)
Definition bytes (c : NRGBA) : list byte := [R c; G c; B c; A c].
End color.

(** ** Package [image]: points and rectangles *)

Module Point.
Record t : Type := { X : Z; Y : Z }.

Definition Add (p q : t) : t := {| X := X p [+] X q; Y := Y p [+] Y q |}.
Definition Sub (p q : t) : t := {| X := X p [-] X q; Y := Y p [-] Y q |}.
End Point.

Definition Pt (x y : Z) : Point.t := {| Point.X := x; Point.Y := y |}.

Module Rectangle.
Record t : Type := { Min : Point.t; Max : Point.t }.

Definition Dx (r : t) : Z := Point.X (Max r) [-] Point.X (Min r).
Definition Dy (r : t) : Z := Point.Y (Max r) [-] Point.Y (Min r).
Definition Size (r : t) : Point.t := Pt (Dx r) (Dy r).

Definition Sub (r : t) (p : Point.t) : t :=
  {| Min := Pt (Point.X (Min r) [-] Point.X p) (Point.Y (Min r) [-] Point.Y p);
     Max := Pt (Point.X (Max r) [-] Point.X p) (Point.Y (Max r) [-] Point.Y p) |}.

Definition Empty (r : t) : bool :=
  (Point.X (Max r) <=? Point.X (Min r)) || (Point.Y (Max r) <=? Point.Y (Min r)).

(** The zero rectangle [image.ZR] (also [image.Rectangle{}]). *)
Definition ZR : t := {| Min := Pt 0 0; Max := Pt 0 0 |}.

Definition Intersect (r s : t) : t :=
  let minx := if Point.X (Min r) <? Point.X (Min s) then Point.X (Min s) else Point.X (Min r) in
  let miny := if Point.Y (Min r) <? Point.Y (Min s) then Point.Y (Min s) else Point.Y (Min r) in
  let maxx := if Point.X (Max s) <? Point.X (Max r) then Point.X (Max s) else Point.X (Max r) in
  let maxy := if Point.Y (Max s) <? Point.Y (Max r) then Point.Y (Max s) else Point.Y (Max r) in
  let r' := {| Min := Pt minx miny; Max := Pt maxx maxy |} in
  if Empty r' then ZR else r'.

(** [p.In(r)]. *)
Definition contains (r : t) (x y : Z) : Prop :=
  Point.X (Min r) <= x < Point.X (Max r) /\ Point.Y (Min r) <= y < Point.Y (Max r).
End Rectangle.

(** [image.Rect(x0, y0, x1, y1)]: the coordinates are swapped where needed
    so that the rectangle is well-formed. *)
Definition Rect (x0 y0 x1 y1 : Z) : Rectangle.t :=
  let '(x0, x1) := if x1 <? x0 then (x1, x0) else (x0, x1) in
  let '(y0, y1) := if y1 <? y0 then (y1, y0) else (y0, y1) in
  {| Rectangle.Min := Pt x0 y0; Rectangle.Max := Pt x1 y1 |}.

(** ** Package [image]: images *)

(** [image.Image], read through [color.NRGBAModel]: the bounds and the
    straight-alpha RGBA8 colour at absolute coordinates. *)
Module Image.
Record t : Type := { Bounds : Rectangle.t; At : Z -> Z -> color.NRGBA }.
End Image.

(** [*image.NRGBA]. *)
Module NRGBA.
Record t : Type := { Pix : list byte; Stride : Z; Rect : Rectangle.t }.

(** [&image.NRGBA{}], the canonical empty buffer. *)
Definition empty : t := {| Pix := []; Stride := 0; Rect := Rectangle.ZR |}.

Definition Bounds (p : t) : Rectangle.t := Rect p.

Definition PixOffset (p : t) (x y : Z) : Z :=
  (y [-] Point.Y (Rectangle.Min (Rect p))) [*] Stride p
  [+] (x [-] Point.X (Rectangle.Min (Rect p))) [*] 4.

(** [p.NRGBAAt(x, y)]: the zero colour outside [p.Rect].  (Where Go would
    panic on a [Pix] too short for [Rect], the missing bytes read as 0.) *)
Definition NRGBAAt (p : t) (x y : Z) : color.NRGBA :=
  if (Point.X (Rectangle.Min (Rect p)) <=? x) && (x <? Point.X (Rectangle.Max (Rect p)))
     && (Point.Y (Rectangle.Min (Rect p)) <=? y) && (y <? Point.Y (Rectangle.Max (Rect p)))
  then
    let i := Z.to_nat (PixOffset p x y) in
    {| color.R := default x00 (Pix p !! i);
       color.G := default x00 (Pix p !! (i + 1)%nat);
       color.B := default x00 (Pix p !! (i + 2)%nat);
       color.A := default x00 (Pix p !! (i + 3)%nat) |}
  else color.zero.

(** A buffer seen through the [image.Image] interface. *)
Definition Image (p : t) : Image.t :=
  {| Image.Bounds := Rect p; Image.At := NRGBAAt p |}.
End NRGBA.

(** [mul3NonNeg(x, y, z)] of [image/geom.go]: the product, or -1 when an
    argument is negative or a partial product overflows. *)
Definition mul3NonNeg (x y z : Z) : Z :=
  if (x <? 0) || (y <? 0) || (z <? 0) then -1
  else if 2 ^ 64 <=? x * y then -1
  else if 2 ^ 64 <=? x * y * z then -1
  else if 2 ^ 63 <=? x * y * z then -1
  else x * y * z.

(** [image.NewNRGBA(r)]: panics on a rectangle of huge or negative
    dimensions. *)
Definition NewNRGBA (r : Rectangle.t) : result NRGBA.t :=
  let totalLength := mul3NonNeg 4 (Rectangle.Dx r) (Rectangle.Dy r) in
  if totalLength <? 0 then Panic
  else
    pix ← make x00 totalLength;
    Ok {| NRGBA.Pix := pix; NRGBA.Stride := 4 [*] Rectangle.Dx r; NRGBA.Rect := r |}.

(** ** The scanner and the row executor *)

(** Modelled from the spec: the pixel scanner ([newScanner], [scan]) is not
    in [tools.go].  Per section 4.1 it binds a source image to its width
    and height and fills a caller-provided byte range (of length
    [(x1-x0)*4]) with the straight RGBA8 pixels of row [y0] restricted to
    the columns [[x0,x1)], converting each source pixel on read; only
    single-row reads are used.  Coordinates are relative to the image's
    top-left corner, as [tools.go] passes them.  The spec defines the read
    for row segments of the image only: a request outside
    [[0,w] x [0,h)], or into a range of another length, has no result
    here. *)
Record scanner : Type := { image : Image.t; w : Z; h : Z }.

Definition newScanner (img : Image.t) : scanner :=
  {| image := img;
     w := Rectangle.Dx (Image.Bounds img);
     h := Rectangle.Dy (Image.Bounds img) |}.

(** The pixel data of row [y], columns [[x1,x2)]. *)
Definition scan_row (s : scanner) (x1 y x2 : Z) : list byte :=
  let b := Image.Bounds (image s) in
  x ← seqZ x1 (x2 - x1);
  color.bytes
    (Image.At (image s) (Point.X (Rectangle.Min b) + x) (Point.Y (Rectangle.Min b) + y)).

(** [s.scan(x1, y1, x2, y2, buf[lo:hi])]; the result is [buf] afterwards. *)
Definition scan (s : scanner) (x1 y1 x2 y2 : Z) (buf : list byte) (lo hi : Z)
  : result (list byte) :=
  if negb (slice_ok buf lo hi) then Panic
  else if (0 <=? x1) && (x1 <=? x2) && (x2 <=? w s)
          && (0 <=? y1) && (y1 <? h s) && (y2 =? y1 + 1)
          && (hi - lo =? (x2 - x1) * 4)
  then Ok (list_inserts (Z.to_nat lo) (scan_row s x1 y1 x2) buf)
  else Panic.

(** Modelled from the spec: the row executor ([parallel]) is not in
    [tools.go].  Per section 4.2 every integer of [[start, stop)] is
    delivered to exactly one callback invocation, a worker processes its
    rows in increasing order, the worker count has a floor of 1, the call
    returns when all rows are done, and nothing is dispatched when
    [stop <= start].  The model runs the schedule with one worker: the
    callback receives all rows, in increasing order. *)
Definition parallel {S : Type} (start stop : Z) (fn : list Z -> S -> result S) (s : S)
  : result S :=
  if stop <=? start then Ok s else fn (seqZ start (stop - start)) s.

(** ** tools.go *)

(** [a < b] on [uint8]. *)
Definition uint8_lt (a b : byte) : bool := (Byte.to_N a <? Byte.to_N b)%N.

Section Tools.
Variable P : Platform.

(** [int(math.Min(float64(a), float64(b)))] and its [Max] twin
    (lines 37-40). *)
Definition int_Min (a b : Z) : Z :=
  Float64.to_int P (math.Min (Float64.of_int a) (Float64.of_int b)).
Definition int_Max (a b : Z) : Z :=
  Float64.to_int P (math.Max (Float64.of_int a) (Float64.of_int b)).

(** The body of the pixel loop of [OpaqueBounds] (lines 23-43); the state
    is [(i, out, first)]. *)
Definition OpaqueBounds_pixel (threshold : byte) (pix : list byte) (y x : Z)
    (st : Z * Rectangle.t * bool) : result (Z * Rectangle.t * bool) :=
  let '(i, out, first) := st in
  a ← index pix (i [+] 3);
  let i := i [+] 4 in
  let '(out, first) :=
    if uint8_lt threshold a then
      if first then ({| Rectangle.Min := Pt x y; Rectangle.Max := Pt x y |}, false)
      else (out, first)
    else (out, first) in
  let out :=
    if uint8_lt threshold a then
      if negb first then
        {| Rectangle.Min :=
             Pt (int_Min x (Point.X (Rectangle.Min out)))
                (int_Min y (Point.Y (Rectangle.Min out)));
           Rectangle.Max :=
             Pt (int_Max x (Point.X (Rectangle.Max out)))
                (int_Max y (Point.Y (Rectangle.Max out))) |}
      else out
    else out in
  Ok (i, out, first).

(** The body of the row loop of [OpaqueBounds] (lines 20-44); the state
    is [(dst.Pix, out, first)]. *)
Definition OpaqueBounds_row (src : scanner) (dst : NRGBA.t) (threshold : byte) (y : Z)
    (st : list byte * Rectangle.t * bool) : result (list byte * Rectangle.t * bool) :=
  let '(pix, out, first) := st in
  let i := y [*] NRGBA.Stride dst in
  pix ← scan src 0 y (w src) (y [+] 1) pix i (i [+] w src [*] 4);
  '(_, out, first) ← for_range 0 (w src) (OpaqueBounds_pixel threshold pix y) (i, out, first);
  Ok (pix, out, first).

Definition OpaqueBounds (img : Image.t) (threshold : byte) : result Rectangle.t :=
  let src := newScanner img in
  let out := Rectangle.ZR in
  let first := true in
  dst ← NewNRGBA (Rect 0 0 (w src) (h src));
  '(_, out, _) ←
    parallel 0 (h src)
      (fun ys => for_each ys (OpaqueBounds_row src dst threshold))
      (NRGBA.Pix dst, out, first);
  Ok out.

(** The row a sample [k] of [OpaquePolygon] reads (line 65). *)
Definition OpaquePolygon_y (bounds : Rectangle.t) (yStep : float) (k : Z) : Z :=
  Float64.to_int P
    (math.Floor (Float64.of_int (Point.Y (Rectangle.Min bounds))
                 + Float64.of_int k * yStep)%float).

(** [yStep] (line 60). *)
Definition OpaquePolygon_yStep (bounds : Rectangle.t) (n : Z) : float :=
  (Float64.of_int (Rectangle.Dy bounds [-] 1) / Float64.of_int (n [-] 1))%float.

(** An assignment to both fields of [s[lo:hi][k]], for [s[lo:hi]] a slice
    of [out]: the index is checked against the length [hi - lo]. *)
Definition store_in {A} (out : list A) (lo hi k : Z) (a : A) : result (list A) :=
  if (0 <=? k) && (k <? hi - lo) then store out (lo + k) a else Panic.

(** The body of the pixel loop of [OpaquePolygon] (lines 70-82); the
    state is [(i, out, foundLeft)]. *)
Definition OpaquePolygon_pixel (threshold : byte) (pix : list byte) (n k y x : Z)
    (st : Z * list Point.t * bool) : result (Z * list Point.t * bool) :=
  let '(i, out, foundLeft) := st in
  let i := i [+] 4 in
  a ← index pix (i [+] 3);
  if negb (uint8_lt threshold a) then Ok (i, out, foundLeft)
  else
    out ← store_in out n (2 [*] n) k (Pt x y);
    if foundLeft then Ok (i, out, foundLeft)
    else
      let foundLeft := true in
      out ← store_in out 0 n (n [-] 1 [-] k) (Pt x y);
      Ok (i, out, foundLeft).

(** The body of the sample loop of [OpaquePolygon] (lines 65-83); the
    state is [(dst.Pix, out)]. *)
Definition OpaquePolygon_row (src : scanner) (bounds : Rectangle.t) (threshold : byte)
    (n : Z) (yStep : float) (w : Z) (k : Z)
    (st : list byte * list Point.t) : result (list byte * list Point.t) :=
  let '(pix, out) := st in
  let y := OpaquePolygon_y bounds yStep k in
  let i := (y [-] Point.Y (Rectangle.Min bounds)) [*] 4 [*] w in
  pix ← scan src (Point.X (Rectangle.Min bounds)) y (Point.X (Rectangle.Max bounds))
          (y [+] 1) pix i (i [+] w [*] 4);
  let foundLeft := false in
  '(_, out, _) ←
    for_range (Point.X (Rectangle.Min bounds)) (Point.X (Rectangle.Max bounds))
      (OpaquePolygon_pixel threshold pix n k y) (i, out, foundLeft);
  Ok (pix, out).

Definition OpaquePolygon (img : Image.t) (n : Z) (threshold : byte)
  : result (list Point.t) :=
  bounds ← OpaqueBounds img threshold;
  let src := newScanner img in
  dst ← NewNRGBA (Rect 0 0 (w src) (h src));
  out ← make (Pt 0 0) (2 [*] n);
  if negb (slice_ok out 0 n) then Panic
  else if negb (slice_ok out n (2 [*] n)) then Panic
  else
    let yStep := OpaquePolygon_yStep bounds n in
    let w := Rectangle.Dx bounds in
    '(_, out) ←
      parallel 0 n
        (fun ks => for_each ks (OpaquePolygon_row src bounds threshold n yStep w))
        (NRGBA.Pix dst, out);
    Ok out.
End Tools.

(** The body of the pixel loop of [OpaqueArea] (lines 103-106); the state
    is [(i, numPixelsOpaque)]. *)
Definition OpaqueArea_pixel (threshold : byte) (pix : list byte) (x : Z)
    (st : Z * Z) : result (Z * Z) :=
  let '(i, numPixelsOpaque) := st in
  let i := i [+] 4 in
  a ← index pix (i [+] 3);
  if uint8_lt threshold a then Ok (i, numPixelsOpaque [+] 1)
  else Ok (i, numPixelsOpaque).

(** The body of the row loop of [OpaqueArea] (lines 100-107); the state is
    [(dst.Pix, numPixelsOpaque)]. *)
Definition OpaqueArea_row (src : scanner) (threshold : byte) (y : Z)
    (st : list byte * Z) : result (list byte * Z) :=
  let '(pix, numPixelsOpaque) := st in
  let i := y [*] 4 in
  pix ← scan src 0 y (w src) (y [+] 1) pix i (i [+] w src [*] 4);
  '(_, numPixelsOpaque) ←
    for_range 0 (w src) (OpaqueArea_pixel threshold pix) (i, numPixelsOpaque);
  Ok (pix, numPixelsOpaque).

Definition OpaqueArea (img : Image.t) (threshold : byte) : result Z :=
  let src := newScanner img in
  dst ← NewNRGBA (Rect 0 0 (w src) (h src));
  let numPixelsOpaque := 0 in
  '(_, numPixelsOpaque) ←
    parallel 0 (h src)
      (fun ys => for_each ys (OpaqueArea_row src threshold))
      (NRGBA.Pix dst, numPixelsOpaque);
  Ok numPixelsOpaque.

(** The body of the row loop of [Clone] (lines 138-139). *)
Definition Clone_row (src : scanner) (dst : NRGBA.t) (size : Z) (y : Z) (pix : list byte)
  : result (list byte) :=
  let i := y [*] NRGBA.Stride dst in
  scan src 0 y (w src) (y [+] 1) pix i (i [+] size).

Definition Clone (img : Image.t) : result NRGBA.t :=
  let src := newScanner img in
  dst ← NewNRGBA (Rect 0 0 (w src) (h src));
  let size := w src [*] 4 in
  pix ← parallel 0 (h src) (fun ys => for_each ys (Clone_row src dst size)) (NRGBA.Pix dst);
  Ok {| NRGBA.Pix := pix; NRGBA.Stride := NRGBA.Stride dst; NRGBA.Rect := NRGBA.Rect dst |}.

(** The body of the row loop of [Crop] (lines 211-212). *)
Definition Crop_row (src : scanner) (dst : NRGBA.t) (r : Rectangle.t) (rowSize : Z) (y : Z)
    (pix : list byte) : result (list byte) :=
  let i := (y [-] Point.Y (Rectangle.Min r)) [*] NRGBA.Stride dst in
  scan src (Point.X (Rectangle.Min r)) y (Point.X (Rectangle.Max r)) (y [+] 1)
    pix i (i [+] rowSize).

Definition Crop (img : Image.t) (rect : Rectangle.t) : result NRGBA.t :=
  let r := Rectangle.Sub (Rectangle.Intersect rect (Image.Bounds img))
             (Rectangle.Min (Image.Bounds img)) in
  if Rectangle.Empty r then Ok NRGBA.empty
  else
    let src := newScanner img in
    dst ← NewNRGBA (Rect 0 0 (Rectangle.Dx r) (Rectangle.Dy r));
    let rowSize := Rectangle.Dx r [*] 4 in
    pix ← parallel (Point.Y (Rectangle.Min r)) (Point.Y (Rectangle.Max r))
            (fun ys => for_each ys (Crop_row src dst r rowSize)) (NRGBA.Pix dst);
    Ok {| NRGBA.Pix := pix; NRGBA.Stride := NRGBA.Stride dst; NRGBA.Rect := NRGBA.Rect dst |}.

(** The body of the row loop of [Paste] (lines 246-252). *)
Definition Paste_row (src : scanner) (dst : NRGBA.t) (pasteRect interRect : Rectangle.t)
    (y : Z) (pix : list byte) : result (list byte) :=
  let x1 := Point.X (Rectangle.Min interRect) [-] Point.X (Rectangle.Min pasteRect) in
  let x2 := Point.X (Rectangle.Max interRect) [-] Point.X (Rectangle.Min pasteRect) in
  let y1 := y [-] Point.Y (Rectangle.Min pasteRect) in
  let y2 := y1 [+] 1 in
  let i1 := y [*] NRGBA.Stride dst [+] Point.X (Rectangle.Min interRect) [*] 4 in
  let i2 := i1 [+] Rectangle.Dx interRect [*] 4 in
  scan src x1 y1 x2 y2 pix i1 i2.

Definition Paste (background img : Image.t) (pos : Point.t) : result NRGBA.t :=
  dst ← Clone background;
  let pos := Point.Sub pos (Rectangle.Min (Image.Bounds background)) in
  let pasteRect :=
    {| Rectangle.Min := pos;
       Rectangle.Max := Point.Add pos (Rectangle.Size (Image.Bounds img)) |} in
  let interRect := Rectangle.Intersect pasteRect (NRGBA.Bounds dst) in
  if Rectangle.Empty interRect then Ok dst
  else
    let src := newScanner img in
    pix ← parallel (Point.Y (Rectangle.Min interRect)) (Point.Y (Rectangle.Max interRect))
            (fun ys => for_each ys (Paste_row src dst pasteRect interRect)) (NRGBA.Pix dst);
    Ok {| NRGBA.Pix := pix; NRGBA.Stride := NRGBA.Stride dst; NRGBA.Rect := NRGBA.Rect dst |}.

(** [OverlayOp] (line 392). *)
Definition OverlayOp : Type :=
  float -> float -> float -> float -> float -> float -> float -> float
  -> float * float * float * float.

Section Ops.
Local Open Scope float_scope.

Definition OpBlend (opacity : float) : OverlayOp :=
  fun r1 g1 b1 a1 r2 g2 b2 a2 =>
    let coef2 := opacity * a2 / 255 in
    let coef1 := (1 - coef2) * a1 / 255 in
    let coefSum := coef1 + coef2 in
    let coef1 := coef1 / coefSum in
    let coef2 := coef2 / coefSum in
    let r := r1 * coef1 + r2 * coef2 in
    let g := g1 * coef1 + g2 * coef2 in
    let b := b1 * coef1 + b2 * coef2 in
    let a := math.Min (a1 + a2 * opacity * (255 - a1) / 255) 255 in
    (r, g, b, a).

Definition OpReplace : OverlayOp :=
  fun r1 g1 b1 a1 r2 g2 b2 a2 => (r2, g2, b2, a2).

Definition OpReplaceAlpha : OverlayOp :=
  fun r1 g1 b1 a1 r2 g2 b2 a2 => (r1, g1, b1, a2).

Definition OpMinAlpha : OverlayOp :=
  fun r1 g1 b1 a1 r2 g2 b2 a2 =>
    let r := r1 in
    let g := g1 in
    let b := b1 in
    let a := math.Min a1 a2 in
    (r, g, b, a).

Definition OpMaxAlpha : OverlayOp :=
  fun r1 g1 b1 a1 r2 g2 b2 a2 =>
    let r := 255.0 in
    let g := 255.0 in
    let b := 255.0 in
    let a := math.Max a1 a2 in
    (r, g, b, a).

Definition OpIgnore : OverlayOp :=
  fun r1 g1 b1 a1 r2 g2 b2 a2 => (r1, g1, b1, a1).
End Ops.

Section Overlay.
Variable P : Platform.

(** The body of the pixel loop of [OverlayWithOp] (lines 507-524); the
    state is [(dst.Pix, i, j)]. *)
Definition OverlayWithOp_pixel (op : OverlayOp) (scanLine : list byte) (x : Z)
    (st : list byte * Z * Z) : result (list byte * Z * Z) :=
  let '(pix, i, j) := st in
  r1 ← index pix (i [+] 0);
  g1 ← index pix (i [+] 1);
  b1 ← index pix (i [+] 2);
  a1 ← index pix (i [+] 3);
  r2 ← index scanLine (j [+] 0);
  g2 ← index scanLine (j [+] 1);
  b2 ← index scanLine (j [+] 2);
  a2 ← index scanLine (j [+] 3);
  let '(r, g, b, a) :=
    op (Float64.of_uint8 r1) (Float64.of_uint8 g1) (Float64.of_uint8 b1) (Float64.of_uint8 a1)
       (Float64.of_uint8 r2) (Float64.of_uint8 g2) (Float64.of_uint8 b2) (Float64.of_uint8 a2) in
  pix ← store pix (i [+] 0) (Float64.to_uint8 P r);
  pix ← store pix (i [+] 1) (Float64.to_uint8 P g);
  pix ← store pix (i [+] 2) (Float64.to_uint8 P b);
  pix ← store pix (i [+] 3) (Float64.to_uint8 P a);
  Ok (pix, i [+] 4, j [+] 4).

(** The body of the row loop of [OverlayWithOp] (lines 499-525); the
    state is [(dst.Pix, scanLine)]. *)
Definition OverlayWithOp_row (op : OverlayOp) (src : scanner) (dst : NRGBA.t)
    (pasteRect interRect : Rectangle.t) (y : Z)
    (st : list byte * list byte) : result (list byte * list byte) :=
  let '(pix, scanLine) := st in
  let x1 := Point.X (Rectangle.Min interRect) [-] Point.X (Rectangle.Min pasteRect) in
  let x2 := Point.X (Rectangle.Max interRect) [-] Point.X (Rectangle.Min pasteRect) in
  let y1 := y [-] Point.Y (Rectangle.Min pasteRect) in
  let y2 := y1 [+] 1 in
  scanLine ← scan src x1 y1 x2 y2 scanLine 0 (Z.of_nat (length scanLine));
  let i := y [*] NRGBA.Stride dst [+] Point.X (Rectangle.Min interRect) [*] 4 in
  let j := 0 in
  '(pix, _, _) ←
    for_range (Point.X (Rectangle.Min interRect)) (Point.X (Rectangle.Max interRect))
      (OverlayWithOp_pixel op scanLine) (pix, i, j);
  Ok (pix, scanLine).

(** The worker of [OverlayWithOp] (lines 495-527): [scanLine] is made once
    and reused by every row. *)
Definition OverlayWithOp_worker (op : OverlayOp) (src : scanner) (dst : NRGBA.t)
    (pasteRect interRect : Rectangle.t) (ys : list Z) (pix : list byte)
  : result (list byte) :=
  scanLine ← make x00 (Rectangle.Dx interRect [*] 4);
  '(pix, _) ← for_each ys (OverlayWithOp_row op src dst pasteRect interRect) (pix, scanLine);
  Ok pix.

Definition OverlayWithOp (background img : Image.t) (pos : Point.t) (op : OverlayOp)
  : result NRGBA.t :=
  dst ← Clone background;
  let pos := Point.Sub pos (Rectangle.Min (Image.Bounds background)) in
  let pasteRect :=
    {| Rectangle.Min := pos;
       Rectangle.Max := Point.Add pos (Rectangle.Size (Image.Bounds img)) |} in
  let interRect := Rectangle.Intersect pasteRect (NRGBA.Bounds dst) in
  if Rectangle.Empty interRect then Ok dst
  else
    let src := newScanner img in
    pix ← parallel (Point.Y (Rectangle.Min interRect)) (Point.Y (Rectangle.Max interRect))
            (OverlayWithOp_worker op src dst pasteRect interRect) (NRGBA.Pix dst);
    Ok {| NRGBA.Pix := pix; NRGBA.Stride := NRGBA.Stride dst; NRGBA.Rect := NRGBA.Rect dst |}.

(** The body of the pixel loop of [Overlay] (lines 363-385); the state is
    [(dst.Pix, i, j)]. *)
Definition Overlay_pixel (opacity : float) (scanLine : list byte) (x : Z)
    (st : list byte * Z * Z) : result (list byte * Z * Z) :=
  let '(pix, i, j) := st in
  r1 ← index pix (i [+] 0);
  g1 ← index pix (i [+] 1);
  b1 ← index pix (i [+] 2);
  a1 ← index pix (i [+] 3);
  r2 ← index scanLine (j [+] 0);
  g2 ← index scanLine (j [+] 1);
  b2 ← index scanLine (j [+] 2);
  a2 ← index scanLine (j [+] 3);
  let r1 := Float64.of_uint8 r1 in
  let g1 := Float64.of_uint8 g1 in
  let b1 := Float64.of_uint8 b1 in
  let a1 := Float64.of_uint8 a1 in
  let r2 := Float64.of_uint8 r2 in
  let g2 := Float64.of_uint8 g2 in
  let b2 := Float64.of_uint8 b2 in
  let a2 := Float64.of_uint8 a2 in
  let coef2 := (opacity * a2 / 255)%float in
  let coef1 := ((1 - coef2) * a1 / 255)%float in
  let coefSum := (coef1 + coef2)%float in
  let coef1 := (coef1 / coefSum)%float in
  let coef2 := (coef2 / coefSum)%float in
  pix ← store pix (i [+] 0) (Float64.to_uint8 P (r1 * coef1 + r2 * coef2)%float);
  pix ← store pix (i [+] 1) (Float64.to_uint8 P (g1 * coef1 + g2 * coef2)%float);
  pix ← store pix (i [+] 2) (Float64.to_uint8 P (b1 * coef1 + b2 * coef2)%float);
  pix ← store pix (i [+] 3)
          (Float64.to_uint8 P
             (math.Min (a1 + a2 * opacity * (255 - a1) / 255)%float 255%float));
  Ok (pix, i [+] 4, j [+] 4).

(** The body of the row loop of [Overlay] (lines 355-386); the state is
    [(dst.Pix, scanLine)]. *)
Definition Overlay_row (opacity : float) (src : scanner) (dst : NRGBA.t)
    (pasteRect interRect : Rectangle.t) (y : Z)
    (st : list byte * list byte) : result (list byte * list byte) :=
  let '(pix, scanLine) := st in
  let x1 := Point.X (Rectangle.Min interRect) [-] Point.X (Rectangle.Min pasteRect) in
  let x2 := Point.X (Rectangle.Max interRect) [-] Point.X (Rectangle.Min pasteRect) in
  let y1 := y [-] Point.Y (Rectangle.Min pasteRect) in
  let y2 := y1 [+] 1 in
  scanLine ← scan src x1 y1 x2 y2 scanLine 0 (Z.of_nat (length scanLine));
  let i := y [*] NRGBA.Stride dst [+] Point.X (Rectangle.Min interRect) [*] 4 in
  let j := 0 in
  '(pix, _, _) ←
    for_range (Point.X (Rectangle.Min interRect)) (Point.X (Rectangle.Max interRect))
      (Overlay_pixel opacity scanLine) (pix, i, j);
  Ok (pix, scanLine).

(** The worker of [Overlay] (lines 352-388). *)
Definition Overlay_worker (opacity : float) (src : scanner) (dst : NRGBA.t)
    (pasteRect interRect : Rectangle.t) (ys : list Z) (pix : list byte)
  : result (list byte) :=
  scanLine ← make x00 (Rectangle.Dx interRect [*] 4);
  '(pix, _) ← for_each ys (Overlay_row opacity src dst pasteRect interRect) (pix, scanLine);
  Ok pix.

Definition Overlay (background img : Image.t) (pos : Point.t) (opacity : float)
  : result NRGBA.t :=
  let opacity := math.Min (math.Max opacity 0) 1 in
  dst ← Clone background;
  let pos := Point.Sub pos (Rectangle.Min (Image.Bounds background)) in
  let pasteRect :=
    {| Rectangle.Min := pos;
       Rectangle.Max := Point.Add pos (Rectangle.Size (Image.Bounds img)) |} in
  let interRect := Rectangle.Intersect pasteRect (NRGBA.Bounds dst) in
  if Rectangle.Empty interRect then Ok dst
  else
    let src := newScanner img in
    pix ← parallel (Point.Y (Rectangle.Min interRect)) (Point.Y (Rectangle.Max interRect))
            (Overlay_worker opacity src dst pasteRect interRect) (NRGBA.Pix dst);
    Ok {| NRGBA.Pix := pix; NRGBA.Stride := NRGBA.Stride dst; NRGBA.Rect := NRGBA.Rect dst |}.
End Overlay.

(** ** tools.go: the rest of the package *)

(** Go's [/] on [int]: the quotient truncated towards zero ([tools.go]
    divides by the constant 2 only). *)
Definition int_quot (a b : Z) : Z := Int.wrap (Z.quot a b).

(** [r.Add(p)] of [image.Rectangle]. *)
Definition Rectangle_Add (r : Rectangle.t) (p : Point.t) : Rectangle.t :=
  {| Rectangle.Min := Pt (Point.X (Rectangle.Min r) [+] Point.X p)
                         (Point.Y (Rectangle.Min r) [+] Point.Y p);
     Rectangle.Max := Pt (Point.X (Rectangle.Max r) [+] Point.X p)
                         (Point.Y (Rectangle.Max r) [+] Point.Y p) |}.

(** [type Anchor int] and its constants (lines 146-160). *)
Definition Anchor : Type := Z.
Definition Center : Anchor := 0.
Definition TopLeft : Anchor := 1.
Definition Top : Anchor := 2.
Definition TopRight : Anchor := 3.
Definition Left : Anchor := 4.
Definition Right : Anchor := 5.
Definition BottomLeft : Anchor := 6.
Definition Bottom : Anchor := 7.
Definition BottomRight : Anchor := 8.

(** [anchorPt] (lines 166-197); every value of [Anchor] that is not one of
    the eight named cases takes the [default] branch, as [Center] does. *)
Definition anchorPt (b : Rectangle.t) (w h : Z) (anchor : Anchor) : Point.t :=
  let minx := Point.X (Rectangle.Min b) in
  let miny := Point.Y (Rectangle.Min b) in
  let maxx := Point.X (Rectangle.Max b) in
  let maxy := Point.Y (Rectangle.Max b) in
  let midx := minx [+] int_quot (Rectangle.Dx b [-] w) 2 in
  let midy := miny [+] int_quot (Rectangle.Dy b [-] h) 2 in
  let '(x, y) :=
    if anchor =? TopLeft then (minx, miny)
    else if anchor =? Top then (midx, miny)
    else if anchor =? TopRight then (maxx [-] w, miny)
    else if anchor =? Left then (minx, midy)
    else if anchor =? Right then (maxx [-] w, midy)
    else if anchor =? BottomLeft then (minx, maxy [-] h)
    else if anchor =? Bottom then (midx, maxy [-] h)
    else if anchor =? BottomRight then (maxx [-] w, maxy [-] h)
    else (midx, midy) in
  Pt x y.

Definition AnchorPoint (i : Image.t) (anchor : Anchor) : Point.t :=
  anchorPt (Image.Bounds i) 0 0 anchor.

Definition CropAnchor (img : Image.t) (width height : Z) (anchor : Anchor)
  : result NRGBA.t :=
  let srcBounds := Image.Bounds img in
  let pt := anchorPt srcBounds width height anchor in
  let r := Rectangle_Add (Rect 0 0 width height) pt in
  let b := Rectangle.Intersect srcBounds r in
  Crop img b.

Definition CropCenter (img : Image.t) (width height : Z) : result NRGBA.t :=
  CropAnchor img width height Center.

Definition PasteCenter (background img : Image.t) : result NRGBA.t :=
  let bgBounds := Image.Bounds background in
  let bgW := Rectangle.Dx bgBounds in
  let bgH := Rectangle.Dy bgBounds in
  let bgMinX := Point.X (Rectangle.Min bgBounds) in
  let bgMinY := Point.Y (Rectangle.Min bgBounds) in
  let centerX := bgMinX [+] int_quot bgW 2 in
  let centerY := bgMinY [+] int_quot bgH 2 in
  let x0 := centerX [-] int_quot (Rectangle.Dx (Image.Bounds img)) 2 in
  let y0 := centerY [-] int_quot (Rectangle.Dy (Image.Bounds img)) 2 in
  Paste background img (Pt x0 y0).

Definition OverlayCenter (P : Platform) (background img : Image.t) (opacity : float)
  : result NRGBA.t :=
  let bgBounds := Image.Bounds background in
  let bgW := Rectangle.Dx bgBounds in
  let bgH := Rectangle.Dy bgBounds in
  let bgMinX := Point.X (Rectangle.Min bgBounds) in
  let bgMinY := Point.Y (Rectangle.Min bgBounds) in
  let centerX := bgMinX [+] int_quot bgW 2 in
  let centerY := bgMinY [+] int_quot bgH 2 in
  let x0 := centerX [-] int_quot (Rectangle.Dx (Image.Bounds img)) 2 in
  let y0 := centerY [-] int_quot (Rectangle.Dy (Image.Bounds img)) 2 in
  Overlay P background img {| Point.X := x0; Point.Y := y0 |} opacity.

(** [bytes.Repeat(b, count)]: panics on a negative count and when the
    length of the result is not a value of [int]. *)
Definition Repeat (b : list byte) (count : Z) : result (list byte) :=
  if count <? 0 then Panic
  else if Int.max_int <? Z.of_nat (length b) * count then Panic
  else Ok (mjoin (replicate (Z.to_nat count) b)).

(** [c == d] on [color.NRGBA]. *)
Definition color_eqb (c d : color.NRGBA) : bool :=
  Byte.eqb (color.R c) (color.R d) && Byte.eqb (color.G c) (color.G d)
  && Byte.eqb (color.B c) (color.B d) && Byte.eqb (color.A c) (color.A d).

(** [New] (lines 114-129); [fillColor] is the colour after
    [color.NRGBAModel.Convert]. *)
Definition New (width height : Z) (fillColor : color.NRGBA) : result NRGBA.t :=
  if (width <=? 0) || (height <=? 0) then Ok NRGBA.empty
  else
    let c := fillColor in
    if color_eqb c color.zero then NewNRGBA (Rect 0 0 width height)
    else
      pix ← Repeat [color.R c; color.G c; color.B c; color.A c] (width [*] height);
      Ok {| NRGBA.Pix := pix; NRGBA.Stride := 4 [*] width;
            NRGBA.Rect := Rect 0 0 width height |}.

(** The body of the pixel loop of [OverlayOnCanvas] (lines 281-306); the
    state is [(dst.Pix, i, j)]. *)
Definition OverlayOnCanvas_pixel (P : Platform) (scanLine : list byte) (x : Z)
    (st : list byte * Z * Z) : result (list byte * Z * Z) :=
  let '(pix, i, j) := st in
  r1 ← index pix (i [+] 0);
  g1 ← index pix (i [+] 1);
  b1 ← index pix (i [+] 2);
  a1 ← index pix (i [+] 3);
  r2 ← index scanLine (j [+] 0);
  g2 ← index scanLine (j [+] 1);
  b2 ← index scanLine (j [+] 2);
  a2 ← index scanLine (j [+] 3);
  let r1 := Float64.of_uint8 r1 in
  let g1 := Float64.of_uint8 g1 in
  let b1 := Float64.of_uint8 b1 in
  let a1 := Float64.of_uint8 a1 in
  let r2 := Float64.of_uint8 r2 in
  let g2 := Float64.of_uint8 g2 in
  let b2 := Float64.of_uint8 b2 in
  let a2 := Float64.of_uint8 a2 in
  let coef2 := (a2 / 255)%float in
  let coef1 := ((1 - coef2) * a1 / 255)%float in
  let coefSum := (coef1 + coef2)%float in
  let coef1 := (coef1 / coefSum)%float in
  let coef2 := (coef2 / coefSum)%float in
  pix ← store pix (i [+] 0) (Float64.to_uint8 P (r1 * coef1 + r2 * coef2)%float);
  pix ← store pix (i [+] 1) (Float64.to_uint8 P (g1 * coef1 + g2 * coef2)%float);
  pix ← store pix (i [+] 2) (Float64.to_uint8 P (b1 * coef1 + b2 * coef2)%float);
  pix ← store pix (i [+] 3)
          (Float64.to_uint8 P (math.Min (a1 + a2 * (255 - a1) / 255)%float 255%float));
  Ok (pix, i [+] 4, j [+] 4).

(** The body of the row loop of [OverlayOnCanvas] (lines 273-307); the
    state is [(dst.Pix, scanLine)]. *)
Definition OverlayOnCanvas_row (P : Platform) (src : scanner) (dst : NRGBA.t)
    (pasteRect interRect : Rectangle.t) (y : Z)
    (st : list byte * list byte) : result (list byte * list byte) :=
  let '(pix, scanLine) := st in
  let x1 := Point.X (Rectangle.Min interRect) [-] Point.X (Rectangle.Min pasteRect) in
  let x2 := Point.X (Rectangle.Max interRect) [-] Point.X (Rectangle.Min pasteRect) in
  let y1 := y [-] Point.Y (Rectangle.Min pasteRect) in
  let y2 := y1 [+] 1 in
  scanLine ← scan src x1 y1 x2 y2 scanLine 0 (Z.of_nat (length scanLine));
  let i := y [*] NRGBA.Stride dst [+] Point.X (Rectangle.Min interRect) [*] 4 in
  let j := 0 in
  '(pix, _, _) ←
    for_range (Point.X (Rectangle.Min interRect)) (Point.X (Rectangle.Max interRect))
      (OverlayOnCanvas_pixel P scanLine) (pix, i, j);
  Ok (pix, scanLine).

(** The worker of [OverlayOnCanvas] (lines 271-309). *)
Definition OverlayOnCanvas_worker (P : Platform) (src : scanner) (dst : NRGBA.t)
    (pasteRect interRect : Rectangle.t) (ys : list Z) (pix : list byte)
  : result (list byte) :=
  scanLine ← make x00 (Rectangle.Dx interRect [*] 4);
  '(pix, _) ← for_each ys (OverlayOnCanvas_row P src dst pasteRect interRect) (pix, scanLine);
  Ok pix.

(** One round of the loop over the images of [OverlayOnCanvas] (lines
    263-309); the state is [dst]. *)
Definition OverlayOnCanvas_image (P : Platform) (entry : Image.t * Point.t) (dst : NRGBA.t)
  : result NRGBA.t :=
  let img := entry.1 in
  let pos := Point.Sub entry.2 (Rectangle.Min (NRGBA.Bounds dst)) in
  let pasteRect :=
    {| Rectangle.Min := pos;
       Rectangle.Max := Point.Add pos (Rectangle.Size (Image.Bounds img)) |} in
  let interRect := Rectangle.Intersect pasteRect (NRGBA.Bounds dst) in
  if Rectangle.Empty interRect then Ok dst
  else
    let src := newScanner img in
    pix ← parallel (Point.Y (Rectangle.Min interRect)) (Point.Y (Rectangle.Max interRect))
            (OverlayOnCanvas_worker P src dst pasteRect interRect) (NRGBA.Pix dst);
    Ok {| NRGBA.Pix := pix; NRGBA.Stride := NRGBA.Stride dst; NRGBA.Rect := NRGBA.Rect dst |}.

(** [for imgIndex := range images { body }], threading [dst]. *)
Fixpoint for_images (images : list (Image.t * Point.t))
    (body : Image.t * Point.t -> NRGBA.t -> result NRGBA.t) (dst : NRGBA.t)
  : result NRGBA.t :=
  match images with
  | [] => Ok dst
  | entry :: images' => dst' ← body entry dst; for_images images' body dst'
  end.

Definition OverlayOnCanvas (P : Platform) (w h : Z) (bgColor : color.NRGBA)
    (images : list (Image.t * Point.t)) : result NRGBA.t :=
  dst ← New w h bgColor;
  for_images images (OverlayOnCanvas_image P) dst.

Definition OpPlus : OverlayOp :=
  fun r1 g1 b1 a1 r2 g2 b2 a2 =>
    let r := math.Min (r1 + r2)%float 255%float in
    let g := math.Min (g1 + g2)%float 255%float in
    let b := math.Min (b1 + b2)%float 255%float in
    let a := math.Min (a1 + a2 * ((255 - a1) / 255))%float 255%float in
    (r, g, b, a).

Definition OpMax : OverlayOp :=
  fun r1 g1 b1 a1 r2 g2 b2 a2 =>
    let r := math.Max r1 r2 in
    let g := math.Max g1 g2 in
    let b := math.Max b1 b2 in
    let a := math.Min (a1 + a2 * ((255 - a1) / 255))%float 255%float in
    (r, g, b, a).

Definition OpLighten : OverlayOp :=
  fun r1 g1 b1 a1 r2 g2 b2 a2 =>
    let max := math.Max r1 (math.Max g1 b1) in
    let min := math.Min r1 (math.Min g1 b1) in
    let l1 := ((max + min) / 2)%float in
    let max := math.Max r2 (math.Max g2 b2) in
    let min := math.Min r2 (math.Min g2 b2) in
    let l2 := ((max + min) / 2)%float in
    let '(r, g, b) := if (l2 <? l1)%float then (r1, g1, b1) else (r2, g2, b2) in
    let a := math.Min (a1 + a2 * ((255 - a1) / 255))%float 255%float in
    (r, g, b, a).

(** * The vocabulary of the statements *)

Definition width (img : Image.t) : Z :=
  Point.X (Rectangle.Max (Image.Bounds img)) - Point.X (Rectangle.Min (Image.Bounds img)).
Definition height (img : Image.t) : Z :=
  Point.Y (Rectangle.Max (Image.Bounds img)) - Point.Y (Rectangle.Min (Image.Bounds img)).

(** The bounds are a well-formed rectangle and the stride [4*width] and
    the buffer length [4*width*height] are values of [int]. *)
Record wf_image (img : Image.t) : Prop := {
  wf_width : 0 <= width img;
  wf_height : 0 <= height img <= Int.max_int;
  wf_stride : 4 * width img <= Int.max_int;
  wf_length : 4 * width img * height img <= Int.max_int
}.

(** The canonical buffer of a [wd] by [ht] image with pixel bytes [pix]. *)
Definition buffer (wd ht : Z) (pix : list byte) : NRGBA.t :=
  {| NRGBA.Pix := pix; NRGBA.Stride := 4 * wd;
     NRGBA.Rect := {| Rectangle.Min := Pt 0 0; Rectangle.Max := Pt wd ht |} |}.

(** The pixel bytes of the part [r] of an image, row by row. *)
Definition pixels (img : Image.t) (r : Rectangle.t) : list byte :=
  y ← seqZ (Point.Y (Rectangle.Min r)) (Point.Y (Rectangle.Max r) - Point.Y (Rectangle.Min r));
  x ← seqZ (Point.X (Rectangle.Min r)) (Point.X (Rectangle.Max r) - Point.X (Rectangle.Min r));
  color.bytes (Image.At img x y).

(** The part of [r], a rectangle relative to the top-left corner of
    [img], in the coordinates of [img]. *)
Definition absolute (img : Image.t) (r : Rectangle.t) : Rectangle.t :=
  let m := Rectangle.Min (Image.Bounds img) in
  {| Rectangle.Min := Pt (Point.X m + Point.X (Rectangle.Min r))
                         (Point.Y m + Point.Y (Rectangle.Min r));
     Rectangle.Max := Pt (Point.X m + Point.X (Rectangle.Max r))
                         (Point.Y m + Point.Y (Rectangle.Max r)) |}.

(** The pixel an [OverlayOp] makes of a background and a foreground
    pixel, as the pixel loop of [OverlayWithOp] applies it: the channels
    widened to [float64], the operator, each result converted to [uint8]
    (lines 507-521). *)
Definition apply_op (P : Platform) (op : OverlayOp) (c1 c2 : color.NRGBA) : color.NRGBA :=
  let '(r, g, b, a) :=
    op (Float64.of_uint8 (color.R c1)) (Float64.of_uint8 (color.G c1))
       (Float64.of_uint8 (color.B c1)) (Float64.of_uint8 (color.A c1))
       (Float64.of_uint8 (color.R c2)) (Float64.of_uint8 (color.G c2))
       (Float64.of_uint8 (color.B c2)) (Float64.of_uint8 (color.A c2)) in
  {| color.R := Float64.to_uint8 P r; color.G := Float64.to_uint8 P g;
     color.B := Float64.to_uint8 P b; color.A := Float64.to_uint8 P a |}.

(** The opacity [Overlay] blends with (line 343). *)
Definition clamp_opacity (opacity : float) : float :=
  math.Min (math.Max opacity 0) 1.

(** The bounds of [Clone(img)]. *)
Definition cloneBounds (img : Image.t) : Rectangle.t :=
  {| Rectangle.Min := Pt 0 0; Rectangle.Max := Pt (width img) (height img) |}.

(** [pasteRect] and [interRect] as [Paste], [Overlay] and [OverlayWithOp]
    compute them (lines 237-239, 345-347, 488-490), in coordinates
    relative to the top-left corner of the background. *)
Definition pasteRect (background img : Image.t) (pos : Point.t) : Rectangle.t :=
  let pos := Point.Sub pos (Rectangle.Min (Image.Bounds background)) in
  {| Rectangle.Min := pos;
     Rectangle.Max := Point.Add pos (Rectangle.Size (Image.Bounds img)) |}.

Definition interRect (background img : Image.t) (pos : Point.t) : Rectangle.t :=
  Rectangle.Intersect (pasteRect background img pos) (cloneBounds background).

(** [(x, y)] lies in [r]. *)
Definition covered (r : Rectangle.t) (x y : Z) : bool :=
  (Point.X (Rectangle.Min r) <=? x) && (x <? Point.X (Rectangle.Max r))
  && (Point.Y (Rectangle.Min r) <=? y) && (y <? Point.Y (Rectangle.Max r)).

(** The background with, on the pixels [interRect] covers, the pixel [f]
    makes of the background pixel and the foreground pixel laid over
    it. *)
Definition overlaid (f : color.NRGBA -> color.NRGBA -> color.NRGBA)
    (background img : Image.t) (pos : Point.t) : Image.t :=
  let b := Rectangle.Min (Image.Bounds background) in
  let m := Rectangle.Min (Image.Bounds img) in
  let p := Rectangle.Min (pasteRect background img pos) in
  {| Image.Bounds := Image.Bounds background;
     Image.At := fun x y =>
       if covered (interRect background img pos) (x - Point.X b) (y - Point.Y b)
       then f (Image.At background x y)
              (Image.At img (Point.X m + (x - Point.X b - Point.X p))
                            (Point.Y m + (y - Point.Y b - Point.Y p)))
       else Image.At background x y |}.

(** The colours of [n] pixels of row [y], from column [x0] on. *)
Definition row_colors (img : Image.t) (x0 y n : Z) : list color.NRGBA :=
  (fun x => Image.At img x y) <$> seqZ x0 n.

(** The pixel bytes of [ht] rows of [wd] pixels from [(x0, y0)] on. *)
Definition grid (img : Image.t) (x0 y0 wd ht : Z) : list byte :=
  y ← seqZ y0 ht; row_colors img x0 y wd ≫= color.bytes.

(** The part of a grid before and after the [n] pixels of row [y0 + y]
    from column [x0 + x] on. *)
Definition grid_pre (img : Image.t) (x0 y0 wd : Z) (x y : Z) : list byte :=
  grid img x0 y0 wd y ++ (row_colors img x0 (y0 + y) x ≫= color.bytes).

Definition grid_post (img : Image.t) (x0 y0 wd ht : Z) (x y n : Z) : list byte :=
  (row_colors img (x0 + x + n) (y0 + y) (wd - x - n) ≫= color.bytes)
  ++ grid img x0 (y0 + y + 1) wd (ht - y - 1).

(** The background with the rows of [r] above [ylim] laid over: on these
    pixels the colour is [f] of the background colour and [g]. *)
Definition overlaid_upto (f : color.NRGBA -> color.NRGBA -> color.NRGBA)
    (background : Image.t) (g : Z -> Z -> color.NRGBA) (r : Rectangle.t) (ylim : Z)
  : Image.t :=
  let b := Rectangle.Min (Image.Bounds background) in
  {| Image.Bounds := Image.Bounds background;
     Image.At := fun x y =>
       if covered r (x - Point.X b) (y - Point.Y b) && (y - Point.Y b <? ylim)
       then f (Image.At background x y) (g x y)
       else Image.At background x y |}.

(** The facts a row of [Paste] or [Overlay] needs about its geometry. *)
Record row_geometry (img : Image.t) (wd ht px py ix0 iy0 ix1 iy1 y : Z) : Prop := {
  rg_wd : 0 <= wd;
  rg_ht : 0 <= ht;
  rg_len : 4 * wd * ht <= Int.max_int;
  rg_x : 0 <= ix0 /\ ix0 < ix1 /\ ix1 <= wd;
  rg_y : 0 <= iy0 /\ iy0 <= y /\ y < iy1 /\ iy1 <= ht;
  rg_x0 : ix0 [-] px = ix0 - px;
  rg_x1 : ix1 [-] px = ix1 - px;
  rg_fx : 0 <= ix0 - px /\ ix1 - px <= width img;
  rg_dx : ix1 [-] ix0 = ix1 - ix0;
  rg_y0 : y [-] py = y - py;
  rg_fy : 0 <= y - py < height img
}.

(** The foreground pixel laid over the background pixel [(x, y)]. *)
Definition laid (background img : Image.t) (pos : Point.t) (x y : Z) : color.NRGBA :=
  let b := Rectangle.Min (Image.Bounds background) in
  let m := Rectangle.Min (Image.Bounds img) in
  let p := Rectangle.Min (pasteRect background img pos) in
  Image.At img (Point.X m + (x - Point.X b - Point.X p))
               (Point.Y m + (y - Point.Y b - Point.Y p)).

(** Every value of [uint8]. *)
Definition all_bytes : list byte := Float64.byte_of_Z <$> seqZ 0 256.

(** The normalized coefficients of [OpBlend] (lines 396-400). *)
Definition blend_coefs (opacity a1 a2 : float) : float * float :=
  let coef2 := (opacity * a2 / 255)%float in
  let coef1 := ((1 - coef2) * a1 / 255)%float in
  let coefSum := (coef1 + coef2)%float in
  ((coef1 / coefSum)%float, (coef2 / coefSum)%float).

(** A colour channel of the blend, as a byte (lines 379-381, 402-404). *)
Definition blend_channel (P : Platform) (coefs : float * float) (v1 v2 : byte) : byte :=
  Float64.to_uint8 P
    (Float64.of_uint8 v1 * coefs.1 + Float64.of_uint8 v2 * coefs.2)%float.

(** The alpha channel of the blend, as a byte (lines 382, 405). *)
Definition blend_alpha (P : Platform) (opacity : float) (a1 a2 : byte) : byte :=
  Float64.to_uint8 P
    (math.Min (Float64.of_uint8 a1
               + Float64.of_uint8 a2 * opacity * (255 - Float64.of_uint8 a1) / 255)%float
       255%float).

Definition float_pair_eqb (p q : float * float) : bool :=
  PrimFloat.Leibniz.eqb p.1 q.1 && PrimFloat.Leibniz.eqb p.2 q.2.

(** The pixel [(x, y)] of the background lies in the region the
    foreground is laid over. *)
Definition overlapped (background img : Image.t) (pos : Point.t) (x y : Z) : Prop :=
  Rectangle.contains (interRect background img pos)
    (x - Point.X (Rectangle.Min (Image.Bounds background)))
    (y - Point.Y (Rectangle.Min (Image.Bounds background))).

(** Every pixel of the image has alpha [a]. *)
Definition all_alpha (img : Image.t) (a : byte) : Prop :=
  forall x y, Rectangle.contains (Image.Bounds img) x y -> color.A (Image.At img x y) = a.

(** A 1 by 1 buffer holding one pixel. *)
Definition pixel_image (r g b a : byte) : Image.t :=
  NRGBA.Image (buffer 1 1 [r; g; b; a]).

(** [min] and [max] on [uint8]. *)
Definition uint8_min (a b : byte) : byte := if uint8_lt b a then b else a.
Definition uint8_max (a b : byte) : byte := if uint8_lt a b then b else a.

(** Every [uint8] with its [float64]. *)
Definition float_table : list (byte * float) :=
  (fun b => (b, Float64.of_uint8 b)) <$> all_bytes.

(** ** Sample inputs and the predicates of the opaque region *)

(** A platform whose invalid conversions answer 0. *)
Definition platform0 : Platform :=
  {| int_of_invalid := fun _ => 0; uint8_of_invalid := fun _ => x00 |}.

(** An image of one colour (as [image.Uniform], with bounds). *)
Definition uniform (r : Rectangle.t) (c : color.NRGBA) : Image.t :=
  {| Image.Bounds := r; Image.At := fun _ _ => c |}.

(** Sample images: a 2 by 2 half-transparent background, and 1 by 1
    foregrounds, opaque and transparent. *)
Definition sample_background : Image.t :=
  uniform (Rect 0 0 2 2) {| color.R := x0a; color.G := x14; color.B := x1e; color.A := x80 |}.
Definition sample_opaque : Image.t :=
  uniform (Rect 0 0 1 1) {| color.R := x64; color.G := x65; color.B := x66; color.A := xff |}.
Definition sample_transparent : Image.t :=
  uniform (Rect 0 0 1 1) {| color.R := x64; color.G := x65; color.B := x66; color.A := x00 |}.

(** No pixel of row [y] has an alpha above the threshold. *)
Definition row_below (img : Image.t) (threshold : byte) (y : Z) : Prop :=
  forall x, 0 <= x < width img ->
    uint8_lt threshold
      (color.A (Image.At img (Point.X (Rectangle.Min (Image.Bounds img)) + x)
                             (Point.Y (Rectangle.Min (Image.Bounds img)) + y))) = false.

(** No pixel of the image has an alpha above the threshold. *)
Definition below (img : Image.t) (threshold : byte) : Prop :=
  forall x y, Rectangle.contains (Image.Bounds img) x y ->
    uint8_lt threshold (color.A (Image.At img x y)) = false.

Definition opaque : color.NRGBA :=
  {| color.R := x00; color.G := x00; color.B := x00; color.A := xff |}.

(** A [wd] by [ht] buffer, transparent but for the opaque pixels at [on]. *)
Definition dotted (wd ht : Z) (on : list (Z * Z)) : Image.t :=
  NRGBA.Image
    (buffer wd ht
       (y ← seqZ 0 ht; x ← seqZ 0 wd;
        color.bytes (if bool_decide ((x, y) ∈ on) then opaque else color.zero))).

(** ** The vocabulary of the further properties *)

(** [dst] is the origin-based [wd] by [ht] buffer, of stride [4*wd] and
    [4*wd*ht] bytes, whose pixel at [(x, y)] reads [at_ x y]. *)
Definition reads (dst : NRGBA.t) (wd ht : Z) (at_ : Z -> Z -> color.NRGBA) : Prop :=
  NRGBA.Rect dst = {| Rectangle.Min := Pt 0 0; Rectangle.Max := Pt wd ht |}
  /\ NRGBA.Stride dst = 4 * wd
  /\ Z.of_nat (length (NRGBA.Pix dst)) = 4 * wd * ht
  /\ forall x y, 0 <= x < wd -> 0 <= y < ht -> NRGBA.NRGBAAt dst x y = at_ x y.

(** The pixel of [img] at [(x, y)] relative to its top-left corner. *)
Definition pixel_at (img : Image.t) (x y : Z) : color.NRGBA :=
  Image.At img (Point.X (Rectangle.Min (Image.Bounds img)) + x)
               (Point.Y (Rectangle.Min (Image.Bounds img)) + y).

(** What [Paste] and the overlays leave at [(x, y)] of the result: [f] of
    the background and the foreground pixel where the foreground lies,
    the background pixel elsewhere. *)
Definition composed (f : color.NRGBA -> color.NRGBA -> color.NRGBA)
    (background img : Image.t) (pos : Point.t) (x y : Z) : color.NRGBA :=
  let p := Rectangle.Min (pasteRect background img pos) in
  if covered (interRect background img pos) x y
  then f (pixel_at background x y) (pixel_at img (x - Point.X p) (y - Point.Y p))
  else pixel_at background x y.

(** The coordinates of the rectangle are values of [int], [Min] is not
    beyond [Max], and the width and the height are values of [int]. *)
Record int_rectangle (b : Rectangle.t) : Prop := {
  ir_minx : Int.in_range (Point.X (Rectangle.Min b));
  ir_miny : Int.in_range (Point.Y (Rectangle.Min b));
  ir_dx : 0 <= Point.X (Rectangle.Max b) - Point.X (Rectangle.Min b) <= Int.max_int;
  ir_dy : 0 <= Point.Y (Rectangle.Max b) - Point.Y (Rectangle.Min b) <= Int.max_int;
  ir_maxx : Int.in_range (Point.X (Rectangle.Max b));
  ir_maxy : Int.in_range (Point.Y (Rectangle.Max b))
}.

(** The [w] by [h] rectangle whose top-left corner is [p]. *)
Definition window (p : Point.t) (w h : Z) : Rectangle.t :=
  {| Rectangle.Min := Pt (Point.X p) (Point.Y p);
     Rectangle.Max := Pt (Point.X p + w) (Point.Y p + h) |}.

(** Where [PasteCenter] and [OverlayCenter] put a [w] by [h] image on a
    [wd] by [ht] background, relative to the background's corner. *)
Definition centre_offset (wd w : Z) : Z := wd / 2 - w / 2.

(** [(x, y)] lies in the [w] by [h] window at [(ox, oy)]. *)
Definition in_window (ox oy w h x y : Z) : bool :=
  (ox <=? x) && (x <? ox + w) && (oy <=? y) && (y <? oy + h).

(** The position [PasteCenter] and [OverlayCenter] compute (lines 315-325
    and 535-545). *)
Definition centre (background img : Image.t) : Point.t :=
  let bgBounds := Image.Bounds background in
  Pt ((Point.X (Rectangle.Min bgBounds) [+] int_quot (Rectangle.Dx bgBounds) 2)
      [-] int_quot (Rectangle.Dx (Image.Bounds img)) 2)
     ((Point.Y (Rectangle.Min bgBounds) [+] int_quot (Rectangle.Dy bgBounds) 2)
      [-] int_quot (Rectangle.Dy (Image.Bounds img)) 2).

(** The operator [OverlayOnCanvas] applies to a pixel pair: the blend
    without an opacity factor. *)
Definition canvas_op : OverlayOp :=
  fun r1 g1 b1 a1 r2 g2 b2 a2 =>
    let coef2 := (a2 / 255)%float in
    let coef1 := ((1 - coef2) * a1 / 255)%float in
    let coefSum := (coef1 + coef2)%float in
    let coef1 := (coef1 / coefSum)%float in
    let coef2 := (coef2 / coefSum)%float in
    ((r1 * coef1 + r2 * coef2)%float, (g1 * coef1 + g2 * coef2)%float,
     (b1 * coef1 + b2 * coef2)%float,
     math.Min (a1 + a2 * (255 - a1) / 255)%float 255%float).

(** A canvas: the origin-based buffer that holds the pixels of an image. *)
Definition canvas (dst : NRGBA.t) (wd ht : Z) : Prop :=
  (0 <= wd /\ 0 <= ht <= Int.max_int /\ 4 * wd <= Int.max_int
   /\ 4 * wd * ht <= Int.max_int)
  /\ exists img x0 y0, dst = buffer wd ht (grid img x0 y0 wd ht).

(** No alpha byte of the buffer is above the threshold. *)
Definition alphas_below (threshold : byte) (pix : list byte) : Prop :=
  forall (j : nat) (a : byte), pix !! (4 * j + 3)%nat = Some a -> uint8_lt threshold a = false.

(** The value of a [uint8]. *)
Definition uint8_val (b : byte) : Z := Z.of_N (Byte.to_N b).

(** The sum of two channels, saturated at 255. *)
Definition uint8_sat_add (a b : byte) : byte :=
  Float64.byte_of_Z (Z.min (uint8_val a + uint8_val b) 255).

(** The alpha of [a2] over [a1]: [a1 + a2*(255-a1)/255], rounded down. *)
Definition uint8_over (a1 a2 : byte) : byte :=
  Float64.byte_of_Z
    ((255 * uint8_val a1 + uint8_val a2 * (255 - uint8_val a1)) / 255).

(** Twice the lightness of a colour: the largest plus the smallest of its
    three channels. *)
Definition lightness2 (c : color.NRGBA) : Z :=
  uint8_val (uint8_max (color.R c) (uint8_max (color.G c) (color.B c)))
  + uint8_val (uint8_min (color.R c) (uint8_min (color.G c) (color.B c))).

(** The alpha [OpPlus], [OpMax] and [OpLighten] compute, on [float64]. *)
Definition over_alpha (P : Platform) (a1 a2 : float) : byte :=
  Float64.to_uint8 P (math.Min (a1 + a2 * ((255 - a1) / 255))%float 255%float).

(** Half the sum of two channels, for every sum. *)
Definition half_table : list (Z * float) :=
  (fun s => (s, (Float64.of_int s / 2)%float)) <$> seqZ 0 511.

Definition half_of (s : Z) : float :=
  default nan (snd <$> half_table !! Z.to_nat s).

Definition float_of_uint8_val (z : Z) : float :=
  default nan (snd <$> float_table !! Z.to_nat z).

(** * Reasoning principles *)

(** [simpl] is kept from unfolding the model's functions: they are
    unfolded by name where a proof needs their body. *)
Global Arguments mul3NonNeg : simpl never.
Global Arguments NewNRGBA : simpl never.
Global Arguments Rect : simpl never.
Global Arguments scan : simpl never.
Global Arguments scan_row : simpl never.
Global Arguments parallel : simpl never.
Global Arguments for_range : simpl never.
Global Arguments make : simpl never.
Global Arguments index : simpl never.
Global Arguments store : simpl never.
Global Arguments slice_ok : simpl never.
Global Arguments Rectangle.Intersect : simpl never.
Global Arguments Rectangle.Empty : simpl never.
Global Arguments Rectangle.Dx : simpl never.
Global Arguments Rectangle.Dy : simpl never.
Global Arguments Clone : simpl never.

(** Reduces the projections of the records of the model, and nothing
    else. *)
Ltac psimpl :=
  cbn [Point.X Point.Y Pt Rectangle.Min Rectangle.Max NRGBA.Pix NRGBA.Stride NRGBA.Rect
       NRGBA.Bounds Image.Bounds Image.At image w h fst snd] in *.

(** ** The [result] monad and the loops *)

Lemma bind_Ok {A B} (a : A) (k : A -> result B) : (Ok a ≫= k) = k a.
Proof. reflexivity. Qed.

Lemma bind_Panic {A B} (k : A -> result B) : (Panic ≫= k) = Panic.
Proof. reflexivity. Qed.

Lemma bind_Ok_inv {A B} (r : result A) (k : A -> result B) (b : B) :
  (r ≫= k) = Ok b -> exists a, r = Ok a /\ k a = Ok b.
Proof. destruct r as [a|]; [eauto | discriminate]. Qed.

(** Total correctness of a loop: an invariant indexed by the number of
    iterations done, each iteration returning and re-establishing it. *)
Lemma for_each_inv {St : Type} (Inv : nat -> St -> Prop) (ks : list Z)
    (body : Z -> St -> result St) (s : St) :
  Inv 0%nat s ->
  (forall (i : nat) (k : Z) (s : St),
      ks !! i = Some k -> Inv i s -> exists s', body k s = Ok s' /\ Inv (S i) s') ->
  exists s', for_each ks body s = Ok s' /\ Inv (length ks) s'.
Proof.
  revert Inv s. induction ks as [|k ks IH]; intros Inv s H0 Hstep; simpl.
  - eauto.
  - destruct (Hstep 0%nat k s eq_refl H0) as (s1 & -> & H1). rewrite bind_Ok.
    apply (IH (fun i => Inv (S i))); [done|].
    intros i k' s' Hk. apply (Hstep (S i)). done.
Qed.

(** Partial correctness of a loop: a property every iteration that
    returns preserves. *)
Lemma for_each_preserves {St : Type} (I : St -> Prop) (ks : list Z)
    (body : Z -> St -> result St) (s s' : St) :
  (forall k s s', body k s = Ok s' -> I s -> I s') ->
  for_each ks body s = Ok s' -> I s -> I s'.
Proof.
  intros Hbody. revert s. induction ks as [|k ks IH]; intros s; simpl.
  - intros [= ->]. done.
  - intros H Hs. apply bind_Ok_inv in H as (s1 & H1 & H2). eauto.
Qed.

Lemma for_range_inv {St : Type} (Inv : Z -> St -> Prop) (lo hi : Z)
    (body : Z -> St -> result St) (s : St) :
  lo <= hi ->
  Inv lo s ->
  (forall (x : Z) (s : St),
      lo <= x < hi -> Inv x s -> exists s', body x s = Ok s' /\ Inv (x + 1) s') ->
  exists s', for_range lo hi body s = Ok s' /\ Inv hi s'.
Proof.
  intros Hle H0 Hstep. unfold for_range.
  destruct (for_each_inv (fun i => Inv (lo + Z.of_nat i)) (seqZ lo (hi - lo)) body s)
    as (s' & Hs' & Hinv).
  - by rewrite Z.add_0_r.
  - intros i k s0 Hk Hi. apply lookup_seqZ in Hk as [-> Hlt].
    destruct (Hstep (lo + Z.of_nat i) s0) as (s1 & ? & ?); [lia|done|].
    exists s1. split; [done|]. by replace (lo + Z.of_nat (S i)) with (lo + Z.of_nat i + 1) by lia.
  - exists s'. split; [done|]. rewrite length_seqZ in Hinv.
    by replace (lo + Z.of_nat (Z.to_nat (hi - lo))) with hi in Hinv by lia.
Qed.

(** The rows [parallel] hands to its callback. *)
Lemma parallel_some {St : Type} (start stop : Z) (fn : list Z -> St -> result St) (s : St) :
  start < stop -> parallel start stop fn s = fn (seqZ start (stop - start)) s.
Proof. intros. unfold parallel. destruct (Z.leb_spec stop start); [lia|done]. Qed.

Lemma parallel_none {St : Type} (start stop : Z) (fn : list Z -> St -> result St) (s : St) :
  stop <= start -> parallel start stop fn s = Ok s.
Proof. intros. unfold parallel. destruct (Z.leb_spec stop start); [done|lia]. Qed.

(** ** Arithmetic on [int] that does not wrap *)

(** [lia] over the wrapping operations, which it reads as Euclidean
    divisions by [2^64]. *)
Ltac wrap_lia :=
  unfold Int.add, Int.sub, Int.mul, Int.wrap, Int.in_range, Int.min_int, Int.max_int in *;
  Z.div_mod_to_equations; lia.

Lemma wrap_id (z : Z) : Int.in_range z -> Int.wrap z = z.
Proof. wrap_lia. Qed.

Lemma add_id (a b : Z) : Int.in_range (a + b) -> a [+] b = a + b.
Proof. apply wrap_id. Qed.

Lemma sub_id (a b : Z) : Int.in_range (a - b) -> a [-] b = a - b.
Proof. apply wrap_id. Qed.

Lemma mul_id (a b : Z) : Int.in_range (a * b) -> a [*] b = a * b.
Proof. apply wrap_id. Qed.

Lemma wrap_in_range (z : Z) : Int.in_range (Int.wrap z).
Proof. wrap_lia. Qed.

Ltac in_range_tac :=
  unfold Int.in_range, Int.min_int, Int.max_int in *; lia.

(** Rewrites the wrapping operations whose exact result is in range,
    innermost first. *)
Ltac int_norm :=
  repeat match goal with
    | |- context [?a [+] ?b] => rewrite (add_id a b) by in_range_tac
    | |- context [?a [-] ?b] => rewrite (sub_id a b) by in_range_tac
    | |- context [?a [*] ?b] => rewrite (mul_id a b) by in_range_tac
    end.

(** Offsets into a buffer of [ht] rows of [wd] pixels. *)
Lemma row_bounds (k wd ht : Z) :
  0 <= k < ht -> 0 <= wd ->
  0 <= k * (4 * wd) /\ k * (4 * wd) + wd * 4 <= 4 * wd * ht.
Proof. intros. nia. Qed.

Lemma area_mono (wd ht wd' ht' : Z) :
  0 <= wd <= wd' -> 0 <= ht <= ht' -> 4 * wd * ht <= 4 * wd' * ht'.
Proof.
  intros. transitivity (4 * wd' * ht); [apply Z.mul_le_mono_nonneg_r; lia|].
  apply Z.mul_le_mono_nonneg_l; lia.
Qed.

Lemma to_nat_area (wd ht : Z) :
  0 <= wd -> 0 <= ht ->
  Z.to_nat (4 * wd * ht) = (Z.to_nat ht * (4 * Z.to_nat wd))%nat.
Proof.
  intros. rewrite !Z2Nat.inj_mul by lia. change (Z.to_nat 4) with 4%nat. lia.
Qed.

(** ** Slices *)

Lemma index_Some {A} (s : list A) (i : Z) (a : A) :
  0 <= i -> s !! Z.to_nat i = Some a -> index s i = Ok a.
Proof.
  intros Hi Hs. unfold index. pose proof (lookup_lt_Some _ _ _ Hs).
  destruct (Z.leb_spec 0 i); [|lia].
  destruct (Z.ltb_spec i (Z.of_nat (length s))); [|lia]. simpl. by rewrite Hs.
Qed.

Lemma store_Some {A} (s : list A) (i : Z) (a : A) :
  0 <= i < Z.of_nat (length s) -> store s i a = Ok (<[Z.to_nat i := a]> s).
Proof.
  intros Hi. unfold store.
  destruct (Z.leb_spec 0 i); [|lia].
  destruct (Z.ltb_spec i (Z.of_nat (length s))); [|lia]. done.
Qed.

Lemma store_length {A} (s s' : list A) (i : Z) (a : A) :
  store s i a = Ok s' -> length s' = length s.
Proof.
  unfold store. destruct (_ && _); [|discriminate]. intros [= <-]. apply length_insert.
Qed.

Lemma slice_ok_true {A} (s : list A) (lo hi : Z) :
  0 <= lo -> lo <= hi -> hi <= Z.of_nat (length s) -> slice_ok s lo hi = true.
Proof.
  intros. unfold slice_ok.
  destruct (Z.leb_spec 0 lo); [|lia]. destruct (Z.leb_spec lo hi); [|lia].
  destruct (Z.leb_spec hi (Z.of_nat (length s))); [done|lia].
Qed.

Lemma make_Some {A} (zero : A) (n : Z) :
  0 <= n -> make zero n = Ok (replicate (Z.to_nat n) zero).
Proof. intros. unfold make. destruct (Z.ltb_spec n 0); [lia|done]. Qed.

(** ** Rows of pixels *)

(** A list of pixels laid out four bytes each: the byte [c] of pixel [k]. *)
Lemma lookup_bind_bytes {A} (f : A -> color.NRGBA) (l : list A) (k c : nat) :
  (c < 4)%nat ->
  (l ≫= (fun a => color.bytes (f a))) !! (4 * k + c)%nat
  = a ← l !! k; color.bytes (f a) !! c.
Proof.
  intros Hc. revert k. induction l as [|a l IH]; intros k; [done|].
  destruct k as [|k].
  - simpl. destruct c as [|[|[|[|c]]]]; try done; lia.
  - replace (4 * S k + c)%nat with (S (S (S (S (4 * k + c))))) by lia.
    simpl. apply IH.
Qed.

Lemma length_bind_bytes {A} (f : A -> color.NRGBA) (l : list A) :
  length (l ≫= (fun a => color.bytes (f a))) = (4 * length l)%nat.
Proof.
  induction l as [|a l IH]; [done|].
  change ((a :: l) ≫= (fun a => color.bytes (f a)))
    with (color.bytes (f a) ++ (l ≫= (fun a => color.bytes (f a)))).
  rewrite length_app, IH. simpl. lia.
Qed.

Lemma length_scan_row (s : scanner) (x1 y x2 : Z) :
  length (scan_row s x1 y x2) = (4 * Z.to_nat (x2 - x1))%nat.
Proof.
  unfold scan_row.
  rewrite (length_bind_bytes (fun x => Image.At (image s) _ _)).
  by rewrite length_seqZ.
Qed.

(** What [scan] writes, when the request is a row segment of the image. *)
Lemma scan_Ok (s : scanner) (x1 y1 x2 y2 : Z) (buf : list byte) (lo hi : Z) :
  0 <= lo -> hi <= Z.of_nat (length buf) ->
  0 <= x1 -> x1 <= x2 -> x2 <= w s -> 0 <= y1 < h s -> y2 = y1 + 1 ->
  hi - lo = (x2 - x1) * 4 ->
  scan s x1 y1 x2 y2 buf lo hi = Ok (list_inserts (Z.to_nat lo) (scan_row s x1 y1 x2) buf).
Proof.
  intros. unfold scan. rewrite slice_ok_true by lia. simpl.
  repeat match goal with
         | |- context [Z.leb ?a ?b] => destruct (Z.leb_spec a b); [|lia]
         | |- context [Z.ltb ?a ?b] => destruct (Z.ltb_spec a b); [|lia]
         | |- context [Z.eqb ?a ?b] => destruct (Z.eqb_spec a b); [|lia]
         end.
  done.
Qed.

(** ** Images whose pixel buffer Go can allocate *)

Lemma newScanner_w (img : Image.t) : wf_image img -> w (newScanner img) = width img.
Proof. intros []. unfold newScanner, Rectangle.Dx, width in *. simpl. int_norm. done. Qed.

Lemma newScanner_h (img : Image.t) : wf_image img -> h (newScanner img) = height img.
Proof. intros []. unfold newScanner, Rectangle.Dy, height in *. simpl. int_norm. done. Qed.

Lemma NewNRGBA_Ok (wd ht : Z) :
  0 <= wd -> 0 <= ht <= Int.max_int -> 4 * wd <= Int.max_int -> 4 * wd * ht <= Int.max_int ->
  NewNRGBA (Rect 0 0 wd ht) = Ok (buffer wd ht (replicate (Z.to_nat (4 * wd * ht)) x00)).
Proof.
  intros Hw Hh Hs Hl. unfold NewNRGBA, Rect.
  destruct (Z.ltb_spec wd 0); [lia|]. destruct (Z.ltb_spec ht 0); [lia|].
  unfold Rectangle.Dx, Rectangle.Dy. simpl. int_norm. rewrite !Z.sub_0_r.
  unfold mul3NonNeg.
  destruct (Z.ltb_spec wd 0); [lia|]. destruct (Z.ltb_spec ht 0); [lia|]. simpl.
  unfold Int.max_int in *.
  destruct (Z.leb_spec (2 ^ 64) (4 * wd)); [lia|].
  destruct (Z.leb_spec (2 ^ 64) (4 * wd * ht)); [lia|].
  destruct (Z.leb_spec (2 ^ 63) (4 * wd * ht)); [lia|].
  destruct (Z.ltb_spec (4 * wd * ht) 0); [nia|].
  rewrite make_Some by nia. done.
Qed.

(** ** Filling a buffer row by row *)


(** Rows written one below the other into a zeroed buffer. *)
Lemma fill_rows (row : Z -> list byte) (L : nat) (y0 n : Z)
    (body : Z -> list byte -> result (list byte)) :
  (forall y, y0 <= y < y0 + n -> length (row y) = L) ->
  (forall y pix, y0 <= y < y0 + n -> length pix = (Z.to_nat n * L)%nat ->
     body y pix = Ok (list_inserts (Z.to_nat (y - y0) * L) (row y) pix)) ->
  for_each (seqZ y0 n) body (replicate (Z.to_nat n * L) x00) = Ok (seqZ y0 n ≫= row).
Proof.
  intros Hlen Hbody.
  destruct (for_each_inv
    (fun i pix => (i <= Z.to_nat n)%nat /\
       pix = (seqZ y0 (Z.of_nat i) ≫= row) ++ replicate ((Z.to_nat n - i) * L) x00)
    (seqZ y0 n) body (replicate (Z.to_nat n * L) x00)) as (pix & Hpix & Hle & ->).
  - split; [lia|]. rewrite seqZ_nil by lia. simpl. by rewrite Nat.sub_0_r.
  - intros i k pix Hk [Hi ->]. apply lookup_seqZ in Hk as [-> Hlt].
    assert (Hrows : length (seqZ y0 (Z.of_nat i) ≫= row) = (i * L)%nat).
    { clear Hi. induction i as [|i IH]; [done|].
      rewrite seqZ_S, bind_app, length_app, IH by lia.
      simpl. rewrite app_nil_r, Hlen by lia. lia. }
    rewrite Hbody.
    2: lia.
    2: { rewrite length_app, Hrows, length_replicate. nia. }
    eexists. split; [done|]. split; [lia|].
    replace (Z.to_nat (y0 + Z.of_nat i - y0) * L)%nat
      with (length (seqZ y0 (Z.of_nat i) ≫= row) + 0)%nat by (rewrite Hrows; lia).
    rewrite list_inserts_app_r.
    replace ((Z.to_nat n - i) * L)%nat with (L + (Z.to_nat n - S i) * L)%nat by nia.
    rewrite replicate_add, list_inserts_0_r by (rewrite length_replicate, Hlen; lia).
    rewrite seqZ_S, bind_app. simpl. by rewrite app_nil_r, <- !app_assoc.
  - rewrite Hpix. f_equal. rewrite length_seqZ, Nat.sub_diag. simpl.
    rewrite app_nil_r. destruct (Z.le_gt_cases 0 n).
    + by rewrite Z2Nat.id.
    + by rewrite !seqZ_nil by lia.
Qed.

Lemma scan_rows_pixels (img : Image.t) (r : Rectangle.t) :
  (seqZ (Point.Y (Rectangle.Min r)) (Point.Y (Rectangle.Max r) - Point.Y (Rectangle.Min r))
     ≫= fun y => scan_row (newScanner img) (Point.X (Rectangle.Min r)) y
                   (Point.X (Rectangle.Max r)))
  = pixels img (absolute img r).
Proof.
  unfold pixels, absolute, scan_row. simpl.
  rewrite <- (fmap_add_seqZ (Point.Y _)), list_fmap_bind.
  replace (Point.Y (Rectangle.Min (Image.Bounds img)) + Point.Y (Rectangle.Max r)
           - (Point.Y (Rectangle.Min (Image.Bounds img)) + Point.Y (Rectangle.Min r)))
    with (Point.Y (Rectangle.Max r) - Point.Y (Rectangle.Min r)) by lia.
  apply list_bind_ext; [|done]. intros y. simpl.
  rewrite <- (fmap_add_seqZ (Point.X _)), list_fmap_bind.
  replace (Point.X (Rectangle.Min (Image.Bounds img)) + Point.X (Rectangle.Max r)
           - (Point.X (Rectangle.Min (Image.Bounds img)) + Point.X (Rectangle.Min r)))
    with (Point.X (Rectangle.Max r) - Point.X (Rectangle.Min r)) by lia.
  done.
Qed.

Lemma absolute_full (img : Image.t) :
  absolute img {| Rectangle.Min := Pt 0 0; Rectangle.Max := Pt (width img) (height img) |}
  = Image.Bounds img.
Proof.
  unfold absolute, width, height. destruct img as [[[x0 y0] [x1 y1]] f]. simpl.
  unfold Pt. repeat f_equal; lia.
Qed.

Lemma Clone_row_Ok (img : Image.t) (pix0 : list byte) (y : Z) (pix : list byte) :
  wf_image img -> 0 <= y < height img ->
  length pix = (Z.to_nat (height img) * (4 * Z.to_nat (width img)))%nat ->
  Clone_row (newScanner img) (buffer (width img) (height img) pix0)
    (width img [*] 4) y pix
  = Ok (list_inserts (Z.to_nat (y - 0) * (4 * Z.to_nat (width img)))
          (scan_row (newScanner img) 0 y (width img)) pix).
Proof.
  intros Hwf Hy Hlen. pose proof Hwf as [Hw Hh Hs Hl].
  unfold Clone_row. rewrite newScanner_w by done. simpl.
  assert (0 <= y * (4 * width img) /\ y * (4 * width img) + width img * 4 <= 4 * width img * height img) by nia.
  int_norm. rewrite scan_Ok; rewrite ?newScanner_w, ?newScanner_h by done; try lia.
  f_equal. f_equal. nia.
Qed.

Lemma Clone_Ok (img : Image.t) :
  wf_image img ->
  Clone img = Ok (buffer (width img) (height img) (pixels img (Image.Bounds img))).
Proof.
  intros Hwf. pose proof Hwf as [Hw Hh Hs Hl]. unfold Clone.
  rewrite newScanner_w, newScanner_h, NewNRGBA_Ok by done. rewrite bind_Ok.
  assert (pixels img (Image.Bounds img)
          = seqZ 0 (height img) ≫= fun y => scan_row (newScanner img) 0 y (width img)) as ->.
  { rewrite <- (absolute_full img) at 1. rewrite <- scan_rows_pixels. simpl.
    by rewrite Z.sub_0_r. }
  simpl.
  destruct (Z.eq_dec (height img) 0) as [->|].
  - rewrite parallel_none by lia. by rewrite Z.mul_0_r.
  - rewrite parallel_some by lia. rewrite Z.sub_0_r.
    replace (Z.to_nat (4 * width img * height img))
      with (Z.to_nat (height img) * (4 * Z.to_nat (width img)))%nat by nia.
    rewrite (fill_rows (fun y => scan_row (newScanner img) 0 y (width img))
               (4 * Z.to_nat (width img))).
    + done.
    + intros. rewrite length_scan_row. f_equal. lia.
    + intros. apply Clone_row_Ok; [done|lia|done].
Qed.

(** ** [Crop] *)

(** [Intersect] answers the zero rectangle, or a non-empty rectangle made
    of the larger minima and the smaller maxima. *)
Lemma Intersect_cases (r s : Rectangle.t) :
  let i := Rectangle.Intersect r s in
  (i = Rectangle.ZR /\ Rectangle.Empty i = true)
  \/ (Rectangle.Empty i = false
      /\ Point.X (Rectangle.Min i) = Z.max (Point.X (Rectangle.Min r)) (Point.X (Rectangle.Min s))
      /\ Point.Y (Rectangle.Min i) = Z.max (Point.Y (Rectangle.Min r)) (Point.Y (Rectangle.Min s))
      /\ Point.X (Rectangle.Max i) = Z.min (Point.X (Rectangle.Max r)) (Point.X (Rectangle.Max s))
      /\ Point.Y (Rectangle.Max i) = Z.min (Point.Y (Rectangle.Max r)) (Point.Y (Rectangle.Max s))
      /\ Point.X (Rectangle.Min i) < Point.X (Rectangle.Max i)
      /\ Point.Y (Rectangle.Min i) < Point.Y (Rectangle.Max i)).
Proof.
  unfold Rectangle.Intersect.
  set (r' := {| Rectangle.Min := _; Rectangle.Max := _ |}).
  destruct (Rectangle.Empty r') eqn:He; simpl; [by left|right].
  rewrite He. unfold Rectangle.Empty in He. apply orb_false_elim in He as [Hx Hy].
  apply Z.leb_gt in Hx, Hy. subst r'. simpl in *.
  repeat match goal with
         | |- context [Z.ltb ?a ?b] => destruct (Z.ltb_spec a b)
         | H : context [Z.ltb ?a ?b] |- _ => destruct (Z.ltb_spec a b)
         end; repeat split; lia.
Qed.

Lemma Crop_row_Ok (img : Image.t) (x0 y0 x1 y1 : Z) (pix0 : list byte) (y : Z) (pix : list byte) :
  wf_image img ->
  0 <= x0 -> x0 < x1 -> x1 <= width img -> 0 <= y0 -> y1 <= height img -> y0 <= y < y1 ->
  length pix = (Z.to_nat (y1 - y0) * (4 * Z.to_nat (x1 - x0)))%nat ->
  Crop_row (newScanner img) (buffer (x1 - x0) (y1 - y0) pix0)
    {| Rectangle.Min := Pt x0 y0; Rectangle.Max := Pt x1 y1 |} ((x1 - x0) [*] 4) y pix
  = Ok (list_inserts (Z.to_nat (y - y0) * (4 * Z.to_nat (x1 - x0)))
          (scan_row (newScanner img) x0 y x1) pix).
Proof.
  intros Hwf Hx0 Hx Hx1 Hy0 Hy1 Hy Hlen. pose proof Hwf as [Hw Hh Hs Hl].
  unfold Crop_row. simpl.
  pose proof (row_bounds (y - y0) (x1 - x0) (y1 - y0) ltac:(lia) ltac:(lia)) as [Hb1 Hb2].
  pose proof (area_mono (x1 - x0) (y1 - y0) (width img) (height img) ltac:(lia) ltac:(lia)) as Hb3.
  assert (Hlen' : Z.of_nat (length pix) = 4 * (x1 - x0) * (y1 - y0)) by (rewrite Hlen; nia).
  int_norm. rewrite scan_Ok; rewrite ?newScanner_w, ?newScanner_h by done; try lia.
  f_equal. f_equal. nia.
Qed.

Lemma Crop_Ok (img : Image.t) (rect : Rectangle.t) :
  wf_image img ->
  let inter := Rectangle.Intersect rect (Image.Bounds img) in
  Crop img rect
  = Ok (if Rectangle.Empty inter then NRGBA.empty
        else buffer (Point.X (Rectangle.Max inter) - Point.X (Rectangle.Min inter))
                    (Point.Y (Rectangle.Max inter) - Point.Y (Rectangle.Min inter))
                    (pixels img inter)).
Proof.
  intros Hwf. cbv zeta. pose proof Hwf as [Hw Hh Hs Hl]. unfold Crop.
  pose proof (Intersect_cases rect (Image.Bounds img)) as HI. cbv zeta in HI.
  remember (Rectangle.Intersect rect (Image.Bounds img)) as inter eqn:Hinter. clear Hinter.
  destruct HI as [[Hz He]|(He & Hx0 & Hy0 & Hx1 & Hy1 & Hx & Hy)]; rewrite He.
  - rewrite Hz. unfold Rectangle.Empty, Rectangle.Sub, Rectangle.ZR. psimpl.
    destruct (Z.leb_spec (0 [-] Point.X (Rectangle.Min (Image.Bounds img)))
                (0 [-] Point.X (Rectangle.Min (Image.Bounds img)))); [done|lia].
  - destruct inter as [[ix0 iy0] [ix1 iy1]]. psimpl.
    unfold width, height in *.
    destruct (Image.Bounds img) as [[bx0 by0] [bx1 by1]] eqn:Hb. psimpl.
    unfold Rectangle.Sub. psimpl.
    replace (ix0 [-] bx0) with (ix0 - bx0) by (symmetry; apply sub_id; in_range_tac).
    replace (ix1 [-] bx0) with (ix1 - bx0) by (symmetry; apply sub_id; in_range_tac).
    replace (iy0 [-] by0) with (iy0 - by0) by (symmetry; apply sub_id; in_range_tac).
    replace (iy1 [-] by0) with (iy1 - by0) by (symmetry; apply sub_id; in_range_tac).
    unfold Rectangle.Empty at 1. psimpl.
    destruct (Z.leb_spec (ix1 - bx0) (ix0 - bx0)); [lia|].
    destruct (Z.leb_spec (iy1 - by0) (iy0 - by0)); [lia|]. psimpl.
    unfold Rectangle.Dx, Rectangle.Dy. psimpl.
    replace (ix1 - bx0 [-] (ix0 - bx0)) with (ix1 - bx0 - (ix0 - bx0))
      by (symmetry; apply sub_id; in_range_tac).
    replace (iy1 - by0 [-] (iy0 - by0)) with (iy1 - by0 - (iy0 - by0))
      by (symmetry; apply sub_id; in_range_tac).
    set (x0 := ix0 - bx0). set (x1 := ix1 - bx0). set (y0 := iy0 - by0). set (y1 := iy1 - by0).
    assert (Hwimg : width img = bx1 - bx0) by (unfold width; rewrite Hb; done).
    assert (Hhimg : height img = by1 - by0) by (unfold height; rewrite Hb; done).
    pose proof (area_mono (x1 - x0) (y1 - y0) (bx1 - bx0) (by1 - by0)
                  ltac:(subst x0 x1; lia) ltac:(subst y0 y1; lia)) as Harea.
    assert (Hpos : 0 <= 4 * (x1 - x0) * (y1 - y0))
      by (apply Z.mul_nonneg_nonneg; subst x0 x1 y0 y1; lia).
    rewrite NewNRGBA_Ok by (subst x0 x1 y0 y1; in_range_tac). rewrite bind_Ok.
    rewrite parallel_some by (subst y0 y1; lia). psimpl.
    rewrite to_nat_area by (subst x0 x1 y0 y1; lia).
    rewrite (fill_rows (fun y => scan_row (newScanner img) x0 y x1) (4 * Z.to_nat (x1 - x0))).
    + rewrite bind_Ok.
      pose proof (scan_rows_pixels img
        {| Rectangle.Min := Pt x0 y0; Rectangle.Max := Pt x1 y1 |}) as Hp.
      simpl in Hp. rewrite Hp.
      unfold buffer. psimpl. f_equal.
      replace (x1 - x0) with (ix1 - ix0) by (subst x0 x1; lia).
      replace (y1 - y0) with (iy1 - iy0) by (subst y0 y1; lia).
      f_equal. f_equal. unfold absolute. rewrite Hb. psimpl.
      unfold Pt. subst x0 x1 y0 y1. repeat f_equal; lia.
    + intros. by rewrite length_scan_row.
    + intros y pix Hy' Hlen.
      apply (Crop_row_Ok img x0 y0 x1 y1); try done;
        rewrite ?Hwimg, ?Hhimg; subst x0 x1 y0 y1; lia.
Qed.

Lemma for_each_cons {St : Type} (k : Z) (ks : list Z) (body : Z -> St -> result St) (s : St) :
  for_each (k :: ks) body s = s' ← body k s; for_each ks body s'.
Proof. reflexivity. Qed.

(** ** The pixel loop of [OverlayWithOp] *)

Lemma lookup_pixel_byte (pre post : list byte) (c : color.NRGBA) (k : nat) :
  (k < 4)%nat ->
  (pre ++ color.bytes c ++ post) !! (length pre + k)%nat = color.bytes c !! k.
Proof.
  intros Hk. rewrite lookup_app_r by lia.
  replace (length pre + k - length pre)%nat with k by lia.
  by rewrite lookup_app_l by (simpl; lia).
Qed.

Lemma index_pixel_byte (pre post : list byte) (c : color.NRGBA) (k : Z) (b : byte) :
  color.bytes c !! Z.to_nat k = Some b -> 0 <= k < 4 ->
  index (pre ++ color.bytes c ++ post) (Z.of_nat (length pre) + k) = Ok b.
Proof.
  intros Hb Hk. apply index_Some; [lia|].
  replace (Z.to_nat (Z.of_nat (length pre) + k)) with (length pre + Z.to_nat k)%nat by lia.
  rewrite lookup_pixel_byte by lia. done.
Qed.

Lemma store_pixel_byte (pre post : list byte) (l : list byte) (k : Z) (b : byte) :
  0 <= k < Z.of_nat (length l) ->
  store (pre ++ l ++ post) (Z.of_nat (length pre) + k) b
  = Ok (pre ++ <[Z.to_nat k := b]> l ++ post).
Proof.
  intros Hk. rewrite store_Some by (rewrite !length_app; lia). f_equal.
  replace (Z.to_nat (Z.of_nat (length pre) + k)) with (length pre + Z.to_nat k)%nat by lia.
  rewrite insert_app_r. f_equal. rewrite insert_app_l by lia. done.
Qed.

Lemma OverlayWithOp_pixel_Ok (P : Platform) (op : OverlayOp)
    (pre post spre spost : list byte) (c1 c2 : color.NRGBA) (x : Z) :
  Z.of_nat (length (pre ++ color.bytes c1 ++ post)) <= Int.max_int ->
  Z.of_nat (length (spre ++ color.bytes c2 ++ spost)) <= Int.max_int ->
  OverlayWithOp_pixel P op (spre ++ color.bytes c2 ++ spost) x
    (pre ++ color.bytes c1 ++ post, Z.of_nat (length pre), Z.of_nat (length spre))
  = Ok (pre ++ color.bytes (apply_op P op c1 c2) ++ post,
        Z.of_nat (length pre) + 4, Z.of_nat (length spre) + 4).
Proof.
  intros H1 H2. rewrite !length_app in H1, H2. simpl in H1, H2.
  unfold OverlayWithOp_pixel. int_norm.
  rewrite (index_pixel_byte pre post c1 0 (color.R c1)) by (done || lia). rewrite bind_Ok.
  rewrite (index_pixel_byte pre post c1 1 (color.G c1)) by (done || lia). rewrite bind_Ok.
  rewrite (index_pixel_byte pre post c1 2 (color.B c1)) by (done || lia). rewrite bind_Ok.
  rewrite (index_pixel_byte pre post c1 3 (color.A c1)) by (done || lia). rewrite bind_Ok.
  rewrite (index_pixel_byte spre spost c2 0 (color.R c2)) by (done || lia). rewrite bind_Ok.
  rewrite (index_pixel_byte spre spost c2 1 (color.G c2)) by (done || lia). rewrite bind_Ok.
  rewrite (index_pixel_byte spre spost c2 2 (color.B c2)) by (done || lia). rewrite bind_Ok.
  rewrite (index_pixel_byte spre spost c2 3 (color.A c2)) by (done || lia). rewrite bind_Ok.
  unfold apply_op.
  destruct (op _ _ _ _ _ _ _ _) as [[[r g] b] a].
  rewrite store_pixel_byte by (simpl; lia). rewrite bind_Ok.
  rewrite store_pixel_byte by (simpl; lia). rewrite bind_Ok.
  rewrite store_pixel_byte by (simpl; lia). rewrite bind_Ok.
  rewrite store_pixel_byte by (simpl; lia). rewrite bind_Ok.
  done.
Qed.

Lemma OverlayWithOp_pixels_Ok (P : Platform) (op : OverlayOp) (ks : list Z)
    (cs1 cs2 : list color.NRGBA) (pre post spre spost : list byte) :
  length ks = length cs1 -> length cs2 = length cs1 ->
  Z.of_nat (length (pre ++ (cs1 ≫= color.bytes) ++ post)) <= Int.max_int ->
  Z.of_nat (length (spre ++ (cs2 ≫= color.bytes) ++ spost)) <= Int.max_int ->
  for_each ks (OverlayWithOp_pixel P op (spre ++ (cs2 ≫= color.bytes) ++ spost))
    (pre ++ (cs1 ≫= color.bytes) ++ post, Z.of_nat (length pre), Z.of_nat (length spre))
  = Ok (pre ++ (zip_with (apply_op P op) cs1 cs2 ≫= color.bytes) ++ post,
        Z.of_nat (length pre) + 4 * Z.of_nat (length cs1),
        Z.of_nat (length spre) + 4 * Z.of_nat (length cs1)).
Proof.
  revert cs1 cs2 pre spre.
  induction ks as [|k ks IH]; intros [|c1 cs1] [|c2 cs2] pre spre Hk Hc H1 H2;
    try discriminate.
  - simpl. by rewrite !Z.add_0_r.
  - rewrite !bind_cons in *. rewrite for_each_cons.
    rewrite <- !(app_assoc (color.bytes _)) in *.
    rewrite OverlayWithOp_pixel_Ok.
    2: { rewrite !length_app in *. simpl in *. lia. }
    2: { rewrite !length_app in *. simpl in *. lia. }
    rewrite bind_Ok.
    specialize (IH cs1 cs2 (pre ++ color.bytes (apply_op P op c1 c2)) (spre ++ color.bytes c2)).
    rewrite <- !app_assoc, !length_app in IH. simpl length in IH.
    replace (Z.of_nat (length pre) + 4) with (Z.of_nat (length pre + 4)) by lia.
    replace (Z.of_nat (length spre) + 4) with (Z.of_nat (length spre + 4)) by lia.
    rewrite IH.
    + change (zip_with (apply_op P op) (c1 :: cs1) (c2 :: cs2))
        with (apply_op P op c1 c2 :: zip_with (apply_op P op) cs1 cs2).
      rewrite bind_cons, <- app_assoc. simpl length. do 2 f_equal; [f_equal|]; lia.
    + simpl in Hk. lia.
    + simpl in Hc. lia.
    + rewrite !length_app in *. simpl in *. lia.
    + rewrite !length_app in *. simpl in *. lia.
Qed.

(** ** Pixel grids *)

Lemma pixels_grid (img : Image.t) (r : Rectangle.t) :
  pixels img r
  = grid img (Point.X (Rectangle.Min r)) (Point.Y (Rectangle.Min r))
      (Point.X (Rectangle.Max r) - Point.X (Rectangle.Min r))
      (Point.Y (Rectangle.Max r) - Point.Y (Rectangle.Min r)).
Proof.
  unfold pixels, grid, row_colors. apply list_bind_ext; [|done].
  intros y. by rewrite list_fmap_bind.
Qed.

Lemma row_colors_ext (img img' : Image.t) (x0 y n : Z) :
  (forall x, x0 <= x < x0 + n -> Image.At img x y = Image.At img' x y) ->
  row_colors img x0 y n = row_colors img' x0 y n.
Proof.
  intros H. apply list_fmap_ext. intros i x Hx. apply lookup_seqZ in Hx. apply H. lia.
Qed.

Lemma length_row_colors (img : Image.t) (x0 y n : Z) :
  length (row_colors img x0 y n) = Z.to_nat n.
Proof. unfold row_colors. by rewrite length_fmap, length_seqZ. Qed.

Lemma length_colors_bytes (cs : list color.NRGBA) :
  length (cs ≫= color.bytes) = (4 * length cs)%nat.
Proof. induction cs as [|c cs IH]; [done|]. rewrite bind_cons, length_app, IH. simpl. lia. Qed.

Lemma row_colors_app (img : Image.t) (x0 y n1 n2 : Z) :
  0 <= n1 -> 0 <= n2 ->
  row_colors img x0 y (n1 + n2) = row_colors img x0 y n1 ++ row_colors img (x0 + n1) y n2.
Proof. intros. unfold row_colors. by rewrite seqZ_app, fmap_app. Qed.

Lemma grid_ext (img img' : Image.t) (x0 y0 wd ht : Z) :
  (forall x y, x0 <= x < x0 + wd -> y0 <= y < y0 + ht -> Image.At img x y = Image.At img' x y) ->
  grid img x0 y0 wd ht = grid img' x0 y0 wd ht.
Proof.
  intros H. unfold grid. apply Forall_bind_ext, Forall_forall. intros y Hy.
  apply list_elem_of_lookup in Hy as [i Hi]. apply lookup_seqZ in Hi.
  f_equal. apply row_colors_ext. intros. apply H; lia.
Qed.

Lemma grid_app (img : Image.t) (x0 y0 wd h1 h2 : Z) :
  0 <= h1 -> 0 <= h2 ->
  grid img x0 y0 wd (h1 + h2) = grid img x0 y0 wd h1 ++ grid img x0 (y0 + h1) wd h2.
Proof. intros. unfold grid. by rewrite seqZ_app, bind_app. Qed.

Lemma grid_one (img : Image.t) (x0 y0 wd : Z) :
  grid img x0 y0 wd 1 = row_colors img x0 y0 wd ≫= color.bytes.
Proof. unfold grid. rewrite seqZ_cons, seqZ_nil by lia. simpl. by rewrite app_nil_r. Qed.

Lemma length_grid (img : Image.t) (x0 y0 wd ht : Z) :
  0 <= wd -> 0 <= ht -> Z.of_nat (length (grid img x0 y0 wd ht)) = 4 * wd * ht.
Proof.
  intros Hw Hh. unfold grid.
  assert (forall (n : nat) y, Z.of_nat (length (seqZ y (Z.of_nat n) ≫= fun y =>
            row_colors img x0 y wd ≫= color.bytes)) = 4 * wd * Z.of_nat n) as Hn.
  { induction n as [|n IH]; intros y; [simpl; lia|].
    rewrite seqZ_S, bind_app, length_app, Nat2Z.inj_add, IH.
    simpl. rewrite app_nil_r, length_colors_bytes, length_row_colors. lia. }
  specialize (Hn (Z.to_nat ht) y0). rewrite Z2Nat.id in Hn by lia. done.
Qed.

Lemma grid_split (img : Image.t) (x0 y0 wd ht x y n : Z) :
  0 <= y < ht -> 0 <= x -> 0 <= n -> x + n <= wd ->
  grid img x0 y0 wd ht
  = grid_pre img x0 y0 wd x y
    ++ (row_colors img (x0 + x) (y0 + y) n ≫= color.bytes)
    ++ grid_post img x0 y0 wd ht x y n.
Proof.
  intros Hy Hx Hn Hw. unfold grid_pre, grid_post.
  replace ht with (y + (1 + (ht - y - 1))) at 1 by lia.
  rewrite grid_app, grid_app, grid_one by lia.
  replace wd with (x + (n + (wd - x - n))) at 2 by lia.
  rewrite row_colors_app, row_colors_app, !bind_app by lia.
  rewrite <- !app_assoc. repeat f_equal; lia.
Qed.

Lemma length_grid_pre (img : Image.t) (x0 y0 wd x y : Z) :
  0 <= wd -> 0 <= y -> 0 <= x ->
  Z.of_nat (length (grid_pre img x0 y0 wd x y)) = 4 * (y * wd + x).
Proof.
  intros. unfold grid_pre.
  rewrite length_app, Nat2Z.inj_add, length_grid, length_colors_bytes, length_row_colors by lia.
  lia.
Qed.

(** Replacing the colours of a row segment gives the grid of any image
    that has these colours there and agrees elsewhere. *)
Lemma grid_update (img img' : Image.t) (x0 y0 wd ht x y n : Z) :
  0 <= y < ht -> 0 <= x -> 0 <= n -> x + n <= wd ->
  (forall x' y', x0 <= x' < x0 + wd -> y0 <= y' < y0 + ht ->
     ~ (y' = y0 + y /\ x0 + x <= x' < x0 + x + n) ->
     Image.At img x' y' = Image.At img' x' y') ->
  grid_pre img x0 y0 wd x y
  ++ (row_colors img' (x0 + x) (y0 + y) n ≫= color.bytes)
  ++ grid_post img x0 y0 wd ht x y n
  = grid img' x0 y0 wd ht.
Proof.
  intros Hy Hx Hn Hw Hagree.
  rewrite (grid_split img' x0 y0 wd ht x y n) by lia.
  unfold grid_pre, grid_post. f_equal; [f_equal|f_equal; f_equal].
  - apply grid_ext. intros. apply Hagree; lia.
  - f_equal. apply row_colors_ext. intros. apply Hagree; lia.
  - f_equal. apply row_colors_ext. intros. apply Hagree; lia.
  - apply grid_ext. intros. apply Hagree; lia.
Qed.

(** ** Rows laid over a background *)

Lemma covered_spec (r : Rectangle.t) (x y : Z) :
  covered r x y = true <-> Rectangle.contains r x y.
Proof.
  unfold covered, Rectangle.contains.
  rewrite !andb_true_iff, !Z.leb_le, !Z.ltb_lt. tauto.
Qed.

Section Rows.
Context {St : Type} (get : St -> list byte) (J : St -> Prop).
Variable body : Z -> St -> result St.
Variable f : color.NRGBA -> color.NRGBA -> color.NRGBA.
Variable background : Image.t.
Variable g : Z -> Z -> color.NRGBA.
Variables ix0 iy0 ix1 iy1 : Z.

Let bx := Point.X (Rectangle.Min (Image.Bounds background)).
Let by_ := Point.Y (Rectangle.Min (Image.Bounds background)).
Let r := {| Rectangle.Min := Pt ix0 iy0; Rectangle.Max := Pt ix1 iy1 |}.

Hypothesis Hw : 0 <= width background.
Hypothesis Hh : 0 <= height background.
Hypothesis Hx : 0 <= ix0 /\ ix0 <= ix1 /\ ix1 <= width background.
Hypothesis Hy : 0 <= iy0 /\ iy0 <= iy1 /\ iy1 <= height background.

(** What a row body has to do: replace the segment of row [y]. *)
Hypothesis Hbody : forall (y : Z) (st : St) (pre post : list byte),
  iy0 <= y < iy1 -> J st ->
  get st = pre ++ (row_colors background (bx + ix0) (by_ + y) (ix1 - ix0) ≫= color.bytes)
               ++ post ->
  Z.of_nat (length pre) = 4 * (y * width background + ix0) ->
  Z.of_nat (length (get st)) = 4 * width background * height background ->
  exists st', body y st = Ok st' /\ J st'
    /\ get st' = pre ++ (((fun x => f (Image.At background x (by_ + y)) (g x (by_ + y)))
                           <$> seqZ (bx + ix0) (ix1 - ix0)) ≫= color.bytes) ++ post.

Lemma rows_Ok (st0 : St) :
  J st0 ->
  get st0 = grid background bx by_ (width background) (height background) ->
  exists st', for_each (seqZ iy0 (iy1 - iy0)) body st0 = Ok st' /\ J st'
    /\ get st' = grid (overlaid_upto f background g r iy1) bx by_
                   (width background) (height background).
Proof.
  intros HJ Hget.
  destruct (for_each_inv
    (fun k st => J st /\
       get st = grid (overlaid_upto f background g r (iy0 + Z.of_nat k)) bx by_
                  (width background) (height background))
    (seqZ iy0 (iy1 - iy0)) body st0) as (st' & Hst' & HJ' & Hget').
  - split; [done|]. rewrite Hget. apply grid_ext. intros x y _ _.
    unfold overlaid_upto, covered. simpl. fold bx by_.
    destruct (Z.leb_spec iy0 (y - by_)), (Z.ltb_spec (y - by_) (iy0 + Z.of_nat 0));
      rewrite ?andb_false_r; try done; lia.
  - intros k y st Hk [HJs Hgs]. apply lookup_seqZ in Hk as [-> Hk].
    set (y := iy0 + Z.of_nat k) in *.
    set (cur := overlaid_upto f background g r y) in *.
    assert (Hlen : Z.of_nat (length (get st)) = 4 * width background * height background)
      by (rewrite Hgs; apply length_grid; lia).
    rewrite (grid_split cur bx by_ (width background) (height background) ix0 y (ix1 - ix0))
      in Hgs by lia.
    assert (Hrow : row_colors cur (bx + ix0) (by_ + y) (ix1 - ix0)
                   = row_colors background (bx + ix0) (by_ + y) (ix1 - ix0)).
    { apply row_colors_ext. intros x _. unfold cur, overlaid_upto. simpl. fold bx by_.
      destruct (Z.ltb_spec (by_ + y - by_) y); [lia|]. by rewrite andb_false_r. }
    rewrite Hrow in Hgs.
    destruct (Hbody y st _ _ ltac:(lia) HJs Hgs) as (st' & Hb & HJ' & Hg');
      [by rewrite length_grid_pre by lia|done|].
    exists st'. split; [done|]. split; [done|]. rewrite Hg'.
    replace (iy0 + Z.of_nat (S k)) with (y + 1) by lia.
    rewrite <- (grid_update cur (overlaid_upto f background g r (y + 1))
                  bx by_ (width background) (height background) ix0 y (ix1 - ix0)) by
      (try lia; intros x' y' Hx' Hy' Hn; unfold cur, overlaid_upto, covered; simpl;
       fold bx by_;
       destruct (Z.ltb_spec (y' - by_) y), (Z.ltb_spec (y' - by_) (y + 1));
       rewrite ?andb_false_r, ?andb_true_r; try done; try lia;
       destruct (Z.leb_spec ix0 (x' - bx)), (Z.ltb_spec (x' - bx) ix1);
       simpl; try done; lia).
    do 3 f_equal. unfold row_colors. apply list_fmap_ext. intros i x Hi.
    apply lookup_seqZ in Hi as [-> Hi]. unfold overlaid_upto, covered. simpl. fold bx by_.
    destruct (Z.leb_spec ix0 (bx + ix0 + Z.of_nat i - bx)); [|lia].
    destruct (Z.ltb_spec (bx + ix0 + Z.of_nat i - bx) ix1); [|lia].
    destruct (Z.leb_spec iy0 (by_ + y - by_)); [|lia].
    destruct (Z.ltb_spec (by_ + y - by_) iy1); [|lia].
    destruct (Z.ltb_spec (by_ + y - by_) (y + 1)); [|lia]. done.
  - exists st'. rewrite length_seqZ in Hget'.
    replace (iy0 + Z.of_nat (Z.to_nat (iy1 - iy0))) with iy1 in Hget' by lia. done.
Qed.
End Rows.

(** ** The geometry of [Paste] and [Overlay] *)

(** One axis of [interRect]: [p] is the position, [s] the size of the
    foreground, [wd] the size of the background. *)
Lemma paste_axis (p s wd lo hi : Z) :
  Int.in_range p -> 0 <= s <= Int.max_int -> 0 <= wd <= Int.max_int ->
  lo = Z.max p 0 -> hi = Z.min (p [+] s) wd -> lo < hi ->
  0 <= lo /\ hi <= wd /\ lo [-] p = lo - p /\ hi [-] p = hi - p
  /\ 0 <= lo - p /\ hi - p <= s /\ hi [-] lo = hi - lo.
Proof. intros. wrap_lia. Qed.

Lemma fmap_seqZ_shift {A} (h1 h2 : Z -> A) (a b n : Z) :
  (forall k, 0 <= k < n -> h1 (a + k) = h2 (b + k)) ->
  h1 <$> seqZ a n = h2 <$> seqZ b n.
Proof.
  intros H. apply list_eq. intros i. rewrite !list_lookup_fmap.
  destruct (Z.lt_ge_cases (Z.of_nat i) n).
  - rewrite !lookup_seqZ_lt by lia. simpl. f_equal. apply H. lia.
  - by rewrite !lookup_seqZ_ge by lia.
Qed.

Lemma zip_with_seqZ {A B C} (f : A -> B -> C) (h1 : Z -> A) (h2 : Z -> B) (a b n : Z) :
  zip_with f (h1 <$> seqZ a n) (h2 <$> seqZ b n)
  = (fun x => f (h1 x) (h2 (x - a + b))) <$> seqZ a n.
Proof.
  rewrite (fmap_seqZ_shift h2 (fun x => h2 (x - a + b)) b a n)
    by (intros; f_equal; lia).
  rewrite zip_with_fmap_l, zip_with_fmap_r, zip_with_diag. done.
Qed.

Lemma scan_row_colors (img : Image.t) (x1 y x2 : Z) :
  scan_row (newScanner img) x1 y x2
  = ((fun x => Image.At img (Point.X (Rectangle.Min (Image.Bounds img)) + x)
                 (Point.Y (Rectangle.Min (Image.Bounds img)) + y)) <$> seqZ x1 (x2 - x1))
    ≫= color.bytes.
Proof. unfold scan_row. by rewrite list_fmap_bind. Qed.

Lemma list_inserts_segment {A} (pre seg post new : list A) :
  length new = length seg ->
  list_inserts (length pre) new (pre ++ seg ++ post) = pre ++ new ++ post.
Proof.
  intros H. rewrite <- (Nat.add_0_r (length pre)), list_inserts_app_r.
  by rewrite list_inserts_0_r.
Qed.

Lemma wf_Size (img : Image.t) :
  wf_image img -> Rectangle.Size (Image.Bounds img) = Pt (width img) (height img).
Proof.
  intros []. unfold Rectangle.Size, Rectangle.Dx, Rectangle.Dy, width, height in *.
  int_norm. done.
Qed.

(** [interRect] is the zero rectangle, or lies in both images. *)
Lemma interRect_cases (background img : Image.t) (pos : Point.t) :
  wf_image background -> wf_image img ->
  let p := Rectangle.Min (pasteRect background img pos) in
  let r := interRect background img pos in
  (r = Rectangle.ZR /\ Rectangle.Empty r = true)
  \/ (Rectangle.Empty r = false
      /\ (let lo := Point.X (Rectangle.Min r) in
          let hi := Point.X (Rectangle.Max r) in
          lo < hi /\ 0 <= lo /\ hi <= width background
          /\ lo [-] Point.X p = lo - Point.X p /\ hi [-] Point.X p = hi - Point.X p
          /\ 0 <= lo - Point.X p /\ hi - Point.X p <= width img /\ hi [-] lo = hi - lo)
      /\ (let lo := Point.Y (Rectangle.Min r) in
          let hi := Point.Y (Rectangle.Max r) in
          lo < hi /\ 0 <= lo /\ hi <= height background
          /\ lo [-] Point.Y p = lo - Point.Y p /\ hi [-] Point.Y p = hi - Point.Y p
          /\ 0 <= lo - Point.Y p /\ hi - Point.Y p <= height img /\ hi [-] lo = hi - lo)).
Proof.
  intros Hb Hf. cbv zeta. unfold interRect.
  pose proof (Intersect_cases (pasteRect background img pos) (cloneBounds background)) as HI.
  cbv zeta in HI.
  destruct HI as [HI|(He & Hx0 & Hy0 & Hx1 & Hy1 & Hx & Hy)]; [by left|right].
  split; [done|].
  unfold pasteRect in *. rewrite wf_Size in * by done.
  unfold cloneBounds, Point.Add, Point.Sub in *. psimpl.
  destruct Hb as [Hbw Hbh Hbs Hbl], Hf as [Hfw Hfh Hfs Hfl].
  split.
  - split; [done|].
    apply (paste_axis _ (width img) (width background)); try done;
      try apply wrap_in_range; unfold Int.max_int in *; lia.
  - split; [done|].
    apply (paste_axis _ (height img) (height background)); try done;
      try apply wrap_in_range; unfold Int.max_int in *; lia.
Qed.

Lemma sub_between (lo hi p y : Z) :
  lo [-] p = lo - p -> hi [-] p = hi - p -> lo <= y <= hi -> y [-] p = y - p.
Proof. intros. wrap_lia. Qed.

Lemma Paste_row_Ok (img : Image.t) (wd ht : Z) (pix0 : list byte) (px py ix0 iy0 ix1 iy1 y : Z)
    (pmax : Point.t) (pre seg post : list byte) :
  wf_image img -> row_geometry img wd ht px py ix0 iy0 ix1 iy1 y ->
  Z.of_nat (length pre) = 4 * (y * wd + ix0) ->
  Z.of_nat (length seg) = 4 * (ix1 - ix0) ->
  Z.of_nat (length (pre ++ seg ++ post)) = 4 * wd * ht ->
  Paste_row (newScanner img) (buffer wd ht pix0)
    {| Rectangle.Min := Pt px py; Rectangle.Max := pmax |}
    {| Rectangle.Min := Pt ix0 iy0; Rectangle.Max := Pt ix1 iy1 |} y (pre ++ seg ++ post)
  = Ok (pre ++ scan_row (newScanner img) (ix0 - px) (y - py) (ix1 - px) ++ post).
Proof.
  intros Hwf [Hwd Hht Hl Hx Hy Ex0 Ex1 Hfx Edx Ey0 Hfy] Hpre Hseg Hlen. pose proof Hwf as [Hfw Hfh Hfs Hfl].
  unfold Paste_row, Rectangle.Dx, buffer. psimpl.
  rewrite Ex0, Ex1, Edx, Ey0.
  assert (0 <= y * (4 * wd) /\ y * (4 * wd) + wd * 4 <= 4 * wd * ht)
    as [Hb1 Hb2] by (apply row_bounds; lia).
  rewrite !length_app in Hlen.
  int_norm.
  rewrite scan_Ok; rewrite ?newScanner_w, ?newScanner_h by done; try lia.
  - replace (Z.to_nat (y * (4 * wd) + ix0 * 4)) with (length pre) by lia.
    rewrite list_inserts_segment; [done|]. rewrite length_scan_row. lia.
  - rewrite !length_app. lia.
Qed.

Lemma OverlayWithOp_row_Ok (P : Platform) (op : OverlayOp) (img : Image.t) (wd ht : Z)
    (pix0 : list byte) (px py ix0 iy0 ix1 iy1 y : Z) (pmax : Point.t)
    (pre post scanLine : list byte) (cs1 : list color.NRGBA) :
  wf_image img -> row_geometry img wd ht px py ix0 iy0 ix1 iy1 y ->
  Z.of_nat (length pre) = 4 * (y * wd + ix0) ->
  Z.of_nat (length cs1) = ix1 - ix0 ->
  Z.of_nat (length scanLine) = 4 * (ix1 - ix0) ->
  Z.of_nat (length (pre ++ (cs1 ≫= color.bytes) ++ post)) = 4 * wd * ht ->
  let cs2 := (fun x => Image.At img (Point.X (Rectangle.Min (Image.Bounds img)) + x)
                         (Point.Y (Rectangle.Min (Image.Bounds img)) + (y - py)))
             <$> seqZ (ix0 - px) (ix1 - ix0) in
  OverlayWithOp_row P op (newScanner img) (buffer wd ht pix0)
    {| Rectangle.Min := Pt px py; Rectangle.Max := pmax |}
    {| Rectangle.Min := Pt ix0 iy0; Rectangle.Max := Pt ix1 iy1 |} y
    (pre ++ (cs1 ≫= color.bytes) ++ post, scanLine)
  = Ok (pre ++ (zip_with (apply_op P op) cs1 cs2 ≫= color.bytes) ++ post,
        cs2 ≫= color.bytes).
Proof.
  intros Hwf [Hwd Hht Hl Hx Hy Ex0 Ex1 Hfx Edx Ey0 Hfy] Hpre Hcs Hsl Hlen cs2. pose proof Hwf as [Hfw Hfh Hfs Hfl].
  unfold OverlayWithOp_row, buffer. psimpl.
  rewrite Ex0, Ex1, Ey0.
  assert (0 <= y * (4 * wd) /\ y * (4 * wd) + wd * 4 <= 4 * wd * ht)
    as [Hb1 Hb2] by (apply row_bounds; lia).
  assert (Hcs2 : length cs2 = length cs1).
  { unfold cs2. rewrite length_fmap, length_seqZ. lia. }
  int_norm.
  rewrite scan_Ok; rewrite ?newScanner_w, ?newScanner_h by done; try lia.
  rewrite bind_Ok.
  assert (Hrow : list_inserts (Z.to_nat 0) (scan_row (newScanner img) (ix0 - px) (y - py) (ix1 - px))
                   scanLine = cs2 ≫= color.bytes).
  { rewrite scan_row_colors.
    replace (ix1 - px - (ix0 - px)) with (ix1 - ix0) by lia. fold cs2.
    rewrite <- (app_nil_r scanLine). change (Z.to_nat 0) with 0%nat.
    rewrite list_inserts_0_r, app_nil_r; [done|].
    rewrite length_colors_bytes. lia. }
  rewrite Hrow. unfold for_range.
  replace (y * (4 * wd) + ix0 * 4) with (Z.of_nat (length pre)) by lia.
  change 0 with (Z.of_nat (length (@nil byte))) at 1.
  rewrite <- (app_nil_r (cs2 ≫= color.bytes)).
  rewrite <- (app_nil_l ((cs2 ≫= color.bytes) ++ [])).
  rewrite OverlayWithOp_pixels_Ok.
  - done.
  - rewrite length_seqZ. lia.
  - done.
  - lia.
  - simpl. rewrite app_nil_r, length_colors_bytes. unfold Int.max_int in *. nia.
Qed.

Lemma grid_overlaid (f : color.NRGBA -> color.NRGBA -> color.NRGBA)
    (background img : Image.t) (pos : Point.t) :
  let r := interRect background img pos in
  grid (overlaid_upto f background (laid background img pos)
          {| Rectangle.Min := Pt (Point.X (Rectangle.Min r)) (Point.Y (Rectangle.Min r));
             Rectangle.Max := Pt (Point.X (Rectangle.Max r)) (Point.Y (Rectangle.Max r)) |}
          (Point.Y (Rectangle.Max r)))
    (Point.X (Rectangle.Min (Image.Bounds background)))
    (Point.Y (Rectangle.Min (Image.Bounds background)))
    (width background) (height background)
  = pixels (overlaid f background img pos) (Image.Bounds background).
Proof.
  intros r. rewrite pixels_grid. apply grid_ext. intros x y _ _.
  unfold overlaid_upto, overlaid, laid, covered. fold r. psimpl.
  destruct (_ <? Point.Y (Rectangle.Max r)); by rewrite ?andb_true_r, ?andb_false_r.
Qed.

Lemma pixels_overlaid_none (f : color.NRGBA -> color.NRGBA -> color.NRGBA)
    (background img : Image.t) (pos : Point.t) :
  interRect background img pos = Rectangle.ZR ->
  pixels (overlaid f background img pos) (Image.Bounds background)
  = pixels background (Image.Bounds background).
Proof.
  intros Hz. rewrite !pixels_grid. apply grid_ext. intros x y _ _.
  unfold overlaid, covered. rewrite Hz. unfold Rectangle.ZR. psimpl.
  destruct (Z.leb_spec 0 (x - Point.X (Rectangle.Min (Image.Bounds background)))),
    (Z.ltb_spec (x - Point.X (Rectangle.Min (Image.Bounds background))) 0); simpl; try done; lia.
Qed.

Lemma interRect_row_geometry (background img : Image.t) (pos : Point.t) (y : Z) :
  wf_image background -> wf_image img ->
  let p := Rectangle.Min (pasteRect background img pos) in
  let r := interRect background img pos in
  Rectangle.Empty r = false ->
  Point.Y (Rectangle.Min r) <= y < Point.Y (Rectangle.Max r) ->
  row_geometry img (width background) (height background) (Point.X p) (Point.Y p)
    (Point.X (Rectangle.Min r)) (Point.Y (Rectangle.Min r))
    (Point.X (Rectangle.Max r)) (Point.Y (Rectangle.Max r)) y.
Proof.
  intros Hb Hf p r He Hy.
  destruct (interRect_cases background img pos Hb Hf) as [[_ He']|(_ & HX & HY)];
    fold r in He' || fold p r in HX, HY; [congruence|].
  cbv zeta in HX, HY. destruct Hb.
  split; try lia.
  destruct HY as (? & ? & ? & E0 & E1 & ?). apply (sub_between _ _ _ _ E0 E1). lia.
Qed.

Lemma Pix_buffer (wd ht : Z) (pix : list byte) : NRGBA.Pix (buffer wd ht pix) = pix.
Proof. reflexivity. Qed.

Lemma Paste_Ok (background img : Image.t) (pos : Point.t) :
  wf_image background -> wf_image img ->
  Paste background img pos
  = Ok (buffer (width background) (height background)
          (pixels (overlaid (fun _ c => c) background img pos) (Image.Bounds background))).
Proof.
  intros Hb Hf. unfold Paste. rewrite Clone_Ok by done. rewrite bind_Ok. cbv zeta.
  change (Rectangle.Intersect _ (NRGBA.Bounds _)) with (interRect background img pos).
  change {| Rectangle.Min := Point.Sub pos _; Rectangle.Max := _ |}
    with (pasteRect background img pos).
  pose proof (interRect_cases background img pos Hb Hf) as HI. cbv zeta in HI.
  pose proof (interRect_row_geometry background img pos) as HG. cbv zeta in HG.
  pose proof (grid_overlaid (fun _ c => c) background img pos) as HO. cbv zeta in HO.
  pose proof (pixels_overlaid_none (fun _ c => c) background img pos) as HN.
  destruct (pasteRect background img pos) as [[px py] pmax] eqn:Hp.
  destruct (interRect background img pos) as [[ix0 iy0] [ix1 iy1]] eqn:Hr.
  psimpl.
  destruct HI as [[Hz He]|(He & HX & HY)]; rewrite He.
  - by rewrite HN.
  - rewrite parallel_some by (psimpl; lia). rewrite Pix_buffer.
    destruct (rows_Ok (fun pix => pix) (fun _ => True)
                (Paste_row (newScanner img)
                   (buffer (width background) (height background)
                      (pixels background (Image.Bounds background)))
                   {| Rectangle.Min := Pt px py; Rectangle.Max := pmax |}
                   {| Rectangle.Min := Pt ix0 iy0; Rectangle.Max := Pt ix1 iy1 |})
                (fun _ c => c) background (laid background img pos) ix0 iy0 ix1 iy1)
      with (st0 := pixels background (Image.Bounds background))
      as (pix & Hpix & _ & Hget).
    + by destruct Hb.
    + destruct Hb; lia.
    + lia.
    + lia.
    + intros y pix pre post Hy _ Hpix Hpre Hlen. rewrite Hpix in *.
      eexists. split; [|split; [done|reflexivity]].
      rewrite (Paste_row_Ok img); try done.
      * rewrite scan_row_colors.
        replace (ix1 - px - (ix0 - px)) with (ix1 - ix0) by lia.
        do 4 f_equal. symmetry.
        apply fmap_seqZ_shift. intros k Hk. unfold laid. rewrite Hp. psimpl.
        f_equal; lia.
      * apply HG; try done.
      * rewrite length_colors_bytes, length_row_colors. lia.
    + done.
    + apply pixels_grid.
    + unfold Pt in *. rewrite Hpix, bind_Ok. rewrite Hget, HO. done.
Qed.

Lemma OverlayWithOp_Ok (P : Platform) (background img : Image.t) (pos : Point.t)
    (op : OverlayOp) :
  wf_image background -> wf_image img ->
  OverlayWithOp P background img pos op
  = Ok (buffer (width background) (height background)
          (pixels (overlaid (apply_op P op) background img pos) (Image.Bounds background))).
Proof.
  intros Hb Hf. unfold OverlayWithOp. rewrite Clone_Ok by done. rewrite bind_Ok. cbv zeta.
  change (Rectangle.Intersect _ (NRGBA.Bounds _)) with (interRect background img pos).
  change {| Rectangle.Min := Point.Sub pos _; Rectangle.Max := _ |}
    with (pasteRect background img pos).
  pose proof (interRect_cases background img pos Hb Hf) as HI. cbv zeta in HI.
  pose proof (interRect_row_geometry background img pos) as HG. cbv zeta in HG.
  pose proof (grid_overlaid (apply_op P op) background img pos) as HO. cbv zeta in HO.
  pose proof (pixels_overlaid_none (apply_op P op) background img pos) as HN.
  destruct (pasteRect background img pos) as [[px py] pmax] eqn:Hp.
  destruct (interRect background img pos) as [[ix0 iy0] [ix1 iy1]] eqn:Hr.
  psimpl.
  destruct HI as [[Hz He]|(He & HX & HY)]; rewrite He.
  - by rewrite HN.
  - rewrite parallel_some by (psimpl; lia). rewrite Pix_buffer.
    unfold OverlayWithOp_worker, Rectangle.Dx. psimpl.
    destruct HX as (HX1 & HX2 & HX3 & HX4 & HX5 & HX6 & HX7 & HX8). rewrite HX8.
    pose proof Hb as [Hbw Hbh Hbs Hbl].
    int_norm. rewrite make_Some by lia. rewrite bind_Ok.
    destruct (rows_Ok (fun st : list byte * list byte => st.1)
                (fun st => Z.of_nat (length st.2) = 4 * (ix1 - ix0))
                (OverlayWithOp_row P op (newScanner img)
                   (buffer (width background) (height background)
                      (pixels background (Image.Bounds background)))
                   {| Rectangle.Min := Pt px py; Rectangle.Max := pmax |}
                   {| Rectangle.Min := Pt ix0 iy0; Rectangle.Max := Pt ix1 iy1 |})
                (apply_op P op) background (laid background img pos) ix0 iy0 ix1 iy1)
      with (st0 := (pixels background (Image.Bounds background),
                    replicate (Z.to_nat ((ix1 - ix0) * 4)) x00))
      as ([pix sl] & Hpix & _ & Hget).
    + done.
    + lia.
    + lia.
    + lia.
    + intros y [pix sl] pre post Hy HJ Hpix Hpre Hlen. simpl in HJ, Hpix, Hlen. subst pix.
      eexists (_, _). split; [|split; [|reflexivity]].
      * rewrite (OverlayWithOp_row_Ok P op img); try done.
        -- do 4 f_equal. unfold row_colors. rewrite zip_with_seqZ. f_equal.
           apply list_fmap_ext. intros i x Hx. apply lookup_seqZ in Hx as [-> Hx].
           f_equal. unfold laid. rewrite Hp. psimpl. f_equal; lia.
        -- apply HG; try done.
        -- rewrite length_row_colors. lia.
      * simpl. rewrite length_colors_bytes, length_fmap, length_seqZ. lia.
    + simpl. rewrite length_replicate. lia.
    + apply pixels_grid.
    + unfold Pt in *. rewrite Hpix, !bind_Ok. simpl in Hget. rewrite Hget, HO. done.
Qed.

Lemma Overlay_pixel_op (P : Platform) (opacity : float) :
  Overlay_pixel P opacity = OverlayWithOp_pixel P (OpBlend opacity).
Proof. reflexivity. Qed.

Lemma Overlay_worker_op (P : Platform) (opacity : float) :
  Overlay_worker P opacity = OverlayWithOp_worker P (OpBlend opacity).
Proof.
  unfold Overlay_worker, OverlayWithOp_worker, Overlay_row, OverlayWithOp_row.
  rewrite Overlay_pixel_op. reflexivity. Qed.

Lemma Overlay_OverlayWithOp (P : Platform) (background img : Image.t) (pos : Point.t)
    (opacity : float) :
  Overlay P background img pos opacity
  = OverlayWithOp P background img pos (OpBlend (clamp_opacity opacity)).
Proof. unfold Overlay, OverlayWithOp. rewrite Overlay_worker_op. reflexivity. Qed.

Lemma Overlay_Ok (P : Platform) (background img : Image.t) (pos : Point.t) (opacity : float) :
  wf_image background -> wf_image img ->
  Overlay P background img pos opacity
  = Ok (buffer (width background) (height background)
          (pixels (overlaid (apply_op P (OpBlend (clamp_opacity opacity))) background img pos)
             (Image.Bounds background))).
Proof. intros. rewrite Overlay_OverlayWithOp. by apply OverlayWithOp_Ok. Qed.

(** ** Facts over all bytes, by enumeration *)

Lemma all_bytes_complete (b : byte) : b ∈ all_bytes.
Proof.
  apply list_elem_of_fmap. exists (Z.of_N (Byte.to_N b)). split.
  - unfold Float64.byte_of_Z. by rewrite N2Z.id, Byte.of_to_N.
  - apply elem_of_seqZ. pose proof (Byte.to_N_bounded b). lia.
Qed.

Lemma forall_bytes (f : byte -> bool) :
  forallb f all_bytes = true -> forall b, f b = true.
Proof.
  intros H b. rewrite forallb_forall in H. apply H, list_elem_of_In, all_bytes_complete.
Qed.

Lemma forall_bytes2 (f : byte -> byte -> bool) :
  forallb (fun a => forallb (f a) all_bytes) all_bytes = true -> forall a b, f a b = true.
Proof. intros H a. apply forall_bytes. revert a. by apply forall_bytes. Qed.

Lemma float_pair_eqb_eq (p q : float * float) : float_pair_eqb p q = true -> p = q.
Proof.
  destruct p, q. unfold float_pair_eqb. simpl. intros [H1 H2]%andb_true_iff.
  apply FloatAxioms.Leibniz.eqb_spec in H1, H2. by subst.
Qed.

Lemma apply_op_OpBlend (P : Platform) (opacity : float) (c1 c2 : color.NRGBA) :
  apply_op P (OpBlend opacity) c1 c2
  = let coefs := blend_coefs opacity (Float64.of_uint8 (color.A c1))
                   (Float64.of_uint8 (color.A c2)) in
    {| color.R := blend_channel P coefs (color.R c1) (color.R c2);
       color.G := blend_channel P coefs (color.G c1) (color.G c2);
       color.B := blend_channel P coefs (color.B c1) (color.B c2);
       color.A := blend_alpha P opacity (color.A c1) (color.A c2) |}.
Proof. reflexivity. Qed.

Lemma clamp_opacity_0 : clamp_opacity 0 = 0%float.
Proof. reflexivity. Qed.

Lemma clamp_opacity_1 : clamp_opacity 1 = 1%float.
Proof. reflexivity. Qed.

Lemma of_uint8_mul_0 (b : byte) : (Float64.of_uint8 b * 0)%float = 0%float.
Proof.
  apply FloatAxioms.Leibniz.eqb_spec.
  apply (forall_bytes (fun b => PrimFloat.Leibniz.eqb (Float64.of_uint8 b * 0)%float 0%float)).
  vm_compute. reflexivity.
Qed.

Lemma zero_mul_of_uint8 (b : byte) : (0 * Float64.of_uint8 b)%float = 0%float.
Proof.
  apply FloatAxioms.Leibniz.eqb_spec.
  apply (forall_bytes (fun b => PrimFloat.Leibniz.eqb (0 * Float64.of_uint8 b)%float 0%float)).
  vm_compute. reflexivity.
Qed.

Lemma of_uint8_mul_1 (b : byte) : (Float64.of_uint8 b * 1)%float = Float64.of_uint8 b.
Proof.
  apply FloatAxioms.Leibniz.eqb_spec.
  apply (forall_bytes (fun b =>
           PrimFloat.Leibniz.eqb (Float64.of_uint8 b * 1)%float (Float64.of_uint8 b))).
  vm_compute. reflexivity.
Qed.

(** The coefficients of [OpBlend] after [coef2 := opacity * a2 / 255]. *)
Lemma blend_coefs_from (opacity a1 a2 : float) :
  blend_coefs opacity a1 a2
  = let coef2 := (opacity * a2 / 255)%float in
    let coef1 := ((1 - coef2) * a1 / 255)%float in
    ((coef1 / (coef1 + coef2))%float, (coef2 / (coef1 + coef2))%float).
Proof. reflexivity. Qed.

(** With opacity 0 and a background alpha that is not 0 the background
    has weight 1. *)
Lemma blend_coefs_0 (a1 a2 : byte) :
  a1 <> x00 ->
  blend_coefs 0 (Float64.of_uint8 a1) (Float64.of_uint8 a2) = (1%float, 0%float).
Proof.
  intros Ha. rewrite blend_coefs_from, zero_mul_of_uint8. apply float_pair_eqb_eq.
  pose proof (forall_bytes (fun a1 =>
    Byte.eqb a1 x00
    || float_pair_eqb
         (let coef2 := (0 / 255)%float in
          let coef1 := ((1 - coef2) * Float64.of_uint8 a1 / 255)%float in
          ((coef1 / (coef1 + coef2))%float, (coef2 / (coef1 + coef2))%float))
         (1%float, 0%float)) ltac:(vm_compute; reflexivity) a1) as H.
  apply orb_true_iff in H as [H|H]; [|done]. by apply Byte.byte_dec_bl in H.
Qed.

(** A fully transparent foreground at opacity 1 leaves the weight 1 to a
    background whose alpha is not 0. *)
Lemma blend_coefs_1_transparent (a1 : byte) :
  a1 <> x00 ->
  blend_coefs 1 (Float64.of_uint8 a1) (Float64.of_uint8 x00) = (1%float, 0%float).
Proof.
  intros Ha. apply float_pair_eqb_eq.
  pose proof (forall_bytes (fun a1 =>
    Byte.eqb a1 x00
    || float_pair_eqb (blend_coefs 1 (Float64.of_uint8 a1) (Float64.of_uint8 x00))
         (1%float, 0%float)) ltac:(vm_compute; reflexivity) a1) as H.
  apply orb_true_iff in H as [H|H]; [|done]. by apply Byte.byte_dec_bl in H.
Qed.

(** A fully opaque foreground at opacity 1 has weight 1. *)
Lemma blend_coefs_1_opaque (a1 : byte) :
  blend_coefs 1 (Float64.of_uint8 a1) (Float64.of_uint8 xff) = (0%float, 1%float).
Proof.
  apply float_pair_eqb_eq.
  apply (forall_bytes (fun a1 =>
    float_pair_eqb (blend_coefs 1 (Float64.of_uint8 a1) (Float64.of_uint8 xff))
      (0%float, 1%float))). vm_compute. reflexivity.
Qed.

Lemma blend_channel_1_0 (P : Platform) (v1 v2 : byte) :
  blend_channel P (1%float, 0%float) v1 v2 = v1.
Proof.
  unfold blend_channel. cbn [fst snd]. rewrite of_uint8_mul_0, of_uint8_mul_1.
  apply Byte.byte_dec_bl.
  apply (forall_bytes (fun v1 =>
           Byte.eqb (Float64.to_uint8 P (Float64.of_uint8 v1 + 0)%float) v1)).
  vm_compute. reflexivity.
Qed.

Lemma blend_channel_0_1 (P : Platform) (v1 v2 : byte) :
  blend_channel P (0%float, 1%float) v1 v2 = v2.
Proof.
  unfold blend_channel. cbn [fst snd]. rewrite of_uint8_mul_0, of_uint8_mul_1.
  apply Byte.byte_dec_bl.
  apply (forall_bytes (fun v2 =>
           Byte.eqb (Float64.to_uint8 P (0 + Float64.of_uint8 v2)%float) v2)).
  vm_compute. reflexivity.
Qed.

Lemma blend_alpha_0 (P : Platform) (a1 a2 : byte) : blend_alpha P 0 a1 a2 = a1.
Proof.
  unfold blend_alpha. rewrite of_uint8_mul_0.
  apply Byte.byte_dec_bl.
  apply (forall_bytes (fun a1 =>
           Byte.eqb (Float64.to_uint8 P
                       (math.Min (Float64.of_uint8 a1
                                  + 0 * (255 - Float64.of_uint8 a1) / 255)%float 255%float))
             a1)).
  vm_compute. reflexivity.
Qed.

Lemma blend_alpha_1_transparent (P : Platform) (a1 : byte) : blend_alpha P 1 a1 x00 = a1.
Proof.
  apply Byte.byte_dec_bl.
  apply (forall_bytes (fun a1 => Byte.eqb (blend_alpha P 1 a1 x00) a1)).
  vm_compute. reflexivity.
Qed.

Lemma blend_alpha_1_opaque (P : Platform) (a1 : byte) : blend_alpha P 1 a1 xff = xff.
Proof.
  apply Byte.byte_dec_bl.
  apply (forall_bytes (fun a1 => Byte.eqb (blend_alpha P 1 a1 xff) xff)).
  vm_compute. reflexivity.
Qed.

(** ** The clamp of the opacity *)

Lemma Prim2SF_0 : Prim2SF 0 = S754_zero false.
Proof. reflexivity. Qed.

Lemma Prim2SF_1 : Prim2SF 1 = S754_finite false 4503599627370496 (-52).
Proof. reflexivity. Qed.

Lemma Prim2SF_neg_max :
  Prim2SF (- math.MaxFloat64) = S754_finite true 9007199254740991 971.
Proof. reflexivity. Qed.

(** Case analysis on a float compared with constants: only the
    constructors and the signs are looked at. *)
Ltac float_cases p :=
  rewrite ?FloatAxioms.eqb_spec, ?FloatAxioms.ltb_spec;
  unfold SFeqb, SFltb; rewrite ?Prim2SF_0, ?Prim2SF_1, ?Prim2SF_neg_max;
  destruct (Prim2SF p) as [[]|[]| |[] ? ?];
  cbv beta iota delta [SFcompare]; try discriminate; try reflexivity.

Lemma eqb_0_not_neg_inf (p : float) :
  (p =? 0)%float = true -> (p <? - math.MaxFloat64)%float = false.
Proof. float_cases p. Qed.

Lemma ltb_0_not_neg_inf (p : float) :
  (0 <? p)%float = true -> (p <? - math.MaxFloat64)%float = false.
Proof. float_cases p. Qed.

Lemma eqb_0_not_1 (p : float) : (p =? 0)%float = true -> (p =? 1)%float = false.
Proof. float_cases p. Qed.

(** [math.Min p 1] for a [p] that is 0 or above 0. *)
Lemma Min_1_cases (p : float) :
  (p =? 0)%float = true \/ (0 <? p)%float = true ->
  math.Min p 1 = p \/ math.Min p 1 = 1%float \/ math.Min p 1 = nan.
Proof.
  intros Hp. unfold math.Min.
  assert (E5 : math.IsInf p (-1) || math.IsInf 1 (-1) = false).
  { unfold math.IsInf.
    destruct Hp as [Hp|Hp];
      [apply eqb_0_not_neg_inf in Hp|apply ltb_0_not_neg_inf in Hp]; rewrite Hp;
      by rewrite !andb_false_r. }
  rewrite E5. destruct (math.IsNaN p || math.IsNaN 1); [tauto|].
  destruct (p =? 0)%float eqn:E3.
  - rewrite (eqb_0_not_1 p E3). simpl. destruct (p <? 1)%float; tauto.
  - simpl. destruct (p <? 1)%float; tauto.
Qed.

(** The clamp answers its argument, 0, 1 or NaN. *)
Lemma clamp_opacity_cases (p : float) :
  clamp_opacity p = p \/ clamp_opacity p = 0%float \/ clamp_opacity p = 1%float
  \/ clamp_opacity p = nan.
Proof.
  unfold clamp_opacity, math.Max.
  destruct (math.IsInf p 1 || math.IsInf 0 1); [right; right; left; reflexivity|].
  destruct (math.IsNaN p || math.IsNaN 0); [right; right; right; reflexivity|].
  destruct (p =? 0)%float eqn:E3; simpl.
  - destruct (math.Signbit p); [right; left; reflexivity|].
    destruct (Min_1_cases p ltac:(tauto)) as [-> | [-> | ->]]; tauto.
  - destruct (0 <? p)%float eqn:E4; [|right; left; reflexivity].
    destruct (Min_1_cases p ltac:(tauto)) as [-> | [-> | ->]]; tauto.
Qed.

(** Clamping twice is clamping once, for every [float64]: the
    infinities and NaN included. *)
Lemma clamp_opacity_idem (p : float) :
  clamp_opacity (clamp_opacity p) = clamp_opacity p.
Proof.
  destruct (clamp_opacity_cases p) as [H|[H|[H|H]]]; rewrite !H; reflexivity.
Qed.

(** * [Overlay], [Paste] and [Clone] *)

(** The foreground pixel laid over an overlapped background pixel is a
    pixel of the foreground. *)
Lemma overlapped_foreground (background img : Image.t) (pos : Point.t) (x y : Z) :
  wf_image background -> wf_image img ->
  overlapped background img pos x y ->
  let b := Rectangle.Min (Image.Bounds background) in
  let m := Rectangle.Min (Image.Bounds img) in
  let p := Rectangle.Min (pasteRect background img pos) in
  Rectangle.contains (Image.Bounds img)
    (Point.X m + (x - Point.X b - Point.X p)) (Point.Y m + (y - Point.Y b - Point.Y p)).
Proof.
  intros Hb Hf Ho. cbv zeta. unfold overlapped, Rectangle.contains in *.
  destruct (interRect_cases background img pos Hb Hf) as [[Hz _]|(_ & HX & HY)].
  - rewrite Hz in Ho. unfold Rectangle.ZR in Ho. psimpl. lia.
  - cbv zeta in HX, HY. unfold width, height in *. lia.
Qed.

Lemma Overlay_eq_pixels (P : Platform) (background img : Image.t) (pos : Point.t)
    (opacity : float) (f : color.NRGBA -> color.NRGBA -> color.NRGBA) :
  wf_image background -> wf_image img ->
  (forall x y, overlapped background img pos x y ->
     apply_op P (OpBlend (clamp_opacity opacity)) (Image.At background x y)
       (laid background img pos x y)
     = f (Image.At background x y) (laid background img pos x y)) ->
  Overlay P background img pos opacity
  = Ok (buffer (width background) (height background)
          (pixels (overlaid f background img pos) (Image.Bounds background))).
Proof.
  intros Hb Hf H. rewrite Overlay_Ok by done. do 2 f_equal.
  rewrite !pixels_grid. apply grid_ext. intros x y _ _. unfold overlaid. psimpl.
  destruct (covered _ _ _) eqn:Hc; [|done]. apply covered_spec in Hc. by apply H.
Qed.

Lemma pixels_overlaid_background (background img : Image.t) (pos : Point.t) :
  pixels (overlaid (fun c _ => c) background img pos) (Image.Bounds background)
  = pixels background (Image.Bounds background).
Proof.
  rewrite !pixels_grid. apply grid_ext. intros x y _ _. unfold overlaid. psimpl.
  by destruct (covered _ _ _).
Qed.

(** C4 as the code has it: at opacity 0.0 [Overlay] returns the clone of
    the background when every background pixel the foreground is laid
    over has an alpha other than 0. *)
Theorem Overlay_opacity_0 (P : Platform) (background img : Image.t) (pos : Point.t) :
  wf_image background -> wf_image img ->
  (forall x y, overlapped background img pos x y ->
     color.A (Image.At background x y) <> x00) ->
  Overlay P background img pos 0 = Clone background.
Proof.
  intros Hb Hf Ha. rewrite Clone_Ok by done.
  rewrite (Overlay_eq_pixels P background img pos 0 (fun c _ => c)) by
    (try done; intros x y Ho; rewrite clamp_opacity_0, apply_op_OpBlend; cbv zeta;
     rewrite blend_coefs_0 by (by apply Ha);
     rewrite !blend_channel_1_0, blend_alpha_0; by destruct (Image.At background x y)).
  by rewrite pixels_overlaid_background.
Qed.

(** C5 as the code has it: a fully transparent foreground at opacity 1.0
    leaves the background as it is when every background pixel it is
    laid over has an alpha other than 0. *)
Theorem Overlay_transparent (P : Platform) (background img : Image.t) (pos : Point.t) :
  wf_image background -> wf_image img ->
  all_alpha img x00 ->
  (forall x y, overlapped background img pos x y ->
     color.A (Image.At background x y) <> x00) ->
  Overlay P background img pos 1 = Clone background.
Proof.
  intros Hb Hf Ht Ha. rewrite Clone_Ok by done.
  rewrite (Overlay_eq_pixels P background img pos 1 (fun c _ => c)) by
    (try done; intros x y Ho; rewrite clamp_opacity_1, apply_op_OpBlend; cbv zeta;
     unfold laid;
     rewrite (Ht _ _ (overlapped_foreground background img pos x y Hb Hf Ho));
     rewrite blend_coefs_1_transparent by (by apply Ha);
     rewrite !blend_channel_1_0, blend_alpha_1_transparent;
     by destruct (Image.At background x y)).
  by rewrite pixels_overlaid_background.
Qed.

(** C6: a fully opaque foreground at opacity 1.0 is pasted. *)
Theorem Overlay_opaque_Paste (P : Platform) (background img : Image.t) (pos : Point.t) :
  wf_image background -> wf_image img ->
  all_alpha img xff ->
  Overlay P background img pos 1 = Paste background img pos.
Proof.
  intros Hb Hf Ht. rewrite Paste_Ok by done.
  apply Overlay_eq_pixels; try done.
  intros x y Ho. rewrite clamp_opacity_1, apply_op_OpBlend. cbv zeta.
  unfold laid.
  pose proof (Ht _ _ (overlapped_foreground background img pos x y Hb Hf Ho)) as Hx.
  cbv zeta in Hx. destruct (Image.At img _ _) as [r2 g2 b2 a2]. simpl in Hx. subst a2.
  cbn [color.A color.R color.G color.B].
  by rewrite blend_coefs_1_opaque, !blend_channel_0_1, blend_alpha_1_opaque.
Qed.

(** C10: [Overlay] clamps its opacity, whatever [float64] it is given,
    and returns. *)
Theorem Overlay_clamps (P : Platform) (background img : Image.t) (pos : Point.t)
    (opacity : float) :
  wf_image background -> wf_image img ->
  Overlay P background img pos opacity
  = Overlay P background img pos (clamp_opacity opacity)
  /\ exists dst, Overlay P background img pos opacity = Ok dst.
Proof.
  intros Hb Hf. split.
  - by rewrite !Overlay_OverlayWithOp, clamp_opacity_idem.
  - rewrite Overlay_Ok by done. eauto.
Qed.

(** A fact over all pairs of bytes and their floats, checked with each
    float computed once. *)
Lemma forall_float_table2 (f : byte -> float -> byte -> float -> bool) :
  (let t := float_table in
   forallb (fun a => forallb (fun b => f a.1 a.2 b.1 b.2) t) t) = true ->
  forall a b, f a (Float64.of_uint8 a) b (Float64.of_uint8 b) = true.
Proof.
  cbv zeta. intros H a b. rewrite forallb_forall in H.
  assert (Hin : forall c, In (c, Float64.of_uint8 c) float_table).
  { intros c. apply list_elem_of_In. unfold float_table.
    apply list_elem_of_fmap. exists c. split; [done|apply all_bytes_complete]. }
  specialize (H _ (Hin a)). rewrite forallb_forall in H. apply (H _ (Hin b)).
Qed.

Lemma to_uint8_of_uint8 (P : Platform) (b : byte) :
  Float64.to_uint8 P (Float64.of_uint8 b) = b.
Proof.
  apply Byte.byte_dec_bl.
  apply (forall_bytes (fun b => Byte.eqb (Float64.to_uint8 P (Float64.of_uint8 b)) b)).
  vm_compute. reflexivity.
Qed.

Lemma Min_of_uint8 (a b : byte) :
  math.Min (Float64.of_uint8 a) (Float64.of_uint8 b) = Float64.of_uint8 (uint8_min a b).
Proof.
  transitivity (if uint8_lt b a then Float64.of_uint8 b else Float64.of_uint8 a).
  - apply FloatAxioms.Leibniz.eqb_spec.
    apply (forall_float_table2 (fun a fa b fb =>
             PrimFloat.Leibniz.eqb (math.Min fa fb) (if uint8_lt b a then fb else fa))).
    vm_compute. reflexivity.
  - unfold uint8_min. by destruct (uint8_lt b a).
Qed.

Lemma Max_of_uint8 (a b : byte) :
  math.Max (Float64.of_uint8 a) (Float64.of_uint8 b) = Float64.of_uint8 (uint8_max a b).
Proof.
  transitivity (if uint8_lt a b then Float64.of_uint8 b else Float64.of_uint8 a).
  - apply FloatAxioms.Leibniz.eqb_spec.
    apply (forall_float_table2 (fun a fa b fb =>
             PrimFloat.Leibniz.eqb (math.Max fa fb) (if uint8_lt a b then fb else fa))).
    vm_compute. reflexivity.
  - unfold uint8_max. by destruct (uint8_lt a b).
Qed.

Lemma to_uint8_Min (P : Platform) (a b : byte) :
  Float64.to_uint8 P (math.Min (Float64.of_uint8 a) (Float64.of_uint8 b)) = uint8_min a b.
Proof. by rewrite Min_of_uint8, to_uint8_of_uint8. Qed.

Lemma to_uint8_Max (P : Platform) (a b : byte) :
  Float64.to_uint8 P (math.Max (Float64.of_uint8 a) (Float64.of_uint8 b)) = uint8_max a b.
Proof. by rewrite Max_of_uint8, to_uint8_of_uint8. Qed.

(** C9: [OpMinAlpha] keeps the background's RGB and takes the smaller
    alpha; [OpMaxAlpha] answers white with the larger alpha.  Stated on
    the [float64] channels the operators take, and on the bytes
    [OverlayWithOp] reads and writes around them. *)
Theorem OpMinAlpha_OpMaxAlpha (P : Platform) :
  (forall r1 g1 b1 a1 r2 g2 b2 a2 : float,
      OpMinAlpha r1 g1 b1 a1 r2 g2 b2 a2 = (r1, g1, b1, math.Min a1 a2)
      /\ OpMaxAlpha r1 g1 b1 a1 r2 g2 b2 a2
         = (255%float, 255%float, 255%float, math.Max a1 a2))
  /\ (forall c1 c2 : color.NRGBA,
        apply_op P OpMinAlpha c1 c2
        = {| color.R := color.R c1; color.G := color.G c1; color.B := color.B c1;
             color.A := uint8_min (color.A c1) (color.A c2) |}
        /\ apply_op P OpMaxAlpha c1 c2
           = {| color.R := xff; color.G := xff; color.B := xff;
                color.A := uint8_max (color.A c1) (color.A c2) |}).
Proof.
  split; [done|]. intros c1 c2. unfold apply_op, OpMinAlpha, OpMaxAlpha. split.
  - by rewrite !to_uint8_of_uint8, to_uint8_Min.
  - rewrite to_uint8_Max. f_equal.
Qed.

Ltac wf_tac := constructor; vm_compute; intuition discriminate.

Lemma Overlay_opacity_0_witness :
  Overlay platform0 sample_background sample_opaque (Pt 1 1) 0 = Clone sample_background.
Proof.
  apply Overlay_opacity_0; [wf_tac|wf_tac|].
  intros x y _. simpl. discriminate.
Defined.

Lemma Overlay_opacity_0_counterexample :
  ~ exists P : Platform,
      Overlay P (pixel_image x0a x14 x1e x00) (pixel_image x64 x65 x66 xff) (Pt 0 0) 0
      = Clone (pixel_image x0a x14 x1e x00).
Proof.
  intros [P H]. vm_compute in H. congruence.
Qed.

Lemma Overlay_transparent_witness :
  Overlay platform0 sample_background sample_transparent (Pt 1 1) 1 = Clone sample_background.
Proof.
  apply Overlay_transparent; [wf_tac|wf_tac| |].
  - intros x y _. reflexivity.
  - intros x y _. simpl. discriminate.
Defined.

Lemma Overlay_transparent_counterexample :
  ~ exists P : Platform,
      Overlay P (pixel_image x0a x14 x1e x00) (pixel_image x64 x65 x66 x00) (Pt 0 0) 1
      = Clone (pixel_image x0a x14 x1e x00).
Proof.
  intros [P H]. vm_compute in H. congruence.
Qed.

Lemma Overlay_opaque_Paste_witness :
  Overlay platform0 sample_background sample_opaque (Pt 1 1) 1
  = Paste sample_background sample_opaque (Pt 1 1).
Proof.
  apply Overlay_opaque_Paste; [wf_tac|wf_tac|].
  intros x y _. reflexivity.
Defined.

Lemma Overlay_clamps_witness :
  Overlay platform0 sample_background sample_opaque (Pt 1 1) 2.5
  = Overlay platform0 sample_background sample_opaque (Pt 1 1) (clamp_opacity 2.5)
  /\ exists dst, Overlay platform0 sample_background sample_opaque (Pt 1 1) 2.5 = Ok dst.
Proof. apply Overlay_clamps; wf_tac. Defined.

(** C8: [Crop] returns the pixels of the intersection of the rectangle
    with the bounds of the image, in a buffer of the size of the
    intersection placed at the origin; it returns the empty buffer when
    the intersection is empty, and never panics. *)
Theorem Crop_intersection (img : Image.t) (rect : Rectangle.t) :
  wf_image img ->
  let inter := Rectangle.Intersect rect (Image.Bounds img) in
  Crop img rect
  = Ok (if Rectangle.Empty inter then NRGBA.empty
        else buffer (Point.X (Rectangle.Max inter) - Point.X (Rectangle.Min inter))
                    (Point.Y (Rectangle.Max inter) - Point.Y (Rectangle.Min inter))
                    (pixels img inter)).
Proof. apply Crop_Ok. Qed.

Lemma Crop_intersection_witness :
  Crop sample_background (Rect 1 1 5 5)
  = Ok (buffer 1 1 [x0a; x14; x1e; x80]).
Proof.
  rewrite (Crop_intersection sample_background (Rect 1 1 5 5)) by wf_tac.
  reflexivity.
Defined.

(** * The opaque region *)

(** The alpha byte of pixel [k] of a row [scan] has written at [lo]. *)
Lemma index_scanned_alpha (img : Image.t) (x1 y x2 : Z) (pix : list byte) (lo k : Z) :
  0 <= lo -> lo + 4 * (x2 - x1) <= Z.of_nat (length pix) -> 0 <= k < x2 - x1 ->
  index (list_inserts (Z.to_nat lo) (scan_row (newScanner img) x1 y x2) pix) (lo + 4 * k + 3)
  = Ok (color.A (Image.At img (Point.X (Rectangle.Min (Image.Bounds img)) + (x1 + k))
                              (Point.Y (Rectangle.Min (Image.Bounds img)) + y))).
Proof.
  intros Hlo Hhi Hk. apply index_Some; [lia|].
  rewrite list_lookup_inserts; rewrite ?length_scan_row; try lia.
  replace (Z.to_nat (lo + 4 * k + 3) - Z.to_nat lo)%nat with (4 * Z.to_nat k + 3)%nat by lia.
  rewrite scan_row_colors.
  rewrite (lookup_bind_bytes (fun c => c)) by lia.
  rewrite list_lookup_fmap, lookup_seqZ_lt by lia. simpl.
  by rewrite Z2Nat.id by lia.
Qed.

Lemma OpaqueBounds_row_Ok (P : Platform) (img : Image.t) (threshold : byte)
    (pix0 pix : list byte) (out : Rectangle.t) (first : bool) (y : Z) :
  wf_image img -> 0 <= y < height img ->
  Z.of_nat (length pix) = 4 * width img * height img ->
  exists pix' out' first',
    OpaqueBounds_row P (newScanner img) (buffer (width img) (height img) pix0) threshold y
      (pix, out, first) = Ok (pix', out', first')
    /\ Z.of_nat (length pix') = 4 * width img * height img
    /\ (row_below img threshold y -> out' = out /\ first' = first).
Proof.
  intros Hwf Hy Hlen. pose proof Hwf as [Hw Hh Hs Hl].
  unfold OpaqueBounds_row. rewrite newScanner_w by done. unfold buffer. psimpl.
  pose proof (row_bounds y (width img) (height img) ltac:(lia) ltac:(lia)) as [Hb1 Hb2].
  int_norm.
  rewrite scan_Ok; rewrite ?newScanner_w, ?newScanner_h by done; try lia.
  rewrite bind_Ok.
  set (pix' := list_inserts _ _ pix).
  destruct (for_range_inv
    (fun x st => st.1.1 = y * (4 * width img) + 4 * x
                 /\ (row_below img threshold y -> st.1.2 = out /\ st.2 = first))
    0 (width img) (OpaqueBounds_pixel P threshold pix' y)
    (y * (4 * width img), out, first)) as ([[i' out'] first'] & Hloop & Hi & Hkeep).
  - done.
  - simpl. split; [lia|done].
  - intros x [[i o] f] Hx [Hi Hkeep]. simpl in Hi, Hkeep. subst i.
    unfold OpaqueBounds_pixel. int_norm.
    replace (y * (4 * width img) + 4 * x + 3) with (y * (4 * width img) + 4 * x + 3) by lia.
    unfold pix'. rewrite (index_scanned_alpha img 0 y (width img)) by lia.
    rewrite bind_Ok, (Z.add_0_l x).
    destruct (uint8_lt threshold _) eqn:Hlt.
    + destruct f; (eexists (_, _, _); split; [reflexivity|]; simpl; split; [lia|];
        intros Hrow; rewrite (Hrow x) in Hlt by lia; discriminate).
    + eexists (_, _, _). split; [reflexivity|]. simpl. split; [lia|done].
  - rewrite Hloop, bind_Ok. exists pix', out', first'. split; [done|].
    split; [|done]. unfold pix'. rewrite length_inserts. done.
Qed.

Lemma OpaqueBounds_Ok (P : Platform) (img : Image.t) (threshold : byte) :
  wf_image img ->
  exists out, OpaqueBounds P img threshold = Ok out
    /\ ((forall y, 0 <= y < height img -> row_below img threshold y) -> out = Rectangle.ZR).
Proof.
  intros Hwf. pose proof Hwf as [Hw Hh Hs Hl]. unfold OpaqueBounds.
  rewrite newScanner_w, newScanner_h, NewNRGBA_Ok by done. rewrite bind_Ok, Pix_buffer.
  destruct (Z.eq_dec (height img) 0) as [H0|H0].
  - rewrite parallel_none by lia. rewrite bind_Ok. eauto.
  - rewrite parallel_some by lia. rewrite Z.sub_0_r.
    destruct (for_each_inv
      (fun k st => Z.of_nat (length st.1.1) = 4 * width img * height img
         /\ ((forall y, 0 <= y < height img -> row_below img threshold y) ->
             st.1.2 = Rectangle.ZR /\ st.2 = true))
      (seqZ 0 (height img))
      (OpaqueBounds_row P (newScanner img)
         (buffer (width img) (height img)
            (replicate (Z.to_nat (4 * width img * height img)) x00)) threshold)
      (replicate (Z.to_nat (4 * width img * height img)) x00, Rectangle.ZR, true))
      as ([[pix out] first] & Hloop & _ & Hkeep).
    + simpl. rewrite length_replicate. split; [|done].
      assert (0 <= 4 * width img * height img) by (apply Z.mul_nonneg_nonneg; lia). lia.
    + intros k y [[pix out] first] Hk [Hlen Hkeep]. simpl in Hlen, Hkeep.
      apply lookup_seqZ in Hk as [-> Hk].
      destruct (OpaqueBounds_row_Ok P img threshold
                  (replicate (Z.to_nat (4 * width img * height img)) x00)
                  pix out first (0 + Z.of_nat k) Hwf ltac:(lia) Hlen)
        as (pix' & out' & first' & Hrow & Hlen' & Hkeep').
      exists (pix', out', first'). split; [done|]. simpl. split; [done|].
      intros Hall. destruct (Hkeep Hall) as [-> ->].
      apply Hkeep', Hall. lia.
    + rewrite Hloop, bind_Ok. exists out. split; [done|].
      intros Hall. by destruct (Hkeep Hall).
Qed.

Lemma store_in_length {A} (out out' : list A) (lo hi k : Z) (a : A) :
  store_in out lo hi k a = Ok out' -> length out' = length out.
Proof. unfold store_in. destruct (_ && _); [apply store_length|discriminate]. Qed.

Lemma OpaquePolygon_pixel_length (threshold : byte) (pix : list byte) (n k y x : Z)
    (st st' : Z * list Point.t * bool) :
  OpaquePolygon_pixel threshold pix n k y x st = Ok st' ->
  length st'.1.2 = length st.1.2.
Proof.
  destruct st as [[i out] fl]. unfold OpaquePolygon_pixel. intros H.
  apply bind_Ok_inv in H as (a & _ & H).
  destruct (negb _); [by inversion H|].
  apply bind_Ok_inv in H as (out1 & H1 & H). apply store_in_length in H1.
  destruct fl; [by inversion H|].
  apply bind_Ok_inv in H as (out2 & H2 & H). apply store_in_length in H2.
  inversion H. simpl. congruence.
Qed.

Lemma OpaquePolygon_row_length (P : Platform) (src : scanner) (bounds : Rectangle.t)
    (threshold : byte) (n : Z) (yStep : float) (wd k : Z)
    (st st' : list byte * list Point.t) :
  OpaquePolygon_row P src bounds threshold n yStep wd k st = Ok st' ->
  length st'.2 = length st.2.
Proof.
  destruct st as [pix out]. unfold OpaquePolygon_row. intros H.
  apply bind_Ok_inv in H as (pix' & _ & H).
  apply bind_Ok_inv in H as ([[i out'] fl] & H1 & H). inversion H. simpl.
  unfold for_range in H1.
  apply (for_each_preserves (fun st => length st.1.2 = length out)) in H1; [done| |done].
  intros x s s' Hs Hl. apply OpaquePolygon_pixel_length in Hs. congruence.
Qed.

(** Whenever [OpaquePolygon] returns, it returns [2*n] points. *)
Lemma OpaquePolygon_length (P : Platform) (img : Image.t) (n : Z) (threshold : byte)
    (out : list Point.t) :
  OpaquePolygon P img n threshold = Ok out -> Z.of_nat (length out) = 2 * n.
Proof.
  unfold OpaquePolygon. intros H.
  apply bind_Ok_inv in H as (bounds & _ & H).
  apply bind_Ok_inv in H as (dst & _ & H).
  apply bind_Ok_inv in H as (out0 & Hmake & H).
  unfold make in Hmake. destruct (Z.ltb_spec (2 [*] n) 0); [discriminate|].
  inversion Hmake as [Hout0]. clear Hmake.
  destruct (slice_ok out0 0 n) eqn:Hs1; [|discriminate].
  destruct (slice_ok out0 n (2 [*] n)) eqn:Hs2; [|discriminate]. simpl in H.
  apply bind_Ok_inv in H as ([pix out'] & Hpar & H). inversion H. subst out'.
  assert (Hlen : length out = length out0).
  { unfold parallel in Hpar. destruct (n <=? 0); [by inversion Hpar|].
    apply (for_each_preserves (fun st => length st.2 = length out0)) in Hpar; [done| |done].
    intros k s s' Hs Hl. apply OpaquePolygon_row_length in Hs. congruence. }
  rewrite Hlen. unfold slice_ok in Hs1, Hs2.
  apply andb_true_iff in Hs1 as [[_ Hn0]%andb_true_iff Hn1].
  apply andb_true_iff in Hs2 as [[_ Hn2]%andb_true_iff Hn3].
  apply Z.leb_le in Hn0, Hn1, Hn2, Hn3.
  rewrite <- Hout0, length_replicate in *. wrap_lia.
Qed.

(** With [n = 0] there is nothing to sample. *)
Lemma OpaquePolygon_0 (P : Platform) (img : Image.t) (threshold : byte) :
  wf_image img -> OpaquePolygon P img 0 threshold = Ok [].
Proof.
  intros Hwf. pose proof Hwf as [Hw Hh Hs Hl]. unfold OpaquePolygon.
  destruct (OpaqueBounds_Ok P img threshold Hwf) as (b & -> & _). rewrite bind_Ok.
  rewrite newScanner_w, newScanner_h, NewNRGBA_Ok by done. rewrite bind_Ok.
  reflexivity.
Qed.

Lemma index_in_range {A} (s : list A) (i : Z) :
  0 <= i < Z.of_nat (length s) -> exists a, index s i = Ok a.
Proof.
  intros Hi. destruct (lookup_lt_is_Some_2 s (Z.to_nat i)) as [a Ha]; [lia|].
  exists a. apply index_Some; [lia|done].
Qed.

Lemma below_row_below (img : Image.t) (threshold : byte) (y : Z) :
  below img threshold -> 0 <= y < height img -> row_below img threshold y.
Proof.
  intros Hb Hy x Hx. apply Hb. unfold Rectangle.contains, width, height in *. lia.
Qed.

(** C7: on an image of which no pixel has an alpha above the threshold
    [OpaqueBounds] returns the zero rectangle; on the 4 by 4 transparent
    buffer with one opaque pixel at (1,2) and threshold 10 it returns the
    rectangle with [Min] = [Max] = (1,2). *)
Theorem OpaqueBounds_zero_rectangle (P : Platform) :
  (forall img threshold,
      wf_image img -> below img threshold ->
      OpaqueBounds P img threshold = Ok Rectangle.ZR)
  /\ OpaqueBounds P (dotted 4 4 [(1, 2)]) x0a
     = Ok {| Rectangle.Min := Pt 1 2; Rectangle.Max := Pt 1 2 |}.
Proof.
  split.
  - intros img threshold Hwf Hb.
    destruct (OpaqueBounds_Ok P img threshold Hwf) as (out & -> & Hout).
    rewrite Hout; [done|]. intros y Hy. by apply below_row_below.
  - vm_compute. reflexivity.
Qed.

Lemma OpaqueBounds_zero_rectangle_witness :
  OpaqueBounds platform0 sample_transparent xff = Ok Rectangle.ZR.
Proof.
  apply (proj1 (OpaqueBounds_zero_rectangle platform0)); [wf_tac|].
  intros x y _. reflexivity.
Defined.

Lemma OpaquePolygon_negative (P : Platform) (img : Image.t) (n : Z) (threshold : byte) :
  wf_image img -> - 2 ^ 62 <= n < 0 -> OpaquePolygon P img n threshold = Panic.
Proof.
  intros Hwf Hn. pose proof Hwf as [Hw Hh Hst Hl]. unfold OpaquePolygon.
  destruct (OpaqueBounds_Ok P img threshold Hwf) as (b & -> & _). rewrite bind_Ok.
  rewrite newScanner_w, newScanner_h, NewNRGBA_Ok by done. rewrite bind_Ok.
  replace (2 [*] n) with (2 * n) by (symmetry; apply mul_id; in_range_tac).
  unfold make. destruct (Z.ltb_spec (2 * n) 0); [done|lia].
Qed.

(** C1: [OpaquePolygon] does not return [2*n] points for every [n >= 2].
    On the opaque 2 by 1 image with two samples and threshold 0 the
    bounding box is {(0,0),(1,0)}, with the inclusive [Max] that
    [OpaqueBounds] sets; [yStep] is [(Dy-1)/(n-1) = -1], the second sample
    is row -1, [i] is -4, and the slice [dst.Pix[-4:0]] of line 67 panics,
    whatever the buffer holds and whatever the scanner does.  Nor is an
    [n] below 2 rejected: for [n = 0] the empty slice is returned. *)
Theorem OpaquePolygon_panics (P : Platform) :
  let img := uniform (Rect 0 0 2 1) opaque in
  let bounds := {| Rectangle.Min := Pt 0 0; Rectangle.Max := Pt 1 0 |} in
  let yStep := OpaquePolygon_yStep bounds 2 in
  OpaqueBounds P img x00 = Ok bounds
  /\ yStep = (-1)%float
  /\ OpaquePolygon_y P bounds yStep 1 = -1
  /\ (forall (src : scanner) (pix : list byte) (out : list Point.t),
        OpaquePolygon_row P src bounds x00 2 yStep (Rectangle.Dx bounds) 1 (pix, out)
        = Panic)
  /\ OpaquePolygon P img 2 x00 = Panic
  /\ OpaquePolygon P img 0 x00 = Ok [].
Proof.
  cbv zeta. split; [vm_compute; reflexivity|]. split; [vm_compute; reflexivity|].
  split; [vm_compute; reflexivity|]. split; [|split; vm_compute; reflexivity].
  intros src pix out. unfold OpaquePolygon_row.
  replace (OpaquePolygon_y P _ _ 1) with (-1) by (vm_compute; reflexivity).
  unfold scan, slice_ok. by replace (0 <=? _) with false by (vm_compute; reflexivity).
Qed.

(** X30: whenever [OpaquePolygon] returns, for any [n], image, threshold
    and platform, the slice has exactly [2*n] points; on a well-formed
    image it returns the empty slice for [n = 0] and panics in [make] for
    a negative [n]: no [n] is rejected by a check. *)
Theorem OpaquePolygon_length_2n (P : Platform) (img : Image.t) (threshold : byte) :
  (forall n out,
      OpaquePolygon P img n threshold = Ok out -> Z.of_nat (length out) = 2 * n)
  /\ (wf_image img ->
      OpaquePolygon P img 0 threshold = Ok []
      /\ forall n, - 2 ^ 62 <= n < 0 -> OpaquePolygon P img n threshold = Panic).
Proof.
  split; [intros n out; apply OpaquePolygon_length|].
  intros Hwf. split; [by apply OpaquePolygon_0|].
  intros n Hn. by apply OpaquePolygon_negative.
Qed.

Lemma OpaquePolygon_length_2n_witness :
  (exists out, OpaquePolygon platform0 (uniform (Rect 0 0 3 3) opaque) 2 x00 = Ok out
               /\ Z.of_nat (length out) = 2 * 2)
  /\ OpaquePolygon platform0 sample_opaque 0 x00 = Ok []
  /\ OpaquePolygon platform0 sample_opaque (- 3) x00 = Panic.
Proof.
  split.
  - eexists. split; [vm_compute; reflexivity|].
    apply (proj1 (OpaquePolygon_length_2n platform0 (uniform (Rect 0 0 3 3) opaque) x00) 2).
    vm_compute. reflexivity.
  - destruct (proj2 (OpaquePolygon_length_2n platform0 sample_opaque x00) ltac:(wf_tac))
      as [H0 Hneg].
    split; [exact H0|]. apply Hneg. lia.
Defined.

(** C2: [OpaqueArea] reads the alpha of a pixel at [i+3] after [i += 4],
    from a row that starts at [y*4].  On the opaque 2 by 2 image with
    threshold 0 it answers 2, and on a transparent 1 by 1 image the read
    is out of range. *)
Theorem OpaqueArea_miscounts :
  OpaqueArea (uniform (Rect 0 0 2 2) opaque) x00 = Ok 2
  /\ OpaqueArea (uniform (Rect 0 0 1 1) color.zero) x00 = Panic.
Proof. split; vm_compute; reflexivity. Qed.

(** C3: [OpaquePolygon] reads the alpha of the pixel to the right of the
    one it records.  On the 4 by 3 buffer whose opaque pixels are (2,1),
    (1,2) and (3,2), with two samples and threshold 0, the bounding box is
    {(1,1),(3,2)}, both samples read row 1, and all four points are (1,1),
    a transparent pixel; the only pixel of row 1 above the threshold is
    (2,1). *)
Theorem OpaquePolygon_shifted (P : Platform) :
  let img := dotted 4 3 [(2, 1); (1, 2); (3, 2)] in
  OpaqueBounds P img x00 = Ok {| Rectangle.Min := Pt 1 1; Rectangle.Max := Pt 3 2 |}
  /\ OpaquePolygon P img 2 x00 = Ok [Pt 1 1; Pt 1 1; Pt 1 1; Pt 1 1]
  /\ map (fun x => color.A (Image.At img x 1)) [0; 1; 2; 3] = [x00; x00; xff; x00].
Proof. repeat split; vm_compute; reflexivity. Qed.

(** * Further properties of the package *)

(** ** Reading a buffer back *)

Lemma grid_shift (img img' : Image.t) (x0 y0 x0' y0' wd ht : Z) :
  (forall x y, 0 <= x < wd -> 0 <= y < ht ->
     Image.At img (x0 + x) (y0 + y) = Image.At img' (x0' + x) (y0' + y)) ->
  grid img x0 y0 wd ht = grid img' x0' y0' wd ht.
Proof.
  intros H. unfold grid.
  rewrite <- (Z.add_0_r y0), <- (Z.add_0_r y0'), <- !(fmap_add_seqZ _ 0), !list_fmap_bind.
  apply Forall_bind_ext, Forall_forall. intros y Hy.
  apply list_elem_of_lookup in Hy as [i Hi]. apply lookup_seqZ in Hi. simpl.
  f_equal. unfold row_colors.
  rewrite <- (Z.add_0_r x0), <- (Z.add_0_r x0'), <- !(fmap_add_seqZ _ 0), <- !list_fmap_compose.
  apply list_fmap_ext. intros j x Hx. apply lookup_seqZ in Hx. simpl. apply H; lia.
Qed.

Lemma NRGBAAt_grid (img : Image.t) (x0 y0 wd ht x y : Z) :
  0 <= x < wd -> 0 <= y < ht -> 4 * wd * ht <= Int.max_int ->
  NRGBA.NRGBAAt (buffer wd ht (grid img x0 y0 wd ht)) x y = Image.At img (x0 + x) (y0 + y).
Proof.
  intros Hx Hy Hl. unfold NRGBA.NRGBAAt, NRGBA.PixOffset, buffer. psimpl.
  destruct (Z.leb_spec 0 x); [|lia]. destruct (Z.ltb_spec x wd); [|lia].
  destruct (Z.leb_spec 0 y); [|lia]. destruct (Z.ltb_spec y ht); [|lia]. simpl andb. cbv iota.
  pose proof (row_bounds y wd ht ltac:(lia) ltac:(lia)) as [Hb1 Hb2].
  assert (y <= y * (4 * wd)) by nia.
  replace (y [-] 0) with y by (symmetry; rewrite sub_id; in_range_tac).
  replace (x [-] 0) with x by (symmetry; rewrite sub_id; in_range_tac).
  replace (y [*] (4 * wd)) with (y * (4 * wd)) by (symmetry; apply mul_id; in_range_tac).
  replace (x [*] 4) with (x * 4) by (symmetry; apply mul_id; in_range_tac).
  replace (y * (4 * wd) [+] x * 4) with (y * (4 * wd) + x * 4)
    by (symmetry; apply add_id; in_range_tac).
  rewrite (grid_split img x0 y0 wd ht x y 1) by lia.
  pose proof (length_grid_pre img x0 y0 wd x y ltac:(lia) ltac:(lia) ltac:(lia)) as Hpre.
  replace (Z.to_nat (y * (4 * wd) + x * 4)) with (length (grid_pre img x0 y0 wd x y)) by lia.
  set (c := Image.At img (x0 + x) (y0 + y)).
  assert (Hmid : row_colors img (x0 + x) (y0 + y) 1 ≫= color.bytes = color.bytes c).
  { unfold row_colors. rewrite seqZ_cons, seqZ_nil by lia. simpl fmap.
    rewrite bind_cons. exact (app_nil_r _). }
  rewrite Hmid.
  set (pre := grid_pre _ _ _ _ _ _). set (post := grid_post _ _ _ _ _ _ _ _).
  pose proof (lookup_pixel_byte pre post c 0 ltac:(lia)) as E0. rewrite Nat.add_0_r in E0.
  rewrite E0, !lookup_pixel_byte by lia. by destruct c.
Qed.

Lemma pixels_buffer (img : Image.t) (x0 y0 wd ht : Z) :
  4 * wd * ht <= Int.max_int ->
  pixels (NRGBA.Image (buffer wd ht (grid img x0 y0 wd ht)))
    {| Rectangle.Min := Pt 0 0; Rectangle.Max := Pt wd ht |}
  = grid img x0 y0 wd ht.
Proof.
  intros Hl. rewrite pixels_grid. psimpl. rewrite !Z.sub_0_r.
  apply grid_shift. intros x y Hx Hy. simpl. by rewrite NRGBAAt_grid.
Qed.

Lemma wf_buffer (wd ht : Z) (pix : list byte) :
  0 <= wd -> 0 <= ht <= Int.max_int -> 4 * wd <= Int.max_int -> 4 * wd * ht <= Int.max_int ->
  wf_image (NRGBA.Image (buffer wd ht pix)).
Proof. intros. constructor; unfold width, height; simpl; lia. Qed.

Lemma Clone_buffer (img : Image.t) (x0 y0 wd ht : Z) :
  0 <= wd -> 0 <= ht <= Int.max_int -> 4 * wd <= Int.max_int -> 4 * wd * ht <= Int.max_int ->
  Clone (NRGBA.Image (buffer wd ht (grid img x0 y0 wd ht)))
  = Ok (buffer wd ht (grid img x0 y0 wd ht)).
Proof.
  intros Hw Hh Hs Hl. rewrite Clone_Ok by by apply wf_buffer.
  unfold width, height. psimpl. rewrite !Z.sub_0_r. f_equal. f_equal.
  by apply pixels_buffer.
Qed.

Lemma reads_pixels (img : Image.t) :
  0 <= width img -> 0 <= height img -> 4 * width img * height img <= Int.max_int ->
  reads (buffer (width img) (height img) (pixels img (Image.Bounds img)))
    (width img) (height img) (pixel_at img).
Proof.
  intros Hw Hh Hl. rewrite pixels_grid. fold (width img) (height img).
  repeat split.
  - simpl. by rewrite length_grid.
  - intros x y Hx Hy. by rewrite NRGBAAt_grid.
Qed.

Lemma reads_overlaid (f : color.NRGBA -> color.NRGBA -> color.NRGBA)
    (background img : Image.t) (pos : Point.t) :
  wf_image background ->
  reads (buffer (width background) (height background)
           (pixels (overlaid f background img pos) (Image.Bounds background)))
    (width background) (height background) (composed f background img pos).
Proof.
  intros [Hw Hh Hs Hl].
  destruct (reads_pixels (overlaid f background img pos) Hw (proj1 Hh) Hl)
    as (H1 & H2 & H3 & H4).
  repeat split; try done.
  intros x y Hx Hy. change (width (overlaid f background img pos)) with (width background) in H4.
  change (height (overlaid f background img pos)) with (height background) in H4.
  change (Image.Bounds (overlaid f background img pos)) with (Image.Bounds background) in H4.
  rewrite H4 by done. unfold pixel_at, composed, overlaid. psimpl.
  set (bx := Point.X (Rectangle.Min (Image.Bounds background))).
  set (by_ := Point.Y (Rectangle.Min (Image.Bounds background))).
  replace (bx + x - bx) with x by lia. replace (by_ + y - by_) with y by lia. done.
Qed.

Lemma pixels_overlaid_ext (f f' : color.NRGBA -> color.NRGBA -> color.NRGBA)
    (background img : Image.t) (pos : Point.t) :
  (forall c1 c2, f c1 c2 = f' c1 c2) ->
  pixels (overlaid f background img pos) (Image.Bounds background)
  = pixels (overlaid f' background img pos) (Image.Bounds background).
Proof.
  intros H. rewrite !pixels_grid. apply grid_ext. intros x y _ _. simpl.
  destruct (covered _ _ _); [apply H|done].
Qed.

Lemma apply_op_OpReplace (P : Platform) (c1 c2 : color.NRGBA) :
  apply_op P OpReplace c1 c2 = c2.
Proof. destruct c2. unfold apply_op, OpReplace. simpl. by rewrite !to_uint8_of_uint8. Qed.

Lemma apply_op_OpIgnore (P : Platform) (c1 c2 : color.NRGBA) :
  apply_op P OpIgnore c1 c2 = c1.
Proof. destruct c1. unfold apply_op, OpIgnore. simpl. by rewrite !to_uint8_of_uint8. Qed.

Lemma apply_op_OpReplaceAlpha (P : Platform) (c1 c2 : color.NRGBA) :
  apply_op P OpReplaceAlpha c1 c2
  = {| color.R := color.R c1; color.G := color.G c1; color.B := color.B c1;
       color.A := color.A c2 |}.
Proof. unfold apply_op, OpReplaceAlpha. simpl. by rewrite !to_uint8_of_uint8. Qed.

Lemma Empty_interRect (background img : Image.t) (pos : Point.t) :
  wf_image background -> wf_image img ->
  Rectangle.Empty (interRect background img pos) = true ->
  interRect background img pos = Rectangle.ZR.
Proof.
  intros Hb Hi He. destruct (interRect_cases background img pos Hb Hi) as [[? _]|[E _]];
    [done|congruence].
Qed.

(** X1: Clone returns, on every well-formed image, the origin-based buffer of
    the image's size whose pixels are the image's. *)
Theorem Clone_reads (img : Image.t) :
  wf_image img ->
  exists dst, Clone img = Ok dst /\ reads dst (width img) (height img) (pixel_at img).
Proof.
  intros Hwf. rewrite Clone_Ok by done. eexists. split; [done|].
  destruct Hwf. apply reads_pixels; lia.
Qed.

Lemma Clone_reads_witness :
  exists dst, Clone sample_background = Ok dst
              /\ reads dst (width sample_background) (height sample_background)
                   (pixel_at sample_background).
Proof. apply Clone_reads. wf_tac. Defined.

(** X2: Cloning a clone changes nothing: the buffer [Clone] returns, read as an
    image, clones to itself. *)
Theorem Clone_idempotent (img : Image.t) (dst : NRGBA.t) :
  wf_image img -> Clone img = Ok dst -> Clone (NRGBA.Image dst) = Ok dst.
Proof.
  intros Hwf. rewrite Clone_Ok by done. intros [= <-]. destruct Hwf.
  rewrite pixels_grid. fold (width img) (height img). by apply Clone_buffer.
Qed.

Lemma Clone_idempotent_witness :
  Clone (NRGBA.Image (buffer 2 2 (pixels sample_background (Image.Bounds sample_background))))
  = Ok (buffer 2 2 (pixels sample_background (Image.Bounds sample_background))).
Proof. apply (Clone_idempotent sample_background); [wf_tac|]. vm_compute. reflexivity. Defined.

(** X3: Paste returns, for every position, the background's clone with the
    foreground's pixels where the foreground lies. *)
Theorem Paste_reads (background img : Image.t) (pos : Point.t) :
  wf_image background -> wf_image img ->
  exists dst, Paste background img pos = Ok dst
    /\ reads dst (width background) (height background)
         (composed (fun _ c => c) background img pos).
Proof.
  intros Hb Hi. rewrite Paste_Ok by done. eexists. split; [done|]. by apply reads_overlaid.
Qed.

Lemma Paste_reads_witness :
  exists dst, Paste sample_background sample_opaque (Pt 1 1) = Ok dst
    /\ reads dst (width sample_background) (height sample_background)
         (composed (fun _ c => c) sample_background sample_opaque (Pt 1 1)).
Proof. apply Paste_reads; wf_tac. Defined.

(** X4: OverlayWithOp returns, for every operator and position, the
    background's clone with, where the foreground lies, the bytes the
    operator yields on the two pixels. *)
Theorem OverlayWithOp_reads (P : Platform) (background img : Image.t) (pos : Point.t)
    (op : OverlayOp) :
  wf_image background -> wf_image img ->
  exists dst, OverlayWithOp P background img pos op = Ok dst
    /\ reads dst (width background) (height background)
         (composed (apply_op P op) background img pos).
Proof.
  intros Hb Hi. rewrite OverlayWithOp_Ok by done. eexists. split; [done|].
  by apply reads_overlaid.
Qed.

Lemma OverlayWithOp_reads_witness :
  exists dst, OverlayWithOp platform0 sample_background sample_opaque (Pt 1 1) OpMaxAlpha
              = Ok dst
    /\ reads dst (width sample_background) (height sample_background)
         (composed (apply_op platform0 OpMaxAlpha) sample_background sample_opaque (Pt 1 1)).
Proof. apply OverlayWithOp_reads; wf_tac. Defined.

(** X5: Overlay is OverlayWithOp with the blend operator at the clamped
    opacity, on all inputs. *)
Theorem Overlay_is_OpBlend (P : Platform) (background img : Image.t) (pos : Point.t)
    (opacity : float) :
  Overlay P background img pos opacity
  = OverlayWithOp P background img pos
      (OpBlend (math.Min (math.Max opacity 0) 1)).
Proof. apply Overlay_OverlayWithOp. Qed.

(** X6: The bytes the pass-through operators yield: the conversion to
    [float64] and back loses nothing. *)
Theorem pass_through_ops (P : Platform) (c1 c2 : color.NRGBA) :
  apply_op P OpReplace c1 c2 = c2
  /\ apply_op P OpIgnore c1 c2 = c1
  /\ apply_op P OpReplaceAlpha c1 c2
     = {| color.R := color.R c1; color.G := color.G c1; color.B := color.B c1;
          color.A := color.A c2 |}.
Proof.
  split; [apply apply_op_OpReplace|]. split; [apply apply_op_OpIgnore|].
  apply apply_op_OpReplaceAlpha.
Qed.

(** X7: With OpIgnore the overlay is the background's clone. *)
Theorem OverlayWithOp_OpIgnore (P : Platform) (background img : Image.t) (pos : Point.t) :
  wf_image background -> wf_image img ->
  OverlayWithOp P background img pos OpIgnore = Clone background.
Proof.
  intros Hb Hi. rewrite OverlayWithOp_Ok, Clone_Ok by done. do 2 f_equal.
  rewrite <- pixels_overlaid_background with (img := img) (pos := pos).
  apply pixels_overlaid_ext, apply_op_OpIgnore.
Qed.

Lemma OverlayWithOp_OpIgnore_witness :
  OverlayWithOp platform0 sample_background sample_opaque (Pt 1 1) OpIgnore
  = Clone sample_background.
Proof. apply OverlayWithOp_OpIgnore; wf_tac. Defined.

(** X8: With OpReplace the overlay is the paste. *)
Theorem OverlayWithOp_OpReplace (P : Platform) (background img : Image.t) (pos : Point.t) :
  wf_image background -> wf_image img ->
  OverlayWithOp P background img pos OpReplace = Paste background img pos.
Proof.
  intros Hb Hi. rewrite OverlayWithOp_Ok, Paste_Ok by done. do 2 f_equal.
  apply pixels_overlaid_ext, apply_op_OpReplace.
Qed.

Lemma OverlayWithOp_OpReplace_witness :
  OverlayWithOp platform0 sample_background sample_opaque (Pt 1 1) OpReplace
  = Paste sample_background sample_opaque (Pt 1 1).
Proof. apply OverlayWithOp_OpReplace; wf_tac. Defined.

(** X9: Where the foreground, placed at [pos], does not meet the background,
    Paste, Overlay and OverlayWithOp all return the background's clone. *)
Theorem disjoint_is_Clone (P : Platform) (background img : Image.t) (pos : Point.t) :
  wf_image background -> wf_image img ->
  Rectangle.Empty (interRect background img pos) = true ->
  Paste background img pos = Clone background
  /\ (forall op, OverlayWithOp P background img pos op = Clone background)
  /\ (forall opacity, Overlay P background img pos opacity = Clone background).
Proof.
  intros Hb Hi He. apply Empty_interRect in He; [|done..].
  rewrite Paste_Ok, Clone_Ok by done. split; [|split].
  - by rewrite pixels_overlaid_none.
  - intros op. rewrite OverlayWithOp_Ok by done. by rewrite pixels_overlaid_none.
  - intros opacity. rewrite Overlay_Ok by done. by rewrite pixels_overlaid_none.
Qed.

Lemma disjoint_is_Clone_witness :
  Paste sample_background sample_opaque (Pt 2 0) = Clone sample_background
  /\ (forall op, OverlayWithOp platform0 sample_background sample_opaque (Pt 2 0) op
                 = Clone sample_background)
  /\ (forall opacity, Overlay platform0 sample_background sample_opaque (Pt 2 0) opacity
                      = Clone sample_background).
Proof. apply disjoint_is_Clone; [wf_tac|wf_tac|]. vm_compute. reflexivity. Defined.

Lemma int_quot_2 (a : Z) : 0 <= a <= Int.max_int -> int_quot a 2 = a / 2.
Proof.
  intros Ha. unfold int_quot. rewrite Z.quot_div_nonneg by lia.
  apply wrap_id. unfold Int.in_range, Int.min_int, Int.max_int in *.
  pose proof (Z.div_pos a 2). pose proof (Z.div_le_upper_bound a 2 a). lia.
Qed.

(** One axis of [anchorPt]: the three places of a segment of length [w]
    in [[lo, hi]]. *)
Lemma anchor_axis (lo hi w : Z) :
  Int.in_range lo -> Int.in_range hi -> 0 <= hi - lo <= Int.max_int -> 0 <= w <= hi - lo ->
  let mid := lo [+] int_quot ((hi [-] lo) [-] w) 2 in
  hi [-] w = hi - w /\ mid = lo + (hi - lo - w) / 2.
Proof.
  intros Hlo Hhi Hd Hw. cbv zeta. split; [apply sub_id; in_range_tac|].
  rewrite (sub_id hi lo) by in_range_tac. rewrite sub_id by in_range_tac.
  rewrite int_quot_2 by lia.
  apply add_id. pose proof (Z.div_pos (hi - lo - w) 2).
  pose proof (Z.div_le_upper_bound (hi - lo - w) 2 (hi - lo - w)). in_range_tac.
Qed.

Lemma anchorPt_cases (b : Rectangle.t) (w h : Z) (anchor : Anchor) :
  int_rectangle b ->
  0 <= w <= Point.X (Rectangle.Max b) - Point.X (Rectangle.Min b) ->
  0 <= h <= Point.Y (Rectangle.Max b) - Point.Y (Rectangle.Min b) ->
  let p := anchorPt b w h anchor in
  let dx := Point.X (Rectangle.Max b) - Point.X (Rectangle.Min b) - w in
  let dy := Point.Y (Rectangle.Max b) - Point.Y (Rectangle.Min b) - h in
  (Point.X p = Point.X (Rectangle.Min b)
   \/ Point.X p = Point.X (Rectangle.Min b) + dx / 2
   \/ Point.X p = Point.X (Rectangle.Max b) - w)
  /\ (Point.Y p = Point.Y (Rectangle.Min b)
      \/ Point.Y p = Point.Y (Rectangle.Min b) + dy / 2
      \/ Point.Y p = Point.Y (Rectangle.Max b) - h).
Proof.
  intros [Hx0 Hy0 Hdx Hdy Hx1 Hy1] Hw Hh.
  destruct (anchor_axis _ _ w Hx0 Hx1 Hdx Hw) as [Ex1 Ex2].
  destruct (anchor_axis _ _ h Hy0 Hy1 Hdy Hh) as [Ey1 Ey2].
  cbv zeta. unfold anchorPt, Rectangle.Dx, Rectangle.Dy.
  rewrite Ex1, Ex2, Ey1, Ey2.
  repeat match goal with |- context [if ?c then _ else _] => destruct c end;
    psimpl; auto.
Qed.

Lemma reads_grid (img : Image.t) (x0 y0 wd ht : Z) :
  0 <= wd -> 0 <= ht -> 4 * wd * ht <= Int.max_int ->
  reads (buffer wd ht (grid img x0 y0 wd ht)) wd ht
    (fun x y => Image.At img (x0 + x) (y0 + y)).
Proof.
  intros Hw Hh Hl. repeat split.
  - simpl. by rewrite length_grid.
  - intros x y Hx Hy. by rewrite NRGBAAt_grid.
Qed.

Lemma larger_of (a b : Z) : a <= b -> (if a <? b then b else a) = b.
Proof. intros. destruct (Z.ltb_spec a b); lia. Qed.

Lemma smaller_of (a b : Z) : a <= b -> (if a <? b then a else b) = a.
Proof. intros. destruct (Z.ltb_spec a b); lia. Qed.

Lemma Intersect_inside_r (r s : Rectangle.t) :
  Point.X (Rectangle.Min r) <= Point.X (Rectangle.Min s) ->
  Point.Y (Rectangle.Min r) <= Point.Y (Rectangle.Min s) ->
  Point.X (Rectangle.Max s) <= Point.X (Rectangle.Max r) ->
  Point.Y (Rectangle.Max s) <= Point.Y (Rectangle.Max r) ->
  Point.X (Rectangle.Min s) < Point.X (Rectangle.Max s) ->
  Point.Y (Rectangle.Min s) < Point.Y (Rectangle.Max s) ->
  Rectangle.Intersect r s = s /\ Rectangle.Intersect s r = s.
Proof.
  destruct r as [[rx0 ry0] [rx1 ry1]], s as [[sx0 sy0] [sx1 sy1]]. psimpl. intros.
  assert (E : Rectangle.Empty {| Rectangle.Min := Pt sx0 sy0; Rectangle.Max := Pt sx1 sy1 |}
              = false).
  { unfold Rectangle.Empty. psimpl.
    destruct (Z.leb_spec sx1 sx0); [lia|]. destruct (Z.leb_spec sy1 sy0); [lia|]. done. }
  unfold Rectangle.Intersect. psimpl. split.
  - rewrite !larger_of, !smaller_of by done. by rewrite E.
  - rewrite (proj2 (Z.ltb_ge sx0 rx0)), (proj2 (Z.ltb_ge sy0 ry0)),
      (proj2 (Z.ltb_ge rx1 sx1)), (proj2 (Z.ltb_ge ry1 sy1)) by done. by rewrite E.
Qed.

Lemma wf_area (img : Image.t) (w h : Z) :
  wf_image img -> 0 <= w <= width img -> 0 <= h <= height img ->
  4 * w * h <= Int.max_int.
Proof.
  intros [Hw Hh Hs Hl] ? ?.
  pose proof (area_mono w h (width img) (height img) ltac:(lia) ltac:(lia)). lia.
Qed.

(** A window of the image is cropped whole. *)
Lemma Crop_window (img : Image.t) (p : Point.t) (w h : Z) :
  wf_image img -> 0 < w -> 0 < h ->
  Point.X (Rectangle.Min (Image.Bounds img)) <= Point.X p ->
  Point.Y (Rectangle.Min (Image.Bounds img)) <= Point.Y p ->
  Point.X p + w <= Point.X (Rectangle.Max (Image.Bounds img)) ->
  Point.Y p + h <= Point.Y (Rectangle.Max (Image.Bounds img)) ->
  Crop img (window p w h) = Ok (buffer w h (grid img (Point.X p) (Point.Y p) w h)).
Proof.
  intros Hwf Hw Hh Hx0 Hy0 Hx1 Hy1. rewrite Crop_Ok by done. cbv zeta.
  destruct (Intersect_inside_r (Image.Bounds img) (window p w h)) as [_ ->];
    try (simpl; lia).
  unfold Rectangle.Empty. rewrite pixels_grid. unfold window. psimpl.
  destruct (Z.leb_spec (Point.X p + w) (Point.X p)); [lia|].
  destruct (Z.leb_spec (Point.Y p + h) (Point.Y p)); [lia|]. simpl.
  by replace (Point.X p + w - Point.X p) with w by lia;
     replace (Point.Y p + h - Point.Y p) with h by lia.
Qed.

Lemma anchorPt_bounds (b : Rectangle.t) (w h : Z) (anchor : Anchor) :
  int_rectangle b ->
  0 <= w <= Point.X (Rectangle.Max b) - Point.X (Rectangle.Min b) ->
  0 <= h <= Point.Y (Rectangle.Max b) - Point.Y (Rectangle.Min b) ->
  let p := anchorPt b w h anchor in
  Point.X (Rectangle.Min b) <= Point.X p /\ Point.X p + w <= Point.X (Rectangle.Max b)
  /\ Point.Y (Rectangle.Min b) <= Point.Y p /\ Point.Y p + h <= Point.Y (Rectangle.Max b).
Proof.
  intros Hb Hw Hh. destruct (anchorPt_cases b w h anchor Hb Hw Hh) as [Hx Hy].
  cbv zeta in *.
  set (dx := Point.X (Rectangle.Max b) - Point.X (Rectangle.Min b) - w) in *.
  set (dy := Point.Y (Rectangle.Max b) - Point.Y (Rectangle.Min b) - h) in *.
  pose proof (Z.div_pos dx 2). pose proof (Z.div_le_upper_bound dx 2 dx).
  pose proof (Z.div_pos dy 2). pose proof (Z.div_le_upper_bound dy 2 dy).
  lia.
Qed.

(** X10: The rectangle [anchorPt] places: for every anchor, a [w] by [h]
    rectangle that fits in [b] is placed inside [b]. *)
Theorem anchorPt_inside (b : Rectangle.t) (w h : Z) (anchor : Anchor) :
  int_rectangle b ->
  0 <= w <= Point.X (Rectangle.Max b) - Point.X (Rectangle.Min b) ->
  0 <= h <= Point.Y (Rectangle.Max b) - Point.Y (Rectangle.Min b) ->
  let p := anchorPt b w h anchor in
  Point.X (Rectangle.Min b) <= Point.X p /\ Point.X p + w <= Point.X (Rectangle.Max b)
  /\ Point.Y (Rectangle.Min b) <= Point.Y p /\ Point.Y p + h <= Point.Y (Rectangle.Max b).
Proof. apply anchorPt_bounds. Qed.

Lemma anchorPt_inside_witness :
  let p := anchorPt (Rect 0 0 10 7) 4 2 Right in
  0 <= Point.X p /\ Point.X p + 4 <= 10 /\ 0 <= Point.Y p /\ Point.Y p + 2 <= 7.
Proof.
  apply (anchorPt_inside (Rect 0 0 10 7) 4 2 Right);
    [constructor; vm_compute; intuition discriminate | simpl; lia | simpl; lia].
Defined.

(** X11: The default branch of [anchorPt], which [Center] and every unnamed
    anchor value take, centres the rectangle: the margins on the two sides
    of an axis differ by one at most, the larger one after. *)
Theorem anchorPt_centred (b : Rectangle.t) (w h : Z) (anchor : Anchor) :
  int_rectangle b ->
  0 <= w <= Point.X (Rectangle.Max b) - Point.X (Rectangle.Min b) ->
  0 <= h <= Point.Y (Rectangle.Max b) - Point.Y (Rectangle.Min b) ->
  ~ 1 <= anchor <= 8 ->
  let p := anchorPt b w h anchor in
  let left := Point.X p - Point.X (Rectangle.Min b) in
  let right := Point.X (Rectangle.Max b) - (Point.X p + w) in
  let top := Point.Y p - Point.Y (Rectangle.Min b) in
  let bottom := Point.Y (Rectangle.Max b) - (Point.Y p + h) in
  left <= right <= left + 1 /\ top <= bottom <= top + 1.
Proof.
  intros [Hx0 Hy0 Hdx Hdy Hx1 Hy1] Hw Hh Ha.
  destruct (anchor_axis _ _ w Hx0 Hx1 Hdx Hw) as [Ex1 Ex2].
  destruct (anchor_axis _ _ h Hy0 Hy1 Hdy Hh) as [Ey1 Ey2].
  cbv zeta. unfold anchorPt, Rectangle.Dx, Rectangle.Dy.
  rewrite Ex2, Ey2.
  unfold TopLeft, Top, TopRight, Left, Right, BottomLeft, Bottom, BottomRight.
  repeat match goal with
    | |- context [?a =? ?b] => destruct (Z.eqb_spec a b); [lia|]
    end.
  psimpl. Z.div_mod_to_equations. lia.
Qed.

Lemma anchorPt_centred_witness :
  let p := anchorPt (Rect 0 0 10 7) 4 2 Center in
  (Point.X p - 0 <= 10 - (Point.X p + 4) <= Point.X p - 0 + 1)
  /\ (Point.Y p - 0 <= 7 - (Point.Y p + 2) <= Point.Y p - 0 + 1).
Proof.
  apply (anchorPt_centred (Rect 0 0 10 7) 4 2 Center);
    [constructor; vm_compute; intuition discriminate | simpl; lia | simpl; lia
    | unfold Center; lia].
Defined.

(** X12: [AnchorPoint] answers a point of the closed rectangle of the bounds;
    for [TopLeft] it is [Min] and for [BottomRight] it is [Max], which is
    not a pixel of the image. *)
Theorem AnchorPoint_in_bounds (i : Image.t) (anchor : Anchor) :
  int_rectangle (Image.Bounds i) ->
  let b := Image.Bounds i in
  let p := AnchorPoint i anchor in
  (Point.X (Rectangle.Min b) <= Point.X p <= Point.X (Rectangle.Max b)
   /\ Point.Y (Rectangle.Min b) <= Point.Y p <= Point.Y (Rectangle.Max b))
  /\ AnchorPoint i TopLeft = Pt (Point.X (Rectangle.Min b)) (Point.Y (Rectangle.Min b))
  /\ AnchorPoint i BottomRight = Pt (Point.X (Rectangle.Max b)) (Point.Y (Rectangle.Max b))
  /\ ~ Rectangle.contains b (Point.X (AnchorPoint i BottomRight))
                            (Point.Y (AnchorPoint i BottomRight)).
Proof.
  intros Hb. cbv zeta. pose proof Hb as [Hx0 Hy0 Hdx Hdy Hx1 Hy1].
  pose proof (anchorPt_bounds (Image.Bounds i) 0 0 anchor Hb ltac:(lia) ltac:(lia)) as Hp.
  cbv zeta in Hp. fold (AnchorPoint i anchor) in Hp.
  assert (E : AnchorPoint i BottomRight
              = Pt (Point.X (Rectangle.Max (Image.Bounds i)))
                   (Point.Y (Rectangle.Max (Image.Bounds i)))).
  { unfold AnchorPoint, anchorPt. simpl. by rewrite !sub_id by in_range_tac; rewrite !Z.sub_0_r. }
  split; [lia|]. split; [done|]. split; [done|].
  rewrite E. unfold Rectangle.contains. simpl. lia.
Qed.

Lemma AnchorPoint_in_bounds_witness :
  let b := Image.Bounds sample_background in
  let p := AnchorPoint sample_background Bottom in
  (Point.X (Rectangle.Min b) <= Point.X p <= Point.X (Rectangle.Max b)
   /\ Point.Y (Rectangle.Min b) <= Point.Y p <= Point.Y (Rectangle.Max b))
  /\ AnchorPoint sample_background TopLeft
     = Pt (Point.X (Rectangle.Min b)) (Point.Y (Rectangle.Min b))
  /\ AnchorPoint sample_background BottomRight
     = Pt (Point.X (Rectangle.Max b)) (Point.Y (Rectangle.Max b))
  /\ ~ Rectangle.contains b (Point.X (AnchorPoint sample_background BottomRight))
                            (Point.Y (AnchorPoint sample_background BottomRight)).
Proof.
  apply (AnchorPoint_in_bounds sample_background Bottom).
  constructor; vm_compute; intuition discriminate.
Defined.

Lemma Rect_Add_window (w h : Z) (p : Point.t) :
  0 <= w -> 0 <= h -> Int.in_range (Point.X p) -> Int.in_range (Point.Y p) ->
  Int.in_range (Point.X p + w) -> Int.in_range (Point.Y p + h) ->
  Rectangle_Add (Rect 0 0 w h) p = window p w h.
Proof.
  intros Hw Hh Hx Hy Hx1 Hy1. unfold Rectangle_Add, Rect, window.
  destruct (Z.ltb_spec w 0); [lia|]. destruct (Z.ltb_spec h 0); [lia|]. psimpl.
  rewrite !add_id by (rewrite ?Z.add_0_l; first [done | by rewrite Z.add_comm]).
  rewrite !Z.add_0_l. by rewrite (Z.add_comm w), (Z.add_comm h).
Qed.

(** X13: [CropAnchor] with a size that fits in the image returns the [width]
    by [height] buffer of the pixels from the anchored point on. *)
Theorem CropAnchor_reads (img : Image.t) (width_ height_ : Z) (anchor : Anchor) :
  wf_image img -> int_rectangle (Image.Bounds img) ->
  0 < width_ <= width img -> 0 < height_ <= height img ->
  let pt := anchorPt (Image.Bounds img) width_ height_ anchor in
  exists dst, CropAnchor img width_ height_ anchor = Ok dst
    /\ reads dst width_ height_
         (fun x y => Image.At img (Point.X pt + x) (Point.Y pt + y)).
Proof.
  intros Hwf Hb Hw Hh. cbv zeta. pose proof Hb as [Hx0 Hy0 Hdx Hdy Hx1 Hy1].
  unfold width, height in Hw, Hh.
  pose proof (anchorPt_bounds (Image.Bounds img) width_ height_ anchor Hb
                ltac:(lia) ltac:(lia)) as Hp.
  cbv zeta in Hp. unfold CropAnchor.
  set (pt := anchorPt (Image.Bounds img) width_ height_ anchor) in *.
  rewrite Rect_Add_window by in_range_tac.
  destruct (Intersect_inside_r (Image.Bounds img) (window pt width_ height_)) as [-> _];
    try (simpl; lia).
  rewrite Crop_window by (done || lia).
  eexists. split; [done|]. apply reads_grid; try lia.
  apply (wf_area img); [done|unfold width; lia|unfold height; lia].
Qed.

Lemma CropAnchor_reads_witness :
  let pt := anchorPt (Image.Bounds sample_background) 1 2 TopRight in
  exists dst, CropAnchor sample_background 1 2 TopRight = Ok dst
    /\ reads dst 1 2 (fun x y => Image.At sample_background (Point.X pt + x) (Point.Y pt + y)).
Proof.
  apply (CropAnchor_reads sample_background 1 2 TopRight);
    [wf_tac | constructor; vm_compute; intuition discriminate
    | vm_compute; intuition discriminate | vm_compute; intuition discriminate].
Defined.

(** X14: Cropping the whole of a non-empty image, by [Crop] with the image's
    bounds or by [CropCenter] with its size, is cloning it. *)
Theorem Crop_whole (img : Image.t) :
  wf_image img -> int_rectangle (Image.Bounds img) -> 0 < width img -> 0 < height img ->
  Crop img (Image.Bounds img) = Clone img
  /\ CropCenter img (width img) (height img) = Clone img.
Proof.
  intros Hwf Hb Hw Hh. pose proof Hb as [Hx0 Hy0 Hdx Hdy Hx1 Hy1].
  assert (Hc : Crop img (Image.Bounds img) = Clone img).
  { rewrite Clone_Ok, pixels_grid by done. fold (width img) (height img).
    rewrite <- (Crop_window img (Rectangle.Min (Image.Bounds img)));
      try done; try (unfold width, height in *; lia).
    f_equal. unfold window, width, height. destruct (Image.Bounds img) as [[x0 y0] [x1 y1]].
    psimpl. unfold Pt.
    by replace (x0 + (x1 - x0)) with x1 by lia; replace (y0 + (y1 - y0)) with y1 by lia. }
  split; [done|]. rewrite <- Hc. unfold CropCenter, CropAnchor.
  unfold width, height in *.
  pose proof (anchorPt_cases (Image.Bounds img)
                (Point.X (Rectangle.Max (Image.Bounds img))
                 - Point.X (Rectangle.Min (Image.Bounds img)))
                (Point.Y (Rectangle.Max (Image.Bounds img))
                 - Point.Y (Rectangle.Min (Image.Bounds img))) Center Hb
                ltac:(lia) ltac:(lia)) as [Hx Hy].
  cbv zeta in Hx, Hy.
  set (pt := anchorPt (Image.Bounds img) _ _ Center) in *.
  rewrite Z.sub_diag in Hx, Hy. change (0 / 2) with 0 in Hx, Hy.
  rewrite Rect_Add_window by in_range_tac.
  assert (E : window pt (Point.X (Rectangle.Max (Image.Bounds img))
                         - Point.X (Rectangle.Min (Image.Bounds img)))
                        (Point.Y (Rectangle.Max (Image.Bounds img))
                         - Point.Y (Rectangle.Min (Image.Bounds img)))
              = Image.Bounds img).
  { assert (Ex : Point.X pt = Point.X (Rectangle.Min (Image.Bounds img))) by lia.
    assert (Ey : Point.Y pt = Point.Y (Rectangle.Min (Image.Bounds img))) by lia.
    unfold window. rewrite Ex, Ey.
    destruct (Image.Bounds img) as [[x0 y0] [x1 y1]]. psimpl. unfold Pt.
    by replace (x0 + (x1 - x0)) with x1 by lia; replace (y0 + (y1 - y0)) with y1 by lia. }
  rewrite E. destruct (Intersect_inside_r (Image.Bounds img) (Image.Bounds img)) as [-> _];
    try lia. done.
Qed.

Lemma Crop_whole_witness :
  Crop sample_background (Image.Bounds sample_background) = Clone sample_background
  /\ CropCenter sample_background (width sample_background) (height sample_background)
     = Clone sample_background.
Proof.
  apply Crop_whole;
    [wf_tac | constructor; vm_compute; intuition discriminate
    | vm_compute; reflexivity | vm_compute; reflexivity].
Defined.

Lemma Empty_Intersect_ZR (b : Rectangle.t) :
  Rectangle.Empty (Rectangle.Intersect Rectangle.ZR b) = true.
Proof.
  destruct (Intersect_cases Rectangle.ZR b) as [[_ E]|(_ & E1 & _ & E2 & _ & H & _)];
    [done|]. cbv zeta in *. simpl in E1, E2. lia.
Qed.

Lemma Intersect_disjoint (r s : Rectangle.t) :
  Point.X (Rectangle.Max s) <= Point.X (Rectangle.Min r) ->
  Rectangle.Intersect r s = Rectangle.ZR.
Proof.
  intros H. destruct (Intersect_cases r s) as [[E _]|(_ & E1 & _ & E2 & _ & Hlt & _)];
    [done|]. cbv zeta in *. lia.
Qed.

(** X15: [CropAnchor] does not treat a negative size as empty: [image.Rect]
    swaps the corners, so the rectangle ends at the anchored point.  With
    [TopLeft] it lies outside the image and the result is the empty buffer;
    with [Center] it lies inside and a [w] by [h] buffer is returned. *)
Theorem CropAnchor_negative (img : Image.t) (w h : Z) :
  wf_image img -> int_rectangle (Image.Bounds img) ->
  0 < w <= width img -> 0 < h <= height img ->
  CropAnchor img (- w) (- h) TopLeft = Ok NRGBA.empty
  /\ let pt := anchorPt (Image.Bounds img) (- w) (- h) Center in
     exists dst, CropCenter img (- w) (- h) = Ok dst
       /\ reads dst w h (fun x y => Image.At img (Point.X pt - w + x) (Point.Y pt - h + y)).
Proof.
  intros Hwf Hb Hw Hh. pose proof Hb as [Hx0 Hy0 Hdx Hdy Hx1 Hy1].
  pose proof Hwf as [Hfw Hfh Hfs Hfl]. unfold width, height in *.
  assert (Hfs' : 4 * (Point.Y (Rectangle.Max (Image.Bounds img))
                      - Point.Y (Rectangle.Min (Image.Bounds img))) <= Int.max_int) by nia.
  assert (HR : forall p, Int.in_range (Point.X p - w) -> Int.in_range (Point.Y p - h) ->
            Int.in_range (Point.X p) -> Int.in_range (Point.Y p) ->
            Rectangle_Add (Rect 0 0 (- w) (- h)) p
            = window (Pt (Point.X p - w) (Point.Y p - h)) w h).
  { intros p ? ? ? ?. unfold Rectangle_Add, Rect, window.
    destruct (Z.ltb_spec (- w) 0); [|lia]. destruct (Z.ltb_spec (- h) 0); [|lia]. psimpl.
    rewrite !add_id by (rewrite ?Z.add_0_l; first [done | by rewrite Z.add_comm, Z.add_opp_r]).
    unfold Pt. f_equal; f_equal; lia. }
  split.
  - unfold CropAnchor. rewrite Intersect_disjoint.
    2:{ unfold Rectangle_Add, Rect. destruct (Z.ltb_spec (- w) 0); [|lia].
        destruct (Z.ltb_spec (- h) 0); [|lia]. simpl.
        rewrite add_id by (by rewrite Z.add_0_l). lia. }
    rewrite Crop_Ok by done. cbv zeta. by rewrite Empty_Intersect_ZR.
  - cbv zeta. unfold CropCenter, CropAnchor.
    set (pt := anchorPt (Image.Bounds img) (- w) (- h) Center).
    assert (Hpt : Point.X pt = Point.X (Rectangle.Min (Image.Bounds img))
                    + (Point.X (Rectangle.Max (Image.Bounds img))
                       - Point.X (Rectangle.Min (Image.Bounds img)) + w) / 2
                  /\ Point.Y pt = Point.Y (Rectangle.Min (Image.Bounds img))
                    + (Point.Y (Rectangle.Max (Image.Bounds img))
                       - Point.Y (Rectangle.Min (Image.Bounds img)) + h) / 2).
    { unfold pt, anchorPt, Rectangle.Dx, Rectangle.Dy. simpl.
      rewrite (sub_id (Point.X (Rectangle.Max _))), (sub_id (Point.Y (Rectangle.Max _)))
        by in_range_tac.
      rewrite (sub_id _ (- w)), (sub_id _ (- h)) by in_range_tac. rewrite !Z.sub_opp_r.
      rewrite !int_quot_2 by in_range_tac.
      rewrite !add_id by (unfold Int.in_range, Int.min_int, Int.max_int in *;
                          Z.div_mod_to_equations; lia).
      done. }
    destruct Hpt as [Hpx Hpy].
    assert (Hin : Point.X (Rectangle.Min (Image.Bounds img)) <= Point.X pt - w
                  /\ Point.X pt <= Point.X (Rectangle.Max (Image.Bounds img))
                  /\ Point.Y (Rectangle.Min (Image.Bounds img)) <= Point.Y pt - h
                  /\ Point.Y pt <= Point.Y (Rectangle.Max (Image.Bounds img))).
    { rewrite Hpx, Hpy. Z.div_mod_to_equations. lia. }
    rewrite HR by in_range_tac.
    destruct (Intersect_inside_r (Image.Bounds img)
                (window (Pt (Point.X pt - w) (Point.Y pt - h)) w h)) as [-> _];
      try (unfold window; psimpl; lia).
    rewrite Crop_window; try done; try (psimpl; lia).
    eexists. split; [done|]. apply reads_grid; try lia.
    apply (wf_area img); [done|unfold width; lia|unfold height; lia].
Qed.

Lemma CropAnchor_negative_witness :
  CropAnchor sample_background (- 1) (- 2) TopLeft = Ok NRGBA.empty
  /\ let pt := anchorPt (Image.Bounds sample_background) (- 1) (- 2) Center in
     exists dst, CropCenter sample_background (- 1) (- 2) = Ok dst
       /\ reads dst 1 2
            (fun x y => Image.At sample_background (Point.X pt - 1 + x) (Point.Y pt - 2 + y)).
Proof.
  apply (CropAnchor_negative sample_background 1 2);
    [wf_tac | constructor; vm_compute; intuition discriminate
    | vm_compute; intuition discriminate | vm_compute; intuition discriminate].
Defined.

Lemma centre_axis (lo hi w : Z) :
  Int.in_range lo -> Int.in_range hi -> 0 <= hi - lo <= Int.max_int -> 0 <= w <= hi - lo ->
  let x0 := (lo [+] int_quot (hi [-] lo) 2) [-] int_quot w 2 in
  x0 [-] lo = centre_offset (hi - lo) w
  /\ 0 <= centre_offset (hi - lo) w
  /\ centre_offset (hi - lo) w + w <= hi - lo
  /\ centre_offset (hi - lo) w [+] w = centre_offset (hi - lo) w + w.
Proof.
  intros Hlo Hhi Hd Hw. cbv zeta. unfold centre_offset.
  rewrite (sub_id hi lo) by in_range_tac. rewrite !int_quot_2 by lia.
  assert (0 <= w / 2 <= (hi - lo) / 2 /\ (hi - lo) / 2 - w / 2 + w <= hi - lo
          /\ (hi - lo) / 2 <= hi - lo) as (? & ? & ?)
    by (Z.div_mod_to_equations; lia).
  rewrite (add_id lo) by in_range_tac.
  rewrite (sub_id (lo + _)) by in_range_tac.
  rewrite sub_id by in_range_tac. rewrite add_id by in_range_tac. lia.
Qed.

Lemma centre_geometry (background img : Image.t) :
  wf_image background -> wf_image img -> int_rectangle (Image.Bounds background) ->
  width img <= width background -> height img <= height background ->
  let ox := centre_offset (width background) (width img) in
  let oy := centre_offset (height background) (height img) in
  Rectangle.Min (pasteRect background img (centre background img)) = Pt ox oy
  /\ forall x y, covered (interRect background img (centre background img)) x y
                 = in_window ox oy (width img) (height img) x y.
Proof.
  intros Hb Hi Hr Hw Hh. cbv zeta.
  pose proof Hr as [Hx0 Hy0 Hdx Hdy Hx1 Hy1].
  pose proof Hb as [Hbw Hbh Hbs Hbl]. pose proof Hi as [Hiw Hih His Hil].
  unfold width, height in *.
  assert (Edx : Rectangle.Dx (Image.Bounds img)
                = Point.X (Rectangle.Max (Image.Bounds img))
                  - Point.X (Rectangle.Min (Image.Bounds img))).
  { pose proof (wf_Size img Hi) as E. unfold Rectangle.Size, Pt, width in E. by injection E. }
  assert (Edy : Rectangle.Dy (Image.Bounds img)
                = Point.Y (Rectangle.Max (Image.Bounds img))
                  - Point.Y (Rectangle.Min (Image.Bounds img))).
  { pose proof (wf_Size img Hi) as E. unfold Rectangle.Size, Pt, height in E. by injection E. }
  destruct (centre_axis _ _ _ Hx0 Hx1 Hdx (conj Hiw Hw)) as (Ex & Hx2 & Hx3 & Ex').
  destruct (centre_axis _ _ _ Hy0 Hy1 Hdy (conj (proj1 Hih) Hh)) as (Ey & Hy2 & Hy3 & Ey').
  cbv zeta in Ex, Ey.
  set (ox := centre_offset (Point.X (Rectangle.Max (Image.Bounds background))
                            - Point.X (Rectangle.Min (Image.Bounds background)))
                           (Point.X (Rectangle.Max (Image.Bounds img))
                            - Point.X (Rectangle.Min (Image.Bounds img)))) in *.
  set (oy := centre_offset (Point.Y (Rectangle.Max (Image.Bounds background))
                            - Point.Y (Rectangle.Min (Image.Bounds background)))
                           (Point.Y (Rectangle.Max (Image.Bounds img))
                            - Point.Y (Rectangle.Min (Image.Bounds img)))) in *.
  assert (Ep : pasteRect background img (centre background img)
               = window (Pt ox oy) (Point.X (Rectangle.Max (Image.Bounds img))
                                    - Point.X (Rectangle.Min (Image.Bounds img)))
                                   (Point.Y (Rectangle.Max (Image.Bounds img))
                                    - Point.Y (Rectangle.Min (Image.Bounds img)))).
  { unfold pasteRect, centre, Point.Sub, Point.Add, Rectangle.Size, window. psimpl.
    unfold Rectangle.Dx at 1 3. unfold Rectangle.Dy at 1 3. rewrite Edx, Edy.
    unfold Rectangle.Dx, Rectangle.Dy. rewrite Ex, Ey, Ex', Ey'. done. }
  split; [by rewrite Ep|].
  intros x y. unfold interRect. rewrite Ep. unfold in_window.
  set (w := Point.X (Rectangle.Max (Image.Bounds img))
            - Point.X (Rectangle.Min (Image.Bounds img))) in *.
  set (h := Point.Y (Rectangle.Max (Image.Bounds img))
            - Point.Y (Rectangle.Min (Image.Bounds img))) in *.
  destruct (Z.eq_dec w 0) as [Hw0|Hw0]; [|destruct (Z.eq_dec h 0) as [Hh0|Hh0]].
  - destruct (Intersect_cases (window (Pt ox oy) w h) (cloneBounds background))
      as [[-> _]|(_ & E1 & _ & E2 & _ & Hlt & _)].
    + unfold covered. simpl.
      destruct (Z.leb_spec ox x), (Z.ltb_spec x (ox + w)), (Z.leb_spec 0 x), (Z.ltb_spec x 0);
        simpl; try done; lia.
    + cbv zeta in *. simpl in E1, E2. lia.
  - destruct (Intersect_cases (window (Pt ox oy) w h) (cloneBounds background))
      as [[-> _]|(_ & _ & E1 & _ & E2 & _ & Hlt)].
    + unfold covered. simpl.
      destruct (Z.leb_spec oy y), (Z.ltb_spec y (oy + h)), (Z.leb_spec 0 y), (Z.ltb_spec y 0),
        (Z.leb_spec ox x), (Z.ltb_spec x (ox + w)), (Z.leb_spec 0 x), (Z.ltb_spec x 0);
        simpl; try done; lia.
    + cbv zeta in *. simpl in E1, E2. lia.
  - destruct (Intersect_inside_r (cloneBounds background) (window (Pt ox oy) w h))
      as [_ ->]; try (unfold cloneBounds, window, width, height; psimpl; lia).
    reflexivity.
Qed.

Lemma PasteCenter_centre (background img : Image.t) :
  PasteCenter background img = Paste background img (centre background img).
Proof. reflexivity. Qed.

Lemma OverlayCenter_centre (P : Platform) (background img : Image.t) (opacity : float) :
  OverlayCenter P background img opacity
  = Overlay P background img (centre background img) opacity.
Proof. reflexivity. Qed.

Lemma reads_ext (dst : NRGBA.t) (wd ht : Z) (f g : Z -> Z -> color.NRGBA) :
  (forall x y, 0 <= x < wd -> 0 <= y < ht -> f x y = g x y) ->
  reads dst wd ht f -> reads dst wd ht g.
Proof.
  intros Hfg (H1 & H2 & H3 & H4). repeat split; try done.
  intros x y Hx Hy. rewrite H4 by done. by apply Hfg.
Qed.

Lemma composed_centre (f : color.NRGBA -> color.NRGBA -> color.NRGBA)
    (background img : Image.t) (x y : Z) :
  wf_image background -> wf_image img -> int_rectangle (Image.Bounds background) ->
  width img <= width background -> height img <= height background ->
  let ox := centre_offset (width background) (width img) in
  let oy := centre_offset (height background) (height img) in
  composed f background img (centre background img) x y
  = if in_window ox oy (width img) (height img) x y
    then f (pixel_at background x y) (pixel_at img (x - ox) (y - oy))
    else pixel_at background x y.
Proof.
  intros Hb Hi Hr Hw Hh. cbv zeta.
  destruct (centre_geometry background img Hb Hi Hr Hw Hh) as [Ep Hc]. cbv zeta in Ep, Hc.
  unfold composed. by rewrite Hc, Ep.
Qed.

(** X16: PasteCenter puts an image no larger than the background in the
    middle of it: the result reads the image in the window at
    [(W/2 - w/2, H/2 - h/2)] and the background elsewhere. *)
Theorem PasteCenter_reads (background img : Image.t) :
  wf_image background -> wf_image img -> int_rectangle (Image.Bounds background) ->
  width img <= width background -> height img <= height background ->
  let ox := width background / 2 - width img / 2 in
  let oy := height background / 2 - height img / 2 in
  exists dst, PasteCenter background img = Ok dst
    /\ reads dst (width background) (height background)
         (fun x y =>
            if (ox <=? x) && (x <? ox + width img) && (oy <=? y) && (y <? oy + height img)
            then pixel_at img (x - ox) (y - oy)
            else pixel_at background x y).
Proof.
  intros Hb Hi Hr Hw Hh. cbv zeta. rewrite PasteCenter_centre.
  rewrite Paste_Ok by done. eexists. split; [done|].
  apply (reads_ext _ _ _ (composed (fun _ c => c) background img (centre background img)));
    [|by apply reads_overlaid].
  intros x y _ _. by rewrite composed_centre.
Qed.

Lemma PasteCenter_reads_witness :
  let ox := width sample_background / 2 - width sample_opaque / 2 in
  let oy := height sample_background / 2 - height sample_opaque / 2 in
  exists dst, PasteCenter sample_background sample_opaque = Ok dst
    /\ reads dst (width sample_background) (height sample_background)
         (fun x y =>
            if (ox <=? x) && (x <? ox + width sample_opaque)
               && (oy <=? y) && (y <? oy + height sample_opaque)
            then pixel_at sample_opaque (x - ox) (y - oy)
            else pixel_at sample_background x y).
Proof.
  apply PasteCenter_reads;
    [wf_tac | wf_tac | constructor; vm_compute; intuition discriminate
    | vm_compute; discriminate | vm_compute; discriminate].
Defined.

(** X17: Pasting an image in the middle of a background of its own size
    replaces the background: the result is the image's clone. *)
Theorem PasteCenter_same_size (background img : Image.t) :
  wf_image background -> wf_image img -> int_rectangle (Image.Bounds background) ->
  width img = width background -> height img = height background ->
  PasteCenter background img = Clone img.
Proof.
  intros Hb Hi Hr Hw Hh. rewrite PasteCenter_centre, Paste_Ok, Clone_Ok by done.
  rewrite Hw, Hh. do 2 f_equal. rewrite !pixels_grid.
  fold (width background) (height background) (width img) (height img).
  rewrite Hw, Hh. apply grid_shift. intros x y Hx Hy.
  destruct (centre_geometry background img Hb Hi Hr) as [Ep Hc]; [lia..|].
  cbv zeta in Ep, Hc. unfold overlaid. psimpl.
  set (bx := Point.X (Rectangle.Min (Image.Bounds background))).
  set (by_ := Point.Y (Rectangle.Min (Image.Bounds background))).
  replace (bx + x - bx) with x by lia. replace (by_ + y - by_) with y by lia.
  rewrite Hc, Ep, Hw, Hh. unfold centre_offset, in_window. psimpl.
  rewrite !Z.sub_diag, !Z.sub_0_r.
  destruct (Z.leb_spec 0 x); [|lia]. destruct (Z.ltb_spec x (0 + width background)); [|lia].
  destruct (Z.leb_spec 0 y); [|lia]. destruct (Z.ltb_spec y (0 + height background)); [|lia].
  done.
Qed.

Lemma PasteCenter_same_size_witness :
  PasteCenter sample_opaque sample_transparent = Clone sample_transparent.
Proof.
  apply PasteCenter_same_size;
    [wf_tac | wf_tac | constructor; vm_compute; intuition discriminate
    | reflexivity | reflexivity].
Defined.

(** X18: OverlayCenter at opacity 1.0 with a fully opaque image is
    PasteCenter. *)
Theorem OverlayCenter_opaque (P : Platform) (background img : Image.t) :
  wf_image background -> wf_image img -> all_alpha img xff ->
  OverlayCenter P background img 1 = PasteCenter background img.
Proof.
  intros Hb Hf Ht. rewrite OverlayCenter_centre, PasteCenter_centre, Paste_Ok by done.
  apply Overlay_eq_pixels; try done.
  intros x y Ho. rewrite clamp_opacity_1, apply_op_OpBlend. cbv zeta. unfold laid.
  pose proof (Ht _ _ (overlapped_foreground background img _ x y Hb Hf Ho)) as Hx.
  cbv zeta in Hx. destruct (Image.At img _ _) as [r2 g2 b2 a2]. simpl in Hx. subst a2.
  cbn [color.A color.R color.G color.B].
  by rewrite blend_coefs_1_opaque, !blend_channel_0_1, blend_alpha_1_opaque.
Qed.

Lemma OverlayCenter_opaque_witness :
  OverlayCenter platform0 sample_background sample_opaque 1
  = PasteCenter sample_background sample_opaque.
Proof. apply OverlayCenter_opaque; [wf_tac|wf_tac|]. intros x y _. reflexivity. Defined.

Global Arguments New : simpl never.
Global Arguments Repeat : simpl never.

Lemma one_mul_of_uint8 (b : byte) : (1 * Float64.of_uint8 b)%float = Float64.of_uint8 b.
Proof.
  apply FloatAxioms.Leibniz.eqb_spec.
  apply (forall_bytes (fun b =>
           PrimFloat.Leibniz.eqb (1 * Float64.of_uint8 b)%float (Float64.of_uint8 b))).
  vm_compute. reflexivity.
Qed.

Lemma apply_op_canvas (P : Platform) (c1 c2 : color.NRGBA) :
  apply_op P canvas_op c1 c2 = apply_op P (OpBlend 1) c1 c2.
Proof.
  unfold apply_op, canvas_op, OpBlend. cbv zeta.
  by rewrite one_mul_of_uint8, of_uint8_mul_1.
Qed.

Lemma OverlayOnCanvas_pixel_op (P : Platform) :
  OverlayOnCanvas_pixel P = OverlayWithOp_pixel P canvas_op.
Proof. reflexivity. Qed.

Lemma OverlayOnCanvas_worker_op (P : Platform) :
  OverlayOnCanvas_worker P = OverlayWithOp_worker P canvas_op.
Proof.
  unfold OverlayOnCanvas_worker, OverlayWithOp_worker, OverlayOnCanvas_row, OverlayWithOp_row.
  by rewrite OverlayOnCanvas_pixel_op.
Qed.

Lemma wf_canvas (dst : NRGBA.t) (wd ht : Z) :
  canvas dst wd ht ->
  wf_image (NRGBA.Image dst) /\ width (NRGBA.Image dst) = wd
  /\ height (NRGBA.Image dst) = ht.
Proof.
  intros ((Hw & Hh & Hs & Hl) & img & x0 & y0 & ->).
  split; [by apply wf_buffer|]. unfold width, height. simpl. lia.
Qed.

Lemma bind_const {A B} (l : list A) (r : list B) :
  (l ≫= fun _ => r) = mjoin (replicate (length l) r).
Proof. induction l as [|a l IH]; [done|]. cbn [length replicate]. by rewrite bind_cons, IH. Qed.

Lemma join_replicate_mul {A} (a b : nat) (r : list A) :
  mjoin (replicate a (mjoin (replicate b r))) = mjoin (replicate (a * b) r).
Proof.
  induction a as [|a IH]; [done|]. simpl. rewrite IH.
  by rewrite replicate_add, join_app.
Qed.

Lemma grid_uniform (r : Rectangle.t) (c : color.NRGBA) (x0 y0 wd ht : Z) :
  0 <= wd -> 0 <= ht ->
  grid (uniform r c) x0 y0 wd ht = mjoin (replicate (Z.to_nat (wd * ht)) (color.bytes c)).
Proof.
  intros Hw Hh. unfold grid.
  assert (Hrow : forall y, row_colors (uniform r c) x0 y wd ≫= color.bytes
                      = mjoin (replicate (Z.to_nat wd) (color.bytes c))).
  { intros y. unfold row_colors. simpl.
    rewrite (const_fmap _ _ c) by done. rewrite length_seqZ.
    generalize (Z.to_nat wd). intros n. induction n as [|n IH]; [done|].
    cbn [replicate]. by rewrite bind_cons, IH. }
  rewrite (list_bind_ext _ (fun _ => mjoin (replicate (Z.to_nat wd) (color.bytes c)))
             (seqZ y0 ht) (seqZ y0 ht)) by done.
  rewrite bind_const, length_seqZ, join_replicate_mul. do 3 f_equal. lia.
Qed.

Lemma join_replicate_zero (n : nat) :
  mjoin (replicate n (color.bytes color.zero)) = replicate (4 * n) x00.
Proof.
  induction n as [|n IH]; [done|].
  replace (4 * S n)%nat with (S (S (S (S (4 * n))))) by lia. simpl. by rewrite IH.
Qed.

Lemma color_eqb_eq (c d : color.NRGBA) : color_eqb c d = true -> c = d.
Proof.
  destruct c, d. unfold color_eqb. simpl. rewrite !andb_true_iff.
  intros [[[H1 H2] H3] H4]. apply Byte.byte_dec_bl in H1, H2, H3, H4. by subst.
Qed.

Lemma New_Ok (wd ht : Z) (c : color.NRGBA) :
  0 < wd -> 0 < ht -> 4 * wd * ht <= Int.max_int ->
  New wd ht c = Ok (buffer wd ht (grid (uniform (Rect 0 0 wd ht) c) 0 0 wd ht)).
Proof.
  intros Hw Hh Hl. assert (4 * wd <= 4 * wd * ht /\ ht <= 4 * wd * ht
                           /\ wd * ht <= 4 * wd * ht) as (? & ? & ?) by nia.
  unfold New. destruct (Z.leb_spec wd 0); [lia|]. destruct (Z.leb_spec ht 0); [lia|].
  simpl orb. cbv iota. rewrite grid_uniform by lia.
  destruct (color_eqb c color.zero) eqn:Ec.
  - apply color_eqb_eq in Ec as ->. rewrite NewNRGBA_Ok by lia.
    rewrite join_replicate_zero. do 3 f_equal. lia.
  - rewrite (mul_id wd ht), (mul_id 4 wd) by in_range_tac.
    unfold Repeat. destruct (Z.ltb_spec (wd * ht) 0); [lia|].
    simpl length. destruct (Z.ltb_spec Int.max_int (Z.of_nat 4 * (wd * ht))); [lia|].
    rewrite bind_Ok. unfold buffer, Rect.
    destruct (Z.ltb_spec wd 0); [lia|]. destruct (Z.ltb_spec ht 0); [lia|]. done.
Qed.

Lemma canvas_New (wd ht : Z) (c : color.NRGBA) :
  (0 < wd -> 0 < ht -> 4 * wd * ht <= Int.max_int) ->
  exists dst wd' ht', New wd ht c = Ok dst /\ canvas dst wd' ht'.
Proof.
  intros Hl. destruct (Z.leb_spec wd 0) as [Hw|Hw]; [|destruct (Z.leb_spec ht 0) as [Hh|Hh]].
  - exists NRGBA.empty, 0, 0. split.
    + unfold New. by destruct (Z.leb_spec wd 0); [|lia].
    + split; [unfold Int.max_int; lia|]. by exists (uniform Rectangle.ZR color.zero), 0, 0.
  - exists NRGBA.empty, 0, 0. split.
    + unfold New. destruct (Z.leb_spec ht 0); [|lia]. by rewrite orb_true_r.
    + split; [unfold Int.max_int; lia|]. by exists (uniform Rectangle.ZR color.zero), 0, 0.
  - specialize (Hl Hw Hh). eexists _, wd, ht. split; [by apply New_Ok|].
    split; [|by eexists _, _, _]. nia.
Qed.

Lemma for_images_cons (entry : Image.t * Point.t) (images : list (Image.t * Point.t))
    (body : Image.t * Point.t -> NRGBA.t -> result NRGBA.t) (dst : NRGBA.t) :
  for_images (entry :: images) body dst = dst' ← body entry dst; for_images images body dst'.
Proof. reflexivity. Qed.

Lemma OverlayWithOp_ext (P : Platform) (background img : Image.t) (pos : Point.t)
    (op op' : OverlayOp) :
  wf_image background -> wf_image img ->
  (forall c1 c2, apply_op P op c1 c2 = apply_op P op' c1 c2) ->
  OverlayWithOp P background img pos op = OverlayWithOp P background img pos op'.
Proof.
  intros Hb Hi H. rewrite !OverlayWithOp_Ok by done. do 2 f_equal.
  by apply pixels_overlaid_ext.
Qed.

Lemma OverlayOnCanvas_image_Overlay (P : Platform) (dst : NRGBA.t) (wd ht : Z)
    (img : Image.t) (pos : Point.t) :
  canvas dst wd ht -> wf_image img ->
  OverlayOnCanvas_image P (img, pos) dst = Overlay P (NRGBA.Image dst) img pos 1
  /\ exists dst', Overlay P (NRGBA.Image dst) img pos 1 = Ok dst' /\ canvas dst' wd ht.
Proof.
  intros Hc Hi. destruct (wf_canvas dst wd ht Hc) as (Hb & Ew & Eh).
  split.
  - rewrite Overlay_OverlayWithOp, clamp_opacity_1.
    rewrite <- (OverlayWithOp_ext P _ _ _ canvas_op) by (done || apply apply_op_canvas).
    destruct Hc as ((Hw & Hh & Hs & Hl) & img0 & x0 & y0 & ->).
    unfold OverlayWithOp. rewrite Clone_buffer by done. rewrite bind_Ok.
    unfold OverlayOnCanvas_image. rewrite OverlayOnCanvas_worker_op. reflexivity.
  - rewrite Overlay_Ok by done. eexists. split; [done|].
    rewrite Ew, Eh, pixels_grid. fold (width (NRGBA.Image dst)) (height (NRGBA.Image dst)).
    rewrite Ew, Eh. split; [apply Hc|]. by eexists _, _, _.
Qed.

(** X19: OverlayOnCanvas is the canvas of [New] with each image in turn laid
    over it by [Overlay] at opacity 1.0. *)
Theorem OverlayOnCanvas_Overlay (P : Platform) (w h : Z) (bgColor : color.NRGBA)
    (images : list (Image.t * Point.t)) :
  (0 < w -> 0 < h -> 4 * w * h <= Int.max_int) ->
  Forall (fun entry => wf_image entry.1) images ->
  OverlayOnCanvas P w h bgColor images
  = dst ← New w h bgColor;
    for_images images (fun entry dst => Overlay P (NRGBA.Image dst) entry.1 entry.2 1) dst.
Proof.
  intros Hl Hwf. unfold OverlayOnCanvas.
  destruct (canvas_New w h bgColor Hl) as (dst & wd & ht & -> & Hc). rewrite !bind_Ok.
  revert dst Hc. induction Hwf as [|[img pos] images Hi _ IH]; intros dst Hc; [done|].
  destruct (OverlayOnCanvas_image_Overlay P dst wd ht img pos Hc Hi) as (E & dst' & E' & Hc').
  rewrite !for_images_cons, E. cbn [fst snd]. rewrite E', !bind_Ok. by apply IH.
Qed.

Lemma OverlayOnCanvas_Overlay_witness :
  OverlayOnCanvas platform0 2 2 opaque [(sample_opaque, Pt 1 0); (sample_transparent, Pt 0 1)]
  = dst ← New 2 2 opaque;
    for_images [(sample_opaque, Pt 1 0); (sample_transparent, Pt 0 1)]
      (fun entry dst => Overlay platform0 (NRGBA.Image dst) entry.1 entry.2 1) dst.
Proof.
  apply OverlayOnCanvas_Overlay; [intros; vm_compute; discriminate|].
  repeat (constructor; [wf_tac|]). constructor.
Defined.

(** X20: New with a positive size that fits in memory returns the buffer every
    pixel of which is the fill colour: the clone of the uniform image. *)
Theorem New_reads (width_ height_ : Z) (fillColor : color.NRGBA) :
  0 < width_ -> 0 < height_ -> 4 * width_ * height_ <= Int.max_int ->
  exists dst, New width_ height_ fillColor = Ok dst
    /\ reads dst width_ height_ (fun _ _ => fillColor)
    /\ Clone (uniform (Rect 0 0 width_ height_) fillColor) = Ok dst.
Proof.
  intros Hw Hh Hl. rewrite New_Ok by done. eexists. split; [done|].
  split; [apply (reads_grid (uniform (Rect 0 0 width_ height_) fillColor)); lia|].
  assert (4 * width_ <= 4 * width_ * height_ /\ height_ <= 4 * width_ * height_)
    as (? & ?) by nia.
  assert (Hb : Image.Bounds (uniform (Rect 0 0 width_ height_) fillColor)
               = {| Rectangle.Min := Pt 0 0; Rectangle.Max := Pt width_ height_ |}).
  { simpl. unfold Rect. destruct (Z.ltb_spec width_ 0); [lia|].
    by destruct (Z.ltb_spec height_ 0); [lia|]. }
  rewrite Clone_Ok, pixels_grid.
  - unfold width, height. rewrite Hb. psimpl. by rewrite !Z.sub_0_r.
  - constructor; unfold width, height; rewrite Hb; psimpl; lia.
Qed.

Lemma New_reads_witness :
  exists dst, New 3 2 opaque = Ok dst
    /\ reads dst 3 2 (fun _ _ => opaque)
    /\ Clone (uniform (Rect 0 0 3 2) opaque) = Ok dst.
Proof. apply New_reads; vm_compute; done. Defined.

(** X21: New does not check that [width*height] is a value of [int]: where the
    product wraps around to 0, a fill colour other than transparent black
    gives a buffer of the full rectangle with no pixel data, while
    transparent black panics in [image.NewNRGBA]. *)
Theorem New_wraps (width_ height_ : Z) (fillColor : color.NRGBA) :
  0 < width_ <= Int.max_int -> 0 < height_ <= Int.max_int ->
  width_ [*] height_ = 0 ->
  New width_ height_ color.zero = Panic
  /\ (fillColor <> color.zero ->
      New width_ height_ fillColor
      = Ok {| NRGBA.Pix := []; NRGBA.Stride := 4 [*] width_;
              NRGBA.Rect := {| Rectangle.Min := Pt 0 0;
                               Rectangle.Max := Pt width_ height_ |} |}).
Proof.
  intros Hw Hh H0. unfold New.
  destruct (Z.leb_spec width_ 0); [lia|]. destruct (Z.leb_spec height_ 0); [lia|].
  simpl orb. cbv iota. split.
  - change (color_eqb color.zero color.zero) with true. cbv iota.
    unfold NewNRGBA, Rect. destruct (Z.ltb_spec width_ 0); [lia|].
    destruct (Z.ltb_spec height_ 0); [lia|]. unfold Rectangle.Dx, Rectangle.Dy. psimpl.
    rewrite !sub_id by in_range_tac. rewrite !Z.sub_0_r.
    assert (2 ^ 64 <= width_ * height_).
    { unfold Int.mul, Int.wrap in H0. assert (0 < width_ * height_) by nia.
      Z.div_mod_to_equations. lia. }
    unfold mul3NonNeg. destruct (Z.ltb_spec width_ 0); [lia|].
    destruct (Z.ltb_spec height_ 0); [lia|]. simpl orb. cbv iota.
    destruct (Z.leb_spec (2 ^ 64) (4 * width_)); [done|].
    destruct (Z.leb_spec (2 ^ 64) (4 * width_ * height_)); [done|lia].
  - intros Hc. destruct (color_eqb fillColor color.zero) eqn:Ec.
    { by apply color_eqb_eq in Ec. }
    rewrite H0. unfold Repeat. simpl. unfold Rect.
    destruct (Z.ltb_spec width_ 0); [lia|]. by destruct (Z.ltb_spec height_ 0); [lia|].
Qed.

Lemma New_wraps_witness :
  New (2 ^ 32) (2 ^ 32) color.zero = Panic
  /\ (opaque <> color.zero ->
      New (2 ^ 32) (2 ^ 32) opaque
      = Ok {| NRGBA.Pix := []; NRGBA.Stride := 4 [*] 2 ^ 32;
              NRGBA.Rect := {| Rectangle.Min := Pt 0 0;
                               Rectangle.Max := Pt (2 ^ 32) (2 ^ 32) |} |}).
Proof. apply New_wraps; vm_compute; intuition discriminate. Defined.

Lemma for_each_app {St : Type} (ks1 ks2 : list Z) (body : Z -> St -> result St) (s : St) :
  for_each (ks1 ++ ks2) body s = s' ← for_each ks1 body s; for_each ks2 body s'.
Proof.
  revert s. induction ks1 as [|k ks1 IH]; intros s; [done|].
  rewrite <- app_comm_cons, !for_each_cons. destruct (body k s); [|done].
  rewrite !bind_Ok. apply IH.
Qed.

Lemma for_range_last_Panic {St : Type} (lo hi : Z) (body : Z -> St -> result St) (s s' : St) :
  lo < hi -> for_range lo (hi - 1) body s = Ok s' -> body (hi - 1) s' = Panic ->
  for_range lo hi body s = Panic.
Proof.
  intros Hlt H1 H2. unfold for_range in *.
  replace (hi - lo) with (hi - 1 - lo + 1) by lia.
  rewrite seqZ_app by lia. rewrite for_each_app, H1, bind_Ok.
  replace (lo + (hi - 1 - lo)) with (hi - 1) by lia.
  rewrite seqZ_cons, seqZ_nil by lia. by rewrite for_each_cons, H2.
Qed.

Lemma index_Panic {A} (s : list A) (i : Z) : Z.of_nat (length s) <= i -> index s i = Panic.
Proof.
  intros. unfold index. destruct (Z.ltb_spec i (Z.of_nat (length s))); [lia|].
  by rewrite andb_false_r.
Qed.

Lemma uint8_lt_x00 (threshold : byte) : uint8_lt threshold x00 = false.
Proof. unfold uint8_lt. apply N.ltb_ge. simpl. lia. Qed.

Lemma alphas_below_replicate (threshold : byte) (n : nat) :
  alphas_below threshold (replicate n x00).
Proof. intros j a [-> _]%lookup_replicate. apply uint8_lt_x00. Qed.

Lemma alphas_below_scan (img : Image.t) (threshold : byte) (y : Z) (pix : list byte) :
  wf_image img -> 0 <= y -> 4 * y + 4 * width img <= Z.of_nat (length pix) ->
  row_below img threshold y -> alphas_below threshold pix ->
  alphas_below threshold
    (list_inserts (Z.to_nat (y * 4)) (scan_row (newScanner img) 0 y (width img)) pix).
Proof.
  intros Hwf Hy Hlen Hrow Hpix j a. pose proof Hwf as [Hw _ _ _].
  destruct (decide (Z.to_nat (y * 4) <= 4 * j + 3 < Z.to_nat (y * 4) + 4 * Z.to_nat (width img))%nat)
    as [Hin|Hout].
  - pose proof (index_scanned_alpha img 0 y (width img) pix (y * 4) (Z.of_nat j - y)
                  ltac:(lia) ltac:(lia) ltac:(lia)) as Hi.
    replace (y * 4 + 4 * (Z.of_nat j - y) + 3) with (Z.of_nat (4 * j + 3)) in Hi by lia.
    intros Ha. unfold index in Hi. rewrite Nat2Z.id, Ha in Hi.
    destruct (_ && _); [|done]. injection Hi as ->. rewrite Z.add_0_l. apply Hrow. lia.
  - destruct (decide (4 * j + 3 < Z.to_nat (y * 4))%nat).
    + rewrite list_lookup_inserts_lt by done. apply Hpix.
    + rewrite list_lookup_inserts_ge by (rewrite length_scan_row; lia). apply Hpix.
Qed.

(** A row of [OpaqueArea] whose reads stay in the buffer. *)
Lemma OpaqueArea_row_Ok (img : Image.t) (threshold : byte) (y : Z) (pix : list byte) (n : Z) :
  wf_image img -> 1 <= width img -> 0 <= y < height img ->
  y + width img + 1 <= width img * height img ->
  Z.of_nat (length pix) = 4 * width img * height img ->
  0 <= n <= width img * y ->
  exists pix' n',
    OpaqueArea_row (newScanner img) threshold y (pix, n) = Ok (pix', n')
    /\ Z.of_nat (length pix') = 4 * width img * height img
    /\ 0 <= n' <= width img * (y + 1)
    /\ (row_below img threshold y -> alphas_below threshold pix ->
        alphas_below threshold pix' /\ n' = n).
Proof.
  intros Hwf Hw Hy Hfit Hlen Hn. pose proof Hwf as [_ Hh Hs Hl].
  assert (Hwy : width img * y + width img <= width img * height img) by nia.
  unfold OpaqueArea_row. rewrite newScanner_w by done.
  int_norm.
  rewrite scan_Ok; rewrite ?newScanner_w, ?newScanner_h by done; try lia.
  rewrite bind_Ok. set (pix' := list_inserts _ _ pix).
  assert (Hlen' : Z.of_nat (length pix') = 4 * width img * height img)
    by (unfold pix'; by rewrite length_inserts).
  destruct (for_range_inv
    (fun x st => st.1 = y * 4 + 4 * x /\ n <= st.2 <= n + x
                 /\ (alphas_below threshold pix' -> st.2 = n))
    0 (width img) (OpaqueArea_pixel threshold pix') (y * 4, n))
    as ([i' n'] & Hloop & _ & Hn' & Hkeep).
  - lia.
  - simpl. repeat split; lia.
  - intros x [i m] Hx (Hi & Hm & Hkeep). simpl in Hi, Hm, Hkeep. subst i.
    unfold OpaqueArea_pixel. int_norm.
    destruct (index_in_range pix' (y * 4 + 4 * x + 4 + 3)) as [a Ha]; [lia|].
    rewrite Ha, bind_Ok. destruct (uint8_lt threshold a) eqn:Hlt.
    + eexists (_, _). split; [reflexivity|]. simpl. int_norm.
      split; [lia|]. split; [lia|]. intros Hall. exfalso.
      unfold index in Ha. destruct (_ && _); [|done].
      destruct (pix' !! _) as [a'|] eqn:Hlk; [|done]. injection Ha as ->.
      replace (Z.to_nat (y * 4 + 4 * x + 4 + 3)) with (4 * Z.to_nat (y + x + 1) + 3)%nat
        in Hlk by lia.
      rewrite (Hall _ _ Hlk) in Hlt. done.
    + eexists (_, _). split; [reflexivity|]. simpl. split; [lia|]. split; [lia|done].
  - rewrite Hloop, bind_Ok. exists pix', n'. simpl in Hn', Hkeep.
    split; [done|]. split; [done|]. split; [nia|].
    intros Hrow Hall.
    assert (alphas_below threshold pix') by (apply alphas_below_scan; try done; lia).
    auto.
Qed.

(** The row of [OpaqueArea] whose last read is past the buffer. *)
Lemma OpaqueArea_row_Panic (img : Image.t) (threshold : byte) (y : Z) (pix : list byte)
    (n : Z) :
  wf_image img -> 1 <= width img -> 0 <= y < height img ->
  y + width img = width img * height img ->
  Z.of_nat (length pix) = 4 * width img * height img ->
  0 <= n <= width img * y ->
  OpaqueArea_row (newScanner img) threshold y (pix, n) = Panic.
Proof.
  intros Hwf Hw Hy Hfit Hlen Hn. pose proof Hwf as [_ Hh Hs Hl].
  assert (Hwy : width img * y + width img <= width img * height img) by nia.
  unfold OpaqueArea_row. rewrite newScanner_w by done.
  int_norm.
  rewrite scan_Ok; rewrite ?newScanner_w, ?newScanner_h by done; try lia.
  rewrite bind_Ok. set (pix' := list_inserts _ _ pix).
  assert (Hlen' : Z.of_nat (length pix') = 4 * width img * height img)
    by (unfold pix'; by rewrite length_inserts).
  destruct (for_range_inv
    (fun x st => st.1 = y * 4 + 4 * x /\ n <= st.2 <= n + x)
    0 (width img - 1) (OpaqueArea_pixel threshold pix') (y * 4, n))
    as ([i' n'] & Hloop & Hi' & Hn').
  - lia.
  - simpl. lia.
  - intros x [i m] Hx (Hi & Hm). simpl in Hi, Hm. subst i.
    unfold OpaqueArea_pixel. int_norm.
    destruct (index_in_range pix' (y * 4 + 4 * x + 4 + 3)) as [a ->]; [lia|].
    rewrite bind_Ok. destruct (uint8_lt threshold a).
    + eexists (_, _). split; [reflexivity|]. simpl. int_norm. lia.
    + eexists (_, _). split; [reflexivity|]. simpl. lia.
  - simpl in Hi', Hn'. subst i'.
    rewrite (for_range_last_Panic 0 (width img) _ _ _ ltac:(lia) Hloop); [done|].
    unfold OpaqueArea_pixel. int_norm.
    rewrite index_Panic by lia. done.
Qed.

Lemma OpaqueArea_rows_Ok (img : Image.t) (threshold : byte) (m : nat) (pix : list byte) :
  wf_image img -> 1 <= width img -> Z.of_nat m <= height img ->
  (forall y, 0 <= y < Z.of_nat m -> y + width img + 1 <= width img * height img) ->
  Z.of_nat (length pix) = 4 * width img * height img ->
  exists pix' n',
    for_each (seqZ 0 (Z.of_nat m)) (OpaqueArea_row (newScanner img) threshold) (pix, 0)
    = Ok (pix', n')
    /\ Z.of_nat (length pix') = 4 * width img * height img
    /\ 0 <= n' <= width img * Z.of_nat m
    /\ ((forall y, 0 <= y < Z.of_nat m -> row_below img threshold y) ->
        alphas_below threshold pix -> alphas_below threshold pix' /\ n' = 0).
Proof.
  intros Hwf Hw Hm Hfit Hlen.
  destruct (for_each_inv
    (fun k st => Z.of_nat (length st.1) = 4 * width img * height img
                 /\ 0 <= st.2 <= width img * Z.of_nat k
                 /\ ((forall y, 0 <= y < Z.of_nat m -> row_below img threshold y) ->
                     alphas_below threshold pix -> alphas_below threshold st.1 /\ st.2 = 0))
    (seqZ 0 (Z.of_nat m)) (OpaqueArea_row (newScanner img) threshold) (pix, 0))
    as ([pix' n'] & Hloop & Hl' & Hn' & Hkeep).
  - simpl. split; [done|]. split; [lia|]. auto.
  - intros k y [p n] Hk (Hl & Hn & Hkeep). simpl in Hl, Hn, Hkeep.
    apply lookup_seqZ in Hk as [-> Hk].
    destruct (OpaqueArea_row_Ok img threshold (0 + Z.of_nat k) p n)
      as (p' & n' & -> & Hl' & Hn' & Hkeep'); try done; try lia.
    { apply Hfit. lia. }
    exists (p', n'). split; [done|]. simpl. split; [done|]. split; [lia|].
    intros Hrows Hall. destruct (Hkeep Hrows Hall) as [Hp ->].
    apply Hkeep'; [apply Hrows; lia|done].
  - rewrite length_seqZ, Z2Nat.id in Hn' by lia. simpl in *. by exists pix', n'.
Qed.

(** X22: OpaqueArea reads the alpha of each pixel four bytes too far, in rows
    that start at [y*4]: on an image one pixel wide or one pixel high the
    last read is past the buffer and the call panics; on an image at least
    two pixels wide and high it returns, with a count of [w*h] at most,
    which is 0 where no pixel is above the threshold. *)
Theorem OpaqueArea_returns (img : Image.t) (threshold : byte) :
  wf_image img -> 1 <= width img -> 1 <= height img ->
  (width img = 1 \/ height img = 1 -> OpaqueArea img threshold = Panic)
  /\ (2 <= width img -> 2 <= height img ->
      exists n, OpaqueArea img threshold = Ok n
        /\ 0 <= n <= width img * height img
        /\ (below img threshold -> n = 0)).
Proof.
  intros Hwf Hw Hh. pose proof Hwf as [_ Hfh Hfs Hfl].
  unfold OpaqueArea. rewrite newScanner_w, newScanner_h, NewNRGBA_Ok by (done || lia).
  rewrite bind_Ok, Pix_buffer, parallel_some by lia. rewrite Z.sub_0_r.
  set (pix := replicate _ x00).
  assert (Hlen : Z.of_nat (length pix) = 4 * width img * height img).
  { unfold pix. rewrite length_replicate.
    assert (0 <= 4 * width img * height img) by nia. lia. }
  split.
  - intros Hthin.
    replace (height img) with (Z.of_nat (Z.to_nat (height img - 1)) + 1) at 1 by lia.
    rewrite seqZ_app, for_each_app by lia.
    destruct (OpaqueArea_rows_Ok img threshold (Z.to_nat (height img - 1)) pix)
      as (pix' & n' & -> & Hl' & Hn' & _); try done; try lia.
    rewrite bind_Ok, seqZ_cons, seqZ_nil, for_each_cons by lia.
    rewrite OpaqueArea_row_Panic; try done; try lia.
  - intros Hw2 Hh2.
    assert (width img + height img <= width img * height img) by nia.
    destruct (OpaqueArea_rows_Ok img threshold (Z.to_nat (height img)) pix)
      as (pix' & n' & Hloop & Hl' & Hn' & Hkeep); try done; try lia.
    rewrite Z2Nat.id in Hloop, Hn', Hkeep by lia. rewrite Hloop, !bind_Ok. exists n'. split; [done|]. split; [lia|].
    intros Hb. apply Hkeep; [|apply alphas_below_replicate].
    intros y Hy. apply below_row_below; [done|lia].
Qed.

Lemma OpaqueArea_returns_witness :
  OpaqueArea sample_opaque x00 = Panic
  /\ exists n, OpaqueArea sample_background xff = Ok n
       /\ 0 <= n <= width sample_background * height sample_background
       /\ (below sample_background xff -> n = 0).
Proof.
  split.
  - apply (proj1 (OpaqueArea_returns sample_opaque x00 ltac:(wf_tac)
                    ltac:(vm_compute; discriminate) ltac:(vm_compute; discriminate))).
    left. reflexivity.
  - apply (proj2 (OpaqueArea_returns sample_background xff ltac:(wf_tac)
                    ltac:(vm_compute; discriminate) ltac:(vm_compute; discriminate)));
      vm_compute; discriminate.
Defined.

Lemma uint8_val_bounds (b : byte) : 0 <= uint8_val b <= 255.
Proof. unfold uint8_val. pose proof (Byte.to_N_bounded b). lia. Qed.

Lemma over_alpha_exact (P : Platform) (a1 a2 : byte) :
  over_alpha P (Float64.of_uint8 a1) (Float64.of_uint8 a2) = uint8_over a1 a2.
Proof.
  apply Byte.byte_dec_bl.
  apply (forall_float_table2 (fun a fa b fb => Byte.eqb (over_alpha P fa fb) (uint8_over a b))).
  vm_compute. reflexivity.
Qed.

Lemma float_of_uint8_val_spec (b : byte) :
  float_of_uint8_val (uint8_val b) = Float64.of_uint8 b.
Proof.
  apply FloatAxioms.Leibniz.eqb_spec.
  apply (forall_bytes (fun b =>
           PrimFloat.Leibniz.eqb (float_of_uint8_val (uint8_val b)) (Float64.of_uint8 b))).
  vm_compute. reflexivity.
Qed.

Lemma byte_of_Z_val (z : Z) : 0 <= z <= 255 -> uint8_val (Float64.byte_of_Z z) = z.
Proof.
  intros Hz. unfold uint8_val, Float64.byte_of_Z.
  destruct (Byte.of_N (Z.to_N z)) as [b|] eqn:E.
  - apply Byte.to_of_N in E. lia.
  - apply Byte.of_N_None_iff in E. lia.
Qed.

Lemma plus_of_uint8 (a b : byte) :
  math.Min (Float64.of_uint8 a + Float64.of_uint8 b)%float 255%float
  = Float64.of_uint8 (uint8_sat_add a b).
Proof.
  rewrite <- (float_of_uint8_val_spec (uint8_sat_add a b)). unfold uint8_sat_add.
  pose proof (uint8_val_bounds a). pose proof (uint8_val_bounds b).
  rewrite byte_of_Z_val by lia.
  apply FloatAxioms.Leibniz.eqb_spec.
  apply (forall_float_table2 (fun a fa b fb =>
           PrimFloat.Leibniz.eqb (math.Min (fa + fb)%float 255%float)
             (float_of_uint8_val (Z.min (uint8_val a + uint8_val b) 255)))).
  vm_compute. reflexivity.
Qed.

Lemma half_sum (a b : byte) :
  ((Float64.of_uint8 a + Float64.of_uint8 b) / 2)%float = half_of (uint8_val a + uint8_val b).
Proof.
  apply FloatAxioms.Leibniz.eqb_spec.
  apply (forall_float_table2 (fun a fa b fb =>
           PrimFloat.Leibniz.eqb ((fa + fb) / 2)%float (half_of (uint8_val a + uint8_val b)))).
  vm_compute. reflexivity.
Qed.

Lemma half_of_ltb (s t : Z) :
  0 <= s <= 510 -> 0 <= t <= 510 -> (half_of s <? half_of t)%float = (s <? t).
Proof.
  intros Hs Ht.
  assert (H : forallb (fun p => forallb (fun q =>
                Bool.eqb (p.2 <? q.2)%float (p.1 <? q.1)) half_table) half_table = true)
    by (vm_compute; reflexivity).
  assert (Hin : forall s, 0 <= s <= 510 -> In (s, half_of s) half_table).
  { intros u Hu. apply list_elem_of_In, list_elem_of_lookup. exists (Z.to_nat u).
    unfold half_of, half_table. rewrite list_lookup_fmap, lookup_seqZ_lt by lia.
    simpl. by rewrite Z2Nat.id by lia. }
  rewrite forallb_forall in H. specialize (H _ (Hin s Hs)).
  rewrite forallb_forall in H. specialize (H _ (Hin t Ht)).
  by apply Bool.eqb_prop in H.
Qed.

Lemma lightness_of (c : color.NRGBA) :
  ((math.Max (Float64.of_uint8 (color.R c))
      (math.Max (Float64.of_uint8 (color.G c)) (Float64.of_uint8 (color.B c)))
    + math.Min (Float64.of_uint8 (color.R c))
        (math.Min (Float64.of_uint8 (color.G c)) (Float64.of_uint8 (color.B c)))) / 2)%float
  = half_of (lightness2 c).
Proof. by rewrite !Max_of_uint8, !Min_of_uint8, half_sum. Qed.

Lemma lightness2_bounds (c : color.NRGBA) : 0 <= lightness2 c <= 510.
Proof.
  unfold lightness2.
  pose proof (uint8_val_bounds (uint8_max (color.R c) (uint8_max (color.G c) (color.B c)))).
  pose proof (uint8_val_bounds (uint8_min (color.R c) (uint8_min (color.G c) (color.B c)))).
  lia.
Qed.

(** X23: The bytes OpMax yields: the larger of each colour channel, and the
    alpha of the foreground over the background. *)
Theorem OpMax_bytes (P : Platform) (c1 c2 : color.NRGBA) :
  apply_op P OpMax c1 c2
  = {| color.R := uint8_max (color.R c1) (color.R c2);
       color.G := uint8_max (color.G c1) (color.G c2);
       color.B := uint8_max (color.B c1) (color.B c2);
       color.A := uint8_over (color.A c1) (color.A c2) |}.
Proof.
  unfold apply_op, OpMax. cbv zeta. rewrite !to_uint8_Max.
  by rewrite <- over_alpha_exact with (P := P).
Qed.

(** X24: The bytes OpPlus yields: the sum of each colour channel saturated at
    255, and the alpha of the foreground over the background. *)
Theorem OpPlus_bytes (P : Platform) (c1 c2 : color.NRGBA) :
  apply_op P OpPlus c1 c2
  = {| color.R := uint8_sat_add (color.R c1) (color.R c2);
       color.G := uint8_sat_add (color.G c1) (color.G c2);
       color.B := uint8_sat_add (color.B c1) (color.B c2);
       color.A := uint8_over (color.A c1) (color.A c2) |}.
Proof.
  unfold apply_op, OpPlus. cbv zeta. rewrite !plus_of_uint8, !to_uint8_of_uint8.
  by rewrite <- over_alpha_exact with (P := P).
Qed.

(** X25: The bytes OpLighten yields: the colour of the background where the
    foreground is strictly darker (its largest plus its smallest channel
    is smaller), the colour of the foreground otherwise; and the alpha of
    the foreground over the background. *)
Theorem OpLighten_bytes (P : Platform) (c1 c2 : color.NRGBA) :
  apply_op P OpLighten c1 c2
  = let c := if lightness2 c2 <? lightness2 c1 then c1 else c2 in
    {| color.R := color.R c; color.G := color.G c; color.B := color.B c;
       color.A := uint8_over (color.A c1) (color.A c2) |}.
Proof.
  unfold apply_op, OpLighten. cbv zeta.
  rewrite !lightness_of, half_of_ltb by apply lightness2_bounds.
  rewrite <- over_alpha_exact with (P := P). unfold over_alpha.
  destruct (lightness2 c2 <? lightness2 c1); by rewrite !to_uint8_of_uint8.
Qed.

Lemma ltb_leb (x y : float) : (x <? y)%float = true -> (x <=? y)%float = true.
Proof.
  rewrite FloatAxioms.ltb_spec, FloatAxioms.leb_spec. unfold SFltb, SFleb.
  by destruct (SFcompare _ _) as [[]|].
Qed.

Lemma eqb_0_range (p : float) :
  (p =? 0)%float = true -> (0 <=? p)%float = true /\ (p <=? 1)%float = true.
Proof.
  rewrite !FloatAxioms.leb_spec, FloatAxioms.eqb_spec. unfold SFeqb, SFleb.
  rewrite Prim2SF_0, Prim2SF_1.
  destruct (Prim2SF p) as [[]|[]| |[] ? ?];
    cbv beta iota delta [SFcompare]; try discriminate; by split.
Qed.

Lemma IsNaN_nan (p : float) : math.IsNaN p = true -> p = nan.
Proof.
  unfold math.IsNaN. rewrite FloatAxioms.eqb_spec. unfold SFeqb. intros H.
  rewrite <- (SF2Prim_Prim2SF p).
  destruct (Prim2SF p) as [[]|[]| |s m e] eqn:E; try done.
  exfalso. revert H. unfold SFcompare.
  destruct s; rewrite Z.compare_refl, Pos.compare_cont_refl; done.
Qed.

(** X26: The opacity Overlay works with (line 343) lies in [0, 1] for every
    opacity that is a number, the infinities included; NaN stays NaN. *)
Theorem clamp_opacity_range (opacity : float) :
  (math.IsNaN opacity = false ->
   (0 <=? math.Min (math.Max opacity 0) 1)%float = true
   /\ (math.Min (math.Max opacity 0) 1 <=? 1)%float = true)
  /\ (math.IsNaN opacity = true -> math.Min (math.Max opacity 0) 1 = nan).
Proof.
  split.
  - intros Hn. unfold math.Max.
    destruct (math.IsInf opacity 1 || math.IsInf 0 1); [by split|].
    rewrite Hn. change (math.IsNaN 0) with false. simpl orb. cbv iota.
    assert (Hmin : forall p, math.IsNaN p = false ->
              (p =? 0)%float = true \/ (0 <? p)%float = true ->
              (0 <=? p)%float = true -> 
              (0 <=? math.Min p 1)%float = true /\ (math.Min p 1 <=? 1)%float = true).
    { intros p Hp H0 Hle. unfold math.Min.
      assert (E5 : math.IsInf p (-1) || math.IsInf 1 (-1) = false).
      { unfold math.IsInf.
        destruct H0 as [H0|H0];
          [apply eqb_0_not_neg_inf in H0|apply ltb_0_not_neg_inf in H0]; rewrite H0;
          by rewrite !andb_false_r. }
      rewrite E5, Hp. change (math.IsNaN 1) with false. simpl orb. cbv iota.
      assert (E3 : (p =? 0)%float && (p =? 1)%float = false).
      { destruct (p =? 0)%float eqn:E; [|done]. by rewrite (eqb_0_not_1 p E). }
      rewrite E3. destruct (p <? 1)%float eqn:E4; [|by split].
      split; [done|by apply ltb_leb]. }
    destruct (opacity =? 0)%float eqn:E3; simpl andb; cbv iota.
    + destruct (math.Signbit opacity); [by split|].
      apply Hmin; [done|by left|]. by apply eqb_0_range.
    + destruct (0 <? opacity)%float eqn:E4; [|by split].
      apply Hmin; [done|by right|]. by apply ltb_leb.
  - intros Hn. apply IsNaN_nan in Hn. by subst.
Qed.

Lemma clamp_opacity_range_witness :
  ((0 <=? math.Min (math.Max 2.5 0) 1)%float = true
   /\ (math.Min (math.Max 2.5 0) 1 <=? 1)%float = true)
  /\ math.Min (math.Max nan 0) 1 = nan.
Proof.
  split.
  - apply (proj1 (clamp_opacity_range 2.5)). reflexivity.
  - apply (proj2 (clamp_opacity_range nan)). reflexivity.
Defined.

(** X27: OpaqueBounds returns on every well-formed image: its reads stay in
    the buffer. *)
Theorem OpaqueBounds_returns (P : Platform) (img : Image.t) (threshold : byte) :
  wf_image img -> exists out, OpaqueBounds P img threshold = Ok out.
Proof.
  intros Hwf. destruct (OpaqueBounds_Ok P img threshold Hwf) as (out & H & _). eauto.
Qed.

Lemma OpaqueBounds_returns_witness :
  exists out, OpaqueBounds platform0 sample_background x00 = Ok out.
Proof. apply OpaqueBounds_returns. wf_tac. Defined.

(** X28: Paste, then Crop at the place of the paste, gives the pasted image
    back: for an image that lies inside the background. *)
Theorem Crop_Paste (background img : Image.t) (pos : Point.t) (dst : NRGBA.t) :
  wf_image background -> wf_image img -> 0 < width img -> 0 < height img ->
  let p := Point.Sub pos (Rectangle.Min (Image.Bounds background)) in
  0 <= Point.X p -> Point.X p + width img <= width background ->
  0 <= Point.Y p -> Point.Y p + height img <= height background ->
  Paste background img pos = Ok dst ->
  Crop (NRGBA.Image dst) (window p (width img) (height img)) = Clone img.
Proof.
  intros Hb Hi Hw Hh p Hx0 Hx1 Hy0 Hy1.
  assert (Hp : Point.Sub pos (Rectangle.Min (Image.Bounds background)) = p) by done.
  clearbody p.
  pose proof Hb as [Hbw Hbh Hbs Hbl]. pose proof Hi as [Hiw Hih His Hil].
  rewrite Paste_Ok by done. intros [= <-]. rewrite pixels_grid.
  fold (width background) (height background).
  set (bx := Point.X (Rectangle.Min (Image.Bounds background))).
  set (by_ := Point.Y (Rectangle.Min (Image.Bounds background))).
  set (over := overlaid _ background img pos).
  rewrite Crop_window; try done; try (simpl; lia); [|by apply wf_buffer].
  rewrite Clone_Ok, pixels_grid by done. fold (width img) (height img).
  do 2 f_equal. apply grid_shift. intros x y Hx Hy. unfold NRGBA.Image. psimpl.
  rewrite NRGBAAt_grid by lia.
  assert (Ep : pasteRect background img pos = window p (width img) (height img)).
  { unfold pasteRect, window. rewrite Hp, wf_Size by done. unfold Point.Add. psimpl.
    rewrite !add_id by in_range_tac. by destruct p. }
  assert (Er : interRect background img pos = window p (width img) (height img)).
  { unfold interRect. rewrite Ep.
    by destruct (Intersect_inside_r (cloneBounds background)
                   (window p (width img) (height img))) as [_ ->];
      try (unfold cloneBounds, window; psimpl; lia). }
  unfold over, overlaid. psimpl. fold bx by_.
  replace (bx + (Point.X p + x) - bx) with (Point.X p + x) by lia.
  replace (by_ + (Point.Y p + y) - by_) with (Point.Y p + y) by lia.
  rewrite Er, Ep. unfold covered, window. psimpl.
  destruct (Z.leb_spec (Point.X p) (Point.X p + x)); [|lia].
  destruct (Z.ltb_spec (Point.X p + x) (Point.X p + width img)); [|lia].
  destruct (Z.leb_spec (Point.Y p) (Point.Y p + y)); [|lia].
  destruct (Z.ltb_spec (Point.Y p + y) (Point.Y p + height img)); [|lia].
  simpl. f_equal; lia.
Qed.

Lemma Crop_Paste_witness :
  Crop (NRGBA.Image (buffer 2 2
          (pixels (overlaid (fun _ c => c) sample_background sample_opaque (Pt 1 1))
             (Image.Bounds sample_background))))
    (window (Point.Sub (Pt 1 1) (Rectangle.Min (Image.Bounds sample_background)))
       (width sample_opaque) (height sample_opaque))
  = Clone sample_opaque.
Proof.
  apply (Crop_Paste sample_background sample_opaque (Pt 1 1));
    [wf_tac | wf_tac | reflexivity | reflexivity | vm_compute; discriminate
    | vm_compute; discriminate | vm_compute; discriminate | vm_compute; discriminate
    | vm_compute; reflexivity].
Defined.

Lemma SFcompare_antisym (x y : spec_float) :
  SFcompare y x = option_map CompOpp (SFcompare x y).
Proof.
  destruct x as [[]|[]| |[] m1 e1], y as [[]|[]| |[] m2 e2]; try reflexivity;
    cbn [SFcompare option_map]; rewrite (Z.compare_antisym e2 e1);
    destruct (e2 ?= e1); cbn [CompOpp]; try reflexivity;
    change (Pos.compare_cont Eq m2 m1) with (Pos.compare m2 m1);
    change (Pos.compare_cont Eq m1 m2) with (Pos.compare m1 m2);
    rewrite (Pos.compare_antisym m2 m1); by rewrite ?CompOpp_involutive.
Qed.

Lemma leb_not_ltb (x y : float) : (x <=? y)%float = true -> (y <? x)%float = false.
Proof.
  rewrite FloatAxioms.ltb_spec, FloatAxioms.leb_spec. unfold SFltb, SFleb.
  rewrite (SFcompare_antisym (Prim2SF x) (Prim2SF y)).
  by destruct (SFcompare (Prim2SF x) (Prim2SF y)) as [[]|].
Qed.

Lemma positive_zero (p : float) :
  (p =? 0)%float = true -> math.Signbit p = false -> p = 0%float.
Proof.
  unfold math.Signbit. rewrite FloatAxioms.eqb_spec. unfold SFeqb. rewrite Prim2SF_0.
  rewrite <- (SF2Prim_Prim2SF p) at 3.
  destruct (Prim2SF p) as [[]|[]| |[] ? ?]; cbv beta iota delta [SFcompare];
    try discriminate; reflexivity.
Qed.

Lemma clamp_nonpositive (p : float) : (p <=? 0)%float = true -> clamp_opacity p = 0%float.
Proof.
  intros Hp. unfold clamp_opacity, math.Max.
  assert (E1 : math.IsInf p 1 = false).
  { unfold math.IsInf. simpl andb. revert Hp.
    rewrite FloatAxioms.leb_spec, FloatAxioms.ltb_spec. unfold SFleb, SFltb.
    rewrite Prim2SF_0. change (Prim2SF math.MaxFloat64)
      with (S754_finite false 9007199254740991 971).
    destruct (Prim2SF p) as [[]|[]| |[] ? ?]; cbv beta iota delta [SFcompare];
      try discriminate; try reflexivity. }
  assert (E2 : math.IsNaN p = false).
  { unfold math.IsNaN. revert Hp.
    rewrite FloatAxioms.leb_spec, FloatAxioms.eqb_spec. unfold SFleb, SFeqb.
    rewrite Prim2SF_0.
    destruct (Prim2SF p) as [[]|[]| |[] m e]; cbv beta iota delta [SFcompare];
      try discriminate; try reflexivity;
      by rewrite Z.compare_refl, Pos.compare_cont_refl. }
  rewrite E1, E2, (leb_not_ltb p 0 Hp). change (math.IsInf 0 1) with false.
  change (math.IsNaN 0) with false. simpl orb. cbv iota.
  destruct (p =? 0)%float eqn:E3; simpl andb; cbv iota; [|reflexivity].
  destruct (math.Signbit p) eqn:E4; [reflexivity|].
  by rewrite (positive_zero p E3 E4).
Qed.

Lemma clamp_one_or_more (p : float) : (1 <=? p)%float = true -> clamp_opacity p = 1%float.
Proof.
  intros Hp. unfold clamp_opacity, math.Max.
  destruct (math.IsInf p 1 || math.IsInf 0 1); [reflexivity|].
  assert (E : math.IsNaN p = false /\ (p =? 0)%float = false /\ (0 <? p)%float = true
              /\ (p <? - math.MaxFloat64)%float = false).
  { unfold math.IsNaN. revert Hp.
    rewrite FloatAxioms.leb_spec, !FloatAxioms.ltb_spec, !FloatAxioms.eqb_spec.
    unfold SFleb, SFltb, SFeqb. rewrite Prim2SF_0, Prim2SF_1, Prim2SF_neg_max.
    destruct (Prim2SF p) as [[]|[]| |[] m e]; cbv beta iota delta [SFcompare];
      try discriminate; intros _; repeat split; try reflexivity;
      try (rewrite Z.compare_refl, Pos.compare_cont_refl; reflexivity). }
  destruct E as (E2 & E3 & E4 & E5). rewrite E2, E3, E4.
  change (math.IsNaN 0) with false. simpl orb. simpl andb. cbv iota.
  unfold math.Min, math.IsInf. rewrite E5, E2, E3, (leb_not_ltb 1 p Hp).
  by rewrite !andb_false_r.
Qed.

(** X29: Overlay saturates: every opacity of 0 or below, negative infinity
    included, gives the result of opacity 0, and every opacity of 1 or
    above, positive infinity included, the result of opacity 1. *)
Theorem Overlay_saturates (P : Platform) (background img : Image.t) (pos : Point.t)
    (opacity : float) :
  ((opacity <=? 0)%float = true ->
   Overlay P background img pos opacity = Overlay P background img pos 0)
  /\ ((1 <=? opacity)%float = true ->
      Overlay P background img pos opacity = Overlay P background img pos 1).
Proof.
  split; intros H; rewrite !Overlay_OverlayWithOp.
  - by rewrite (clamp_nonpositive opacity H), clamp_opacity_0.
  - by rewrite (clamp_one_or_more opacity H), clamp_opacity_1.
Qed.

Lemma Overlay_saturates_witness :
  Overlay platform0 sample_background sample_opaque (Pt 1 1) neg_infinity
  = Overlay platform0 sample_background sample_opaque (Pt 1 1) 0
  /\ Overlay platform0 sample_background sample_opaque (Pt 1 1) 7.5
     = Overlay platform0 sample_background sample_opaque (Pt 1 1) 1.
Proof.
  split.
  - apply (proj1 (Overlay_saturates platform0 sample_background sample_opaque (Pt 1 1)
                    neg_infinity)). reflexivity.
  - apply (proj2 (Overlay_saturates platform0 sample_background sample_opaque (Pt 1 1)
                    7.5)). reflexivity.
Defined.
